(** * pilosa/core/http.go: request archiver and broadcast hub

    A shallow embedding of the asynchronous parts of [core/http.go]:
    - [NewLogRecord]: gzip + base64 of a captured request;
    - [flush] and [Logger]: the archive worker and its three triggers;
    - [RequestLogger.Handle]: the archiving adapter;
    - [streamer] and [drain]: the per-connection relay over the notify bus.

    Goroutines that [select] over channels are modelled by the sequence of
    cases the [select] takes: one step of the model is one iteration of the
    source loop. *)

From Stdlib Require Import ZArith Lia Ascii String.
From stdpp Require Import base option list strings gmap pretty.

(** ** Bytes *)

Local Open Scope Z_scope.

Abbreviation byte := Byte.byte.

(** [uint(b)]: the value of a byte. *)
Definition byteZ (b : byte) : Z := Z.of_N (Byte.to_N b).

(** [byte(x)]: Go's conversion to [byte] keeps the low 8 bits. *)
Definition Zbyte (z : Z) : byte :=
  default Byte.x00 (Byte.of_N (Z.to_N (Z.land z 255))).

(** ** encoding/base64, [StdEncoding] *)

Module Base64.

(** [encodeStd], the 64-character alphabet of RFC 4648. *)
Definition encodeStd : list ascii :=
  list_ascii_of_string
    "ABCDEFGHIJKLMNOPQRSTUVWXYZabcdefghijklmnopqrstuvwxyz0123456789+/".

Definition padChar : ascii := "="%char.

(** [enc.encode[v]] for a 6-bit index [v]. *)
Definition encode_char (v : Z) : ascii :=
  nth (Z.to_nat v) encodeStd "A"%char.

Fixpoint index_of (c : ascii) (l : list ascii) (i : Z) : option Z :=
  match l with
  | [] => None
  | x :: l' => if Ascii.eqb c x then Some i else index_of c l' (i + 1)
  end.

(** [enc.decodeMap[c]]; [None] stands for the 0xFF entries. *)
Definition decodeMap (c : ascii) : option Z := index_of c encodeStd 0.

(** [Encoding.Encode]: whole 3-byte groups first, then the remaining one
    or two bytes with padding. *)
Fixpoint encode (src : list byte) : list ascii :=
  match src with
  | [] => []
  | [b0] =>
      let val := Z.shiftl (byteZ b0) 16 in
      [encode_char (Z.land (Z.shiftr val 18) 63);
       encode_char (Z.land (Z.shiftr val 12) 63);
       padChar; padChar]
  | [b0; b1] =>
      let val := Z.lor (Z.shiftl (byteZ b0) 16) (Z.shiftl (byteZ b1) 8) in
      [encode_char (Z.land (Z.shiftr val 18) 63);
       encode_char (Z.land (Z.shiftr val 12) 63);
       encode_char (Z.land (Z.shiftr val 6) 63);
       padChar]
  | b0 :: b1 :: b2 :: rest =>
      let val := Z.lor (Z.lor (Z.shiftl (byteZ b0) 16)
                              (Z.shiftl (byteZ b1) 8)) (byteZ b2) in
      encode_char (Z.land (Z.shiftr val 18) 63)
      :: encode_char (Z.land (Z.shiftr val 12) 63)
      :: encode_char (Z.land (Z.shiftr val 6) 63)
      :: encode_char (Z.land val 63)
      :: encode rest
  end.

Definition EncodeToString (src : list byte) : string :=
  string_of_list_ascii (encode src).

(** The decoder ignores carriage returns and line feeds. *)
Definition is_newline (c : ascii) : bool :=
  Ascii.eqb c "010"%char || Ascii.eqb c "013"%char.

Definition strip_newlines (s : list ascii) : list ascii :=
  filter (fun c => is_newline c = false) s.

(** One quantum of four characters gives up to three bytes; padding is
    accepted only in the last quantum. *)
Fixpoint decode_quanta (s : list ascii) : option (list byte) :=
  match s with
  | [] => Some []
  | c0 :: c1 :: c2 :: c3 :: rest =>
      d0 ← decodeMap c0;
      d1 ← decodeMap c1;
      if Ascii.eqb c2 padChar then
        if Ascii.eqb c3 padChar && bool_decide (rest = []) then
          let val := Z.lor (Z.shiftl d0 18) (Z.shiftl d1 12) in
          Some [Zbyte (Z.shiftr val 16)]
        else None
      else
        d2 ← decodeMap c2;
        if Ascii.eqb c3 padChar then
          if bool_decide (rest = []) then
            let val := Z.lor (Z.lor (Z.shiftl d0 18) (Z.shiftl d1 12))
                             (Z.shiftl d2 6) in
            Some [Zbyte (Z.shiftr val 16); Zbyte (Z.shiftr val 8)]
          else None
        else
          d3 ← decodeMap c3;
          let val := Z.lor (Z.lor (Z.lor (Z.shiftl d0 18) (Z.shiftl d1 12))
                                  (Z.shiftl d2 6)) d3 in
          tl ← decode_quanta rest;
          Some (Zbyte (Z.shiftr val 16) :: Zbyte (Z.shiftr val 8)
                :: Zbyte val :: tl)
  | _ => None
  end.

Definition DecodeString (s : string) : option (list byte) :=
  decode_quanta (strip_newlines (list_ascii_of_string s)).

End Base64.

Local Close Scope Z_scope.

(** ** Capabilities supplied by packages outside [core] *)

(** Package [time]: the instants [time.Now()] returns, the zero instant
    and the rendering [t.Format("/2006/01/02/15/04-05")]. *)
Class Clock := {
  time : Type;
  zeroTime : time;
  Format : time -> string;
}.

(** Package [compress/gzip] writing into a [bytes.Buffer]: the writer
    state carries the buffer.  [gunzip] reads a gzip stream to its end. *)
Class Gzip := {
  Writer : Type;
  NewWriter : Writer;
  Write : Writer -> list byte -> Writer;
  Flush : Writer -> Writer;
  Close : Writer -> Writer;
  Bytes : Writer -> list byte;
  gunzip : list byte -> option (list byte);
}.

(** ** The archive record *)

Record LogRecord `{Clock} := {
  When : time;
  Data_x64 : string;
}.

(** Package [encoding/json]: [Marshal] of a record, [None] on an encoding
    error. *)
Class Json `{Clock} := {
  Marshal : LogRecord -> option (list byte);
}.

(** Modelled from the spec: package [pilosa/config] is not among the
    sources; the archive path starts with the "configured base path".
    The configuration is a table of string settings, and
    [GetStringDefault] reads one, with a default for a missing key. *)
Class Config := {
  settings : gmap string string;
}.

Definition GetStringDefault `{Config} (key def : string) : string :=
  default def (settings !! key).

Section Archive.
Context `{Clock} `{Gzip} `{!Json} `{Config}.

Definition NewLogRecord (t : time) (data : list byte) : LogRecord :=
  let w := NewWriter in
  let w := Write w data in
  let w := Flush w in
  let w := Close w in
  let e := Base64.EncodeToString (Bytes w) in
  {| When := t; Data_x64 := e |}.

(** What a reader of the archive does with one record. *)
Definition decode_record (r : LogRecord) : option (list byte) :=
  b ← Base64.DecodeString (Data_x64 r); gunzip b.

(** [genFileName]; [t] is the [time.Now()] read inside it. *)
Definition genFileName (t : time) (id : string) : string :=
  let base := GetStringDefault "pilosa_request_log" "/tmp/set_bit_log" in
  (base ++ Format t ++ "." ++ id ++ ".log")%string.

(** The world the worker acts on: the files created so far, each with
    the chunks written to it in order, and the lines sent to the log. *)
Record world := {
  files : list (string * list (list byte));
  logs : list string;
}.

Definition Println (msg : string) (w : world) : world :=
  {| files := files w; logs := logs w ++ [msg] |}.

(** Modelled from the spec: [util.Create] of package [pilosa/util], which
    is not among the sources.  It opens a new file at the given path, or
    fails with an error; [create_err] is the error, if any. *)
Definition Create (dest : string) (create_err : option string) (w : world)
  : world + string :=
  match create_err with
  | Some err => inr err
  | None => inl {| files := files w ++ [(dest, [])]; logs := logs w |}
  end.

(** [w.Write(p)] on the file created last. *)
Definition write_last (p : list byte) (w : world) : world :=
  match reverse (files w) with
  | [] => w
  | (dest, body) :: older =>
      {| files := reverse older ++ [(dest, body ++ [p])]; logs := logs w |}
  end.

(** [json.Encoder.Encode]: a value that does not marshal is reported to
    the caller and nothing is written; otherwise the encoding is written
    followed by a newline.  The result is the error flag. *)
Definition Encode (v : LogRecord) (w : world) : world * bool :=
  match Marshal v with
  | None => (w, true)
  | Some b => (write_last (b ++ [Byte.x0a]) w, false)
  end.

(** The loop [for i := 0; i < records_to_dump; i++] of [flush], from
    index [i] with [n] iterations to go.  [None] is the run-time panic of
    [requests[i]] out of range. *)
Fixpoint encode_loop (requests : list LogRecord) (i n : nat) (w : world)
  : option world :=
  match n with
  | O => Some w
  | S n' =>
      match requests !! i with
      | None => None
      | Some r => encode_loop requests (S i) n' (fst (Encode r w))
      end
  end.

(** The environment of one loop iteration of the worker: the instant
    read for the record, the instant read by [genFileName] and the
    outcome of [util.Create], should the iteration flush. *)
Record env := {
  now : time;
  flush_now : time;
  create_err : option string;
}.

Definition flush (requests : list LogRecord) (id : string)
    (records_to_dump : nat) (e : env) (w : world) : option world :=
  let dest := genFileName (flush_now e) id in
  match Create dest (create_err e) w with
  | inr err =>
      Some (Println err (Println ("Error opening outfile  " ++ dest) w))
  | inl w' => encode_loop requests 0 records_to_dump w'
  end.

(** The case the [select] of [Logger] takes. *)
Inductive signal :=
| Raw (raw : list byte)
| Flusher
| End_.

Record logger := {
  buffer : list LogRecord;
  i : nat;
}.

Inductive outcome :=
| Running (st : logger)
| Returned
| Panicked.

Definition zeroLogRecord : LogRecord := {| When := zeroTime; Data_x64 := EmptyString |}.

(** [make([]LogRecord, 2048, 2048)] and [i := 0]. *)
Definition Logger_init : logger :=
  {| buffer := replicate 2048 zeroLogRecord; i := 0 |}.

(** One iteration of the [for { select { ... } }] of [Logger]. *)
Definition Logger_step (id : string) (s : signal) (e : env)
    (st : logger) (w : world) : outcome * world :=
  match s with
  | Raw raw =>
      let logRecord := NewLogRecord (now e) raw in
      if bool_decide (i st < length (buffer st)) then
        let buffer' := <[i st := logRecord]> (buffer st) in
        let i' := i st + 1 in
        if bool_decide (2047 < i') then
          match flush buffer' id i' e w with
          | Some w' => (Running {| buffer := buffer'; i := 0 |}, w')
          | None => (Panicked, w)
          end
        else (Running {| buffer := buffer'; i := i' |}, w)
      else (Panicked, w)
  | Flusher =>
      if bool_decide (0 < i st) then
        match flush (buffer st) id (i st) e w with
        | Some w' => (Running {| buffer := buffer st; i := 0 |}, w')
        | None => (Panicked, w)
        end
      else (Running st, w)
  | End_ =>
      match flush (buffer st) id (i st) e w with
      | Some w' => (Returned, Println "Shutdown Logger" w')
      | None => (Panicked, w)
      end
  end.

(** The worker run over the cases its [select] takes, in order.  Once the
    function has returned (or panicked) the remaining cases are never
    taken. *)
Fixpoint Logger_run (id : string) (ticks : list (signal * env))
    (st : logger) (w : world) : outcome * world :=
  match ticks with
  | [] => (Running st, w)
  | (s, e) :: ticks' =>
      match Logger_step id s e st w with
      | (Running st', w') => Logger_run id ticks' st' w'
      | stopped => stopped
      end
  end.

Definition Logger (id : string) (ticks : list (signal * env))
  : outcome * world :=
  Logger_run id ticks Logger_init {| files := []; logs := [] |}.

(** The chunk [Encode] writes for a record, and the chunks a file holds
    after a sequence of records went through [Encode]: a record that does
    not marshal leaves nothing. *)
Definition line (r : LogRecord) : option (list byte) :=
  (λ b, b ++ [Byte.x0a]) <$> Marshal r.

Definition lines_of (rs : list LogRecord) : list (list byte) :=
  omap line rs.

(** A sequence of inbound events, each with the environment of the
    iteration that receives it, as cases of the [select]. *)
Definition inbound (evs : list (list byte * env)) : list (signal * env) :=
  map (λ ev, (Raw ev.1, ev.2)) evs.

(** The records the worker builds for such a sequence. *)
Definition records (evs : list (list byte * env)) : list LogRecord :=
  map (λ ev, NewLogRecord (now ev.2) ev.1) evs.

(** The part of the buffer below the cursor. *)
Definition held (st : logger) : list LogRecord := take (i st) (buffer st).

(** The world after a flush cycle over the records [rs]: one more file
    holding their chunks, or, when the file cannot be created, two more
    lines in the log. *)
Definition after_flush (rs : list LogRecord) (id : string) (e : env)
    (w : world) : world :=
  match create_err e with
  | None =>
      {| files := files w ++ [(genFileName (flush_now e) id, lines_of rs)];
         logs := logs w |}
  | Some err =>
      {| files := files w;
         logs := logs w ++ ["Error opening outfile  "
                            ++ genFileName (flush_now e) id; err]%string |}
  end.

(** The buffer invariant: the slice keeps its 2048 slots and, between
    iterations, the cursor stays below 2048. *)
Definition buffer_ok (st : logger) : Prop :=
  length (buffer st) = 2048 ∧ i st ≤ 2047.

End Archive.

(** ** Channels *)

(** A Go channel: its capacity, the values queued in it and whether it
    has been closed. *)
Record chan (A : Type) := {
  cap : nat;
  queue : list A;
  closed : bool;
}.
Arguments cap {A} _.
Arguments queue {A} _.
Arguments closed {A} _.

(** [make(chan A, n)]. *)
Definition make_chan {A} (n : nat) : chan A :=
  {| cap := n; queue := []; closed := false |}.

(** [ch <- v] when it can proceed at once; [None] when the sender has to
    wait for room.  (Sending on a closed channel does not occur in the
    modelled code.) *)
Definition send {A} (v : A) (c : chan A) : option (chan A) :=
  if bool_decide (length (queue c) < cap c) then
    Some {| cap := cap c; queue := queue c ++ [v]; closed := closed c |}
  else None.

(** [<-ch] when it can proceed at once: the oldest queued value, or the
    zero value [zero] from a closed and empty channel; [None] when the
    receiver has to wait. *)
Definition recv {A} (zero : A) (c : chan A) : option (A * chan A) :=
  match queue c with
  | v :: q => Some (v, {| cap := cap c; queue := q; closed := closed c |})
  | [] => if closed c then Some (zero, c) else None
  end.

(** ** The archiving adapter *)

Module Adapter.
Section Adapter.
Context {Request ResponseWriter : Type}.

(** [httputil.DumpRequest(r, true)]: the dump, or an error, in which case
    the returned dump is nil. *)
Inductive dump_result :=
| Dumped (dump : list byte)
| DumpFailed (err : string).

(** The calls a request-handling task makes, in the order it makes them. *)
Inductive event :=
| EvDumpRequest
| EvLog (msg : string)
| EvHandlerCalled
| EvHandlerReturned
| EvSent (dump : list byte).


Record exchange := {
  w : ResponseWriter;
  r : Request;
  logger : chan (list byte);
  trace : list event;
}.

Inductive handle_outcome :=
| Handled (x : exchange)
| BlockedOnSend (x : exchange) (dump : list byte)
| HandlerDidNotReturn (x : exchange).

(** [DumpRequest] may touch the request (it reads the body and puts a
    copy back); the inner [handler] acts on the writer and the request
    and may fail to return. *)
Variable DumpRequest : Request -> Request * dump_result.
Variable handler : ResponseWriter -> Request -> option (ResponseWriter * Request).

(** [RequestLogger.Handle]. *)
Definition Handle (x : exchange) : handle_outcome :=
  let '(r1, res) := DumpRequest (r x) in
  let dump := match res with Dumped d => d | DumpFailed _ => [] end in
  let tr1 :=
    trace x ++ [EvDumpRequest] ++
    match res with
    | Dumped _ => []
    | DumpFailed err => [EvLog ("Dump Failure " ++ err)]
    end in
  match handler (w x) r1 with
  | None =>
      HandlerDidNotReturn
        {| w := w x; r := r1; logger := logger x;
           trace := tr1 ++ [EvHandlerCalled] |}
  | Some (w2, r2) =>
      let tr2 := tr1 ++ [EvHandlerCalled; EvHandlerReturned] in
      match send dump (logger x) with
      | None =>
          BlockedOnSend
            {| w := w2; r := r2; logger := logger x; trace := tr2 |} dump
      | Some ch =>
          Handled {| w := w2; r := r2; logger := ch;
                     trace := tr2 ++ [EvSent dump] |}
      end
  end.

End Adapter.
End Adapter.

(** ** The broadcast hub *)

Module Hub.
Section Hub.
Context {Payload Host Conn : Type}.

(** Modelled from the spec: [db.Message] and [db.Envelope] of package
    [pilosa/db], which is not among the sources, are the two variants of a
    bus event, "Inbound{Data}" and "Outbound{Data, DestinationHost}".
    They carry the fields [streamer] reads; a [Data] of [None] is the nil
    interface. *)
Record Message := {
  Data : option Payload;
}.

Record Envelope := {
  Message_ : Message;
  Host_ : Host;
}.

(** The values an [interface{}] channel carries here. *)
Inductive value :=
| VNil
| VBool (b : bool)
| VMessage (m : Message)
| VEnvelope (e : Envelope).

(** Package [notify] keeps a table from event names to the channels
    observing them; channels are identified by their index in [heap]. *)
Record bus := {
  heap : list (chan value);
  events : gmap string (list nat);
}.

Record hub := {
  the_bus : bus;
  conn : Conn;
  hub_logs : list string;
}.

(** [reflect.TypeOf(data).String()], [spew.Sdump(data)], [Host.String()]
    and the writer handed to [streamer]. *)
Variable TypeString : Payload -> string.
Variable Sdump : Payload -> string.
Variable HostString : Host -> string.
Variable writer : gmap string string -> Conn -> Conn * option string.

(** Whether [notify.Stop] also closes the channel it unregisters; the
    package is not among the sources, so both behaviours are covered. *)
Variable stop_closes : bool.

Definition make (n : nat) (b : bus) : nat * bus :=
  (length (heap b), {| heap := heap b ++ [make_chan n]; events := events b |}).

(** [notify.Start(event, ch)]. *)
Definition Start (event : string) (ch : nat) (b : bus) : bus :=
  {| heap := heap b;
     events := <[event := default [] (events b !! event) ++ [ch]]> (events b) |}.

Definition close_chan (ch : nat) (h : list (chan value)) : list (chan value) :=
  match h !! ch with
  | Some c => <[ch := {| cap := cap c; queue := queue c; closed := true |}]> h
  | None => h
  end.

(** [notify.Stop(event, ch)]; the error result is ignored by [streamer]. *)
Definition Stop (event : string) (ch : nat) (b : bus) : bus :=
  match events b !! event with
  | None => b
  | Some outChans =>
      {| heap := if stop_closes && bool_decide (ch ∈ outChans)
                 then close_chan ch (heap b) else heap b;
         events := <[event := filter (λ c, c ≠ ch) outChans]> (events b) |}
  end.

(** [notify.Post(event, data)], when no observer's channel is full: the
    value is sent to every channel observing the event, in order.
    [None]: the publisher waits on a full channel. *)
Fixpoint post_all (data : value) (chs : list nat) (h : list (chan value))
  : option (list (chan value)) :=
  match chs with
  | [] => Some h
  | ch :: chs' =>
      c ← h !! ch;
      c' ← send data c;
      post_all data chs' (<[ch := c']> h)
  end.

Definition Post (event : string) (data : value) (b : bus) : option bus :=
  match events b !! event with
  | None => Some b
  | Some outChans =>
      h ← post_all data outChans (heap b);
      Some {| heap := h; events := events b |}
  end.

(** The comparison a tagless [switch] makes of a case expression with
    [true]. *)
Definition is_true (v : value) : bool :=
  match v with
  | VBool true => true
  | _ => false
  end.

(** [drain]: the body is [switch { case <-ch: default: return }], so each
    iteration performs the receive [<-ch] and compares the value received
    with [true]; the loop goes on while they are equal.  The recursion is
    on the queue, one element per receive.  [None]: the receive waits. *)
Fixpoint drain_queue (is_closed : bool) (q : list value)
  : option (list value) :=
  match q with
  | v :: q' => if is_true v then drain_queue is_closed q' else Some q'
  | [] => if is_closed then Some [] else None
  end.

Definition drain (c : chan value) : option (chan value) :=
  q ← drain_queue (closed c) (queue c);
  Some {| cap := cap c; queue := q; closed := closed c |}.

Record relay := {
  inbox : nat;
  outbox : nat;
}.

(** The first four statements of [streamer]. *)
Definition streamer_start (b : bus) : relay * bus :=
  let '(inbox, b) := make 10 b in
  let '(outbox, b) := make 10 b in
  let b := Start "inbox" inbox b in
  let b := Start "outbox" outbox b in
  ({| inbox := inbox; outbox := outbox |}, b).

Inductive relay_outcome :=
| Looping
| Returned
| Panicked
| NotReady
| BlockedInDrain.

(** The branch taken when the writer fails. *)
Definition teardown (rl : relay) (x : hub) : relay_outcome * hub :=
  let logs := hub_logs x ++ ["stopping"] in
  let b := Stop "inbox" (inbox rl) (the_bus x) in
  let b := Stop "outbox" (outbox rl) b in
  let stuck h := (BlockedInDrain,
                  {| the_bus := {| heap := h; events := events b |};
                     conn := conn x; hub_logs := logs |}) in
  match heap b !! inbox rl with
  | None => (Panicked, x)
  | Some ci =>
      match drain ci with
      | None => stuck (heap b)
      | Some ci' =>
          let h := <[inbox rl := ci']> (heap b) in
          match h !! outbox rl with
          | None => (Panicked, x)
          | Some co =>
              match drain co with
              | None => stuck h
              | Some co' =>
                  (Returned,
                   {| the_bus := {| heap := <[outbox rl := co']> h;
                                    events := events b |};
                      conn := conn x; hub_logs := logs |})
              end
          end
      end
  end.

(** The case the [select] of [streamer] takes. *)
Inductive ready :=
| FromOutbox
| FromInbox.

(** One iteration of the loop of [streamer]. *)
Definition streamer_step (rl : relay) (t : ready) (x : hub)
  : relay_outcome * hub :=
  let ch := match t with FromOutbox => outbox rl | FromInbox => inbox rl end in
  match heap (the_bus x) !! ch with
  | None => (Panicked, x)
  | Some c =>
      match recv VNil c with
      | None => (NotReady, x)
      | Some (obj, c') =>
          let x1 := {| the_bus := {| heap := <[ch := c']> (heap (the_bus x));
                                     events := events (the_bus x) |};
                       conn := conn x; hub_logs := hub_logs x |} in
          let selected :=
            match t, obj with
            | FromOutbox, VEnvelope outmessage =>
                Some (Data (Message_ outmessage), HostString (Host_ outmessage))
            | FromInbox, VMessage inmessage => Some (Data inmessage, EmptyString)
            | _, _ => None
            end in
          match selected with
          | Some (Some data, host) =>
              let frame : gmap string string :=
                {[ "type"%string := TypeString data;
                   "dump"%string := Sdump data;
                   "host"%string := host ]} in
              let '(cn, err) := writer frame (conn x1) in
              let x2 := {| the_bus := the_bus x1; conn := cn;
                           hub_logs := hub_logs x1 |} in
              match err with
              | None => (Looping, x2)
              | Some _ => teardown rl x2
              end
          | _ => (Panicked, x1)
          end
      end
  end.

End Hub.
End Hub.

(** ** A gzip writer that stores

    An implementation of the [Gzip] interface to run the model with: the
    gzip container of RFC 1952 around stored DEFLATE blocks (RFC 1951),
    the stream a writer produces when it does not compress. *)

Module StoredGzip.
Local Open Scope Z_scope.

Definition le16 (z : Z) : list byte := [Zbyte z; Zbyte (Z.shiftr z 8)].

Definition le32 (z : Z) : list byte :=
  [Zbyte z; Zbyte (Z.shiftr z 8); Zbyte (Z.shiftr z 16); Zbyte (Z.shiftr z 24)].

Definition of_le16 (b0 b1 : byte) : Z :=
  Z.lor (byteZ b0) (Z.shiftl (byteZ b1) 8).

Definition of_le32 (b0 b1 b2 b3 : byte) : Z :=
  Z.lor (Z.lor (Z.lor (byteZ b0) (Z.shiftl (byteZ b1) 8))
               (Z.shiftl (byteZ b2) 16)) (Z.shiftl (byteZ b3) 24).

(** CRC-32 with the IEEE polynomial, one bit at a time. *)
Fixpoint crc_bits (n : nat) (c : Z) : Z :=
  match n with
  | O => c
  | S n' =>
      crc_bits n' (if Z.testbit c 0
                   then Z.lxor (Z.shiftr c 1) 0xEDB88320
                   else Z.shiftr c 1)
  end.

Definition crc_byte (c : Z) (b : byte) : Z :=
  crc_bits 8 (Z.lxor c (byteZ b)).

(** [crc32.Update(crc, IEEETable, p)]. *)
Definition crc_update (crc : Z) (p : list byte) : Z :=
  Z.lxor (fold_left crc_byte p (Z.lxor crc 0xFFFFFFFF)) 0xFFFFFFFF.

(** ID1 ID2, CM = deflate, no flags, no mtime, XFL = 0, OS = unknown. *)
Definition header : list byte :=
  [Byte.x1f; Byte.x8b; Byte.x08; Byte.x00; Byte.x00; Byte.x00; Byte.x00;
   Byte.x00; Byte.x00; Byte.xff].

(** A stored block: BFINAL and BTYPE = 00 in a byte of their own, LEN,
    its complement, and the bytes. *)
Definition stored_block (final : bool) (d : list byte) : list byte :=
  (if final then Byte.x01 else Byte.x00)
  :: le16 (Z.of_nat (length d))
  ++ le16 (Z.lnot (Z.of_nat (length d)) mod 65536)
  ++ d.

(** The data cut into blocks of at most 65535 bytes. *)
Definition max_stored : nat := Z.to_nat 65535.

Fixpoint stored_blocks (fuel : nat) (d : list byte) : list byte :=
  match fuel with
  | O => []
  | S fuel' =>
      match d with
      | [] => []
      | _ => stored_block false (take max_stored d)
             ++ stored_blocks fuel' (drop max_stored d)
      end
  end.

Record writer := {
  out : list byte;
  wroteHeader : bool;
  digest : Z;
  size : Z;
}.

Definition new_writer : writer :=
  {| out := []; wroteHeader := false; digest := 0; size := 0 |}.

Definition write (z : writer) (p : list byte) : writer :=
  {| out := (if wroteHeader z then out z else out z ++ header)
            ++ stored_blocks (length p) p;
     wroteHeader := true;
     digest := crc_update (digest z) p;
     size := (size z + Z.of_nat (length p)) mod 2 ^ 32 |}.

(** The empty stored block that ends a flush. *)
Definition flush_writer (z : writer) : writer :=
  let z := if wroteHeader z then z else write z [] in
  {| out := out z ++ stored_block false [];
     wroteHeader := true; digest := digest z; size := size z |}.

(** The final block and the trailer: CRC-32 and length modulo 2^32. *)
Definition close_writer (z : writer) : writer :=
  let z := if wroteHeader z then z else write z [] in
  {| out := out z ++ stored_block true [] ++ le32 (digest z) ++ le32 (size z);
     wroteHeader := true; digest := digest z; size := size z |}.

(** Reading stored blocks up to the final one; the result is the data
    and what follows the final block. *)
Fixpoint inflate_stored (fuel : nat) (s acc : list byte)
  : option (list byte * list byte) :=
  match fuel with
  | O => None
  | S fuel' =>
      match s with
      | hdr :: l0 :: l1 :: n0 :: n1 :: rest =>
          let n := of_le16 l0 l1 in
          let nn := of_le16 n0 n1 in
          if (Byte.eqb hdr Byte.x00 || Byte.eqb hdr Byte.x01)
             && (nn mod 65536 =? Z.lnot n mod 65536)
             && (n <=? Z.of_nat (length rest))
          then
            let acc' := acc ++ take (Z.to_nat n) rest in
            let rest' := drop (Z.to_nat n) rest in
            if Byte.eqb hdr Byte.x01 then Some (acc', rest')
            else inflate_stored fuel' rest' acc'
          else None
      | _ => None
      end
  end.

Definition read_all (s : list byte) : option (list byte) :=
  match s with
  | id1 :: id2 :: cm :: flg :: _ :: _ :: _ :: _ :: _ :: _ :: body =>
      if Byte.eqb id1 Byte.x1f && Byte.eqb id2 Byte.x8b
         && Byte.eqb cm Byte.x08 && Byte.eqb flg Byte.x00
      then
        match inflate_stored (length body) body [] with
        | Some (data, [c0; c1; c2; c3; s0; s1; s2; s3]) =>
            if (of_le32 c0 c1 c2 c3 =? crc_update 0 data)
               && (of_le32 s0 s1 s2 s3 =? Z.of_nat (length data) mod 2 ^ 32)
            then Some data else None
        | _ => None
        end
      else None
  | _ => None
  end.

End StoredGzip.

Definition stored_gzip : Gzip := {|
  Writer := StoredGzip.writer;
  NewWriter := StoredGzip.new_writer;
  Write := StoredGzip.write;
  Flush := StoredGzip.flush_writer;
  Close := StoredGzip.close_writer;
  Bytes := StoredGzip.out;
  gunzip := StoredGzip.read_all;
|}.

(** ** An environment to run the model in

    Instants are a year and a second of the hour; as in package [time],
    an instant whose year is beyond 9999 does not marshal.  No setting
    is configured. *)

Module Sample.

Definition digit (n : nat) : ascii := ascii_of_nat (48 + n mod 10).

Definition two (n : nat) : string :=
  String (digit (n / 10)) (String (digit n) EmptyString).

Definition four (n : nat) : string :=
  String (digit (n / 1000)) (String (digit (n / 100)) (two n)).

Definition clock : Clock := {|
  time := nat * nat;
  zeroTime := (1, 0);
  Format := λ t, ("/" ++ four t.1 ++ "/01/01/00/"
                  ++ two (t.2 / 60) ++ "-" ++ two (t.2 `mod` 60))%string;
|}.

#[local] Existing Instance clock.

Definition q : string := String "034"%char EmptyString.

Definition json : @Json clock := {|
  Marshal := λ r,
    if bool_decide ((@When clock r).1 ≤ 9999) then
      Some (list_byte_of_string
              ("{" ++ q ++ "When" ++ q ++ ":" ++ q
               ++ four (@When clock r).1 ++ "-01-01T00:"
               ++ two ((@When clock r).2 / 60) ++ ":"
               ++ two ((@When clock r).2 `mod` 60) ++ "Z" ++ q
               ++ "," ++ q ++ "Data_x64" ++ q ++ ":" ++ q
               ++ @Data_x64 clock r ++ q ++ "}")%string)
    else None;
|}.

Definition config : Config := {| settings := ∅ |}.

(** Two environments of an iteration, one in which the file can be
    created and one in which it cannot, a payload, and a record that does
    not marshal. *)
Definition e_ok : @env clock :=
  {| now := (2013, 61); flush_now := (2013, 62); create_err := None |}.

Definition e_denied : @env clock :=
  {| now := (2013, 61); flush_now := (2013, 62);
     create_err := Some "permission denied"%string |}.

Definition hi : list byte := [Byte.x68; Byte.x69].

Definition far_future : @LogRecord clock :=
  {| When := (10000, 0); Data_x64 := "AAAA" |}.

Definition rec1 : @LogRecord clock := @NewLogRecord clock stored_gzip (2013, 1) hi.

Definition rec2 : @LogRecord clock := @NewLogRecord clock stored_gzip (2013, 2) hi.


(** A request whose dump fails, and an inner handler that answers. *)
Definition failing_dump (r : list byte) : list byte * Adapter.dump_result :=
  (r, Adapter.DumpFailed "unexpected EOF").

Definition answering (w r : list byte) : option (list byte * list byte) :=
  Some (w ++ [Byte.x4f; Byte.x4b], []).

Definition exchange0
  : Adapter.exchange (Request := list byte) (ResponseWriter := list byte) := {|
  Adapter.w := [];
  Adapter.r := hi;
  Adapter.logger := make_chan 1024;
  Adapter.trace := [];
|}.

(** A connection whose writer always fails, an empty bus, and the
    messages published on it. *)
Definition broken_writer (frame : gmap string string)
    (c : list (gmap string string))
  : list (gmap string string) * option string :=
  (c, Some "broken pipe"%string).

Definition bus0 : Hub.bus (Payload := string) (Host := string) :=
  {| Hub.heap := []; Hub.events := ∅ |}.

Definition msg (p : string) : Hub.value (Payload := string) (Host := string) :=
  Hub.VMessage {| Hub.Data := Some p |}.

(** The relay is started, the messages [ps] are published on "inbox",
    and the relay takes the first of them to a writer that fails. *)
Definition relay_meets_broken_writer (stop_closes : bool) (ps : list string)
  : option (Hub.relay_outcome
            * Hub.hub (Payload := string) (Host := string)
                      (Conn := list (gmap string string))) :=
  let '(rl, b) := Hub.streamer_start bus0 in
  b ← foldl (λ ob p, b ← ob; Hub.Post "inbox" (msg p) b) (Some b) ps;
  Some (Hub.streamer_step (λ p, "string"%string) (λ p, p) (λ h, h)
          broken_writer stop_closes rl Hub.FromInbox
          {| Hub.the_bus := b; Hub.conn := []; Hub.hub_logs := [] |}).


(** What is left of the relay's inbox (the channel made first): how the
    step ended, the values still queued, whether the channel is closed
    and who observes "inbox". *)
Definition inbox_left
    (r : option (Hub.relay_outcome
                 * Hub.hub (Payload := string) (Host := string)
                           (Conn := list (gmap string string))))
  : option (Hub.relay_outcome
            * list (Hub.value (Payload := string) (Host := string))
            * bool * option (list nat)) :=
  '(o, x) ← r;
  c ← Hub.heap (Hub.the_bus x) !! 0;
  Some (o, queue c, closed c, Hub.events (Hub.the_bus x) !! "inbox"%string).

End Sample.

(** ** What the worker received and what it wrote *)

Section ArchiveAccounts.
Context `{Clock} `{Gzip} `{!Json} `{Config}.

(** The records the worker builds for the inbound events among the cases
    its [select] takes, up to the shutdown signal. *)
Fixpoint received (ticks : list (signal * env)) : list LogRecord :=
  match ticks with
  | [] => []
  | (Raw raw, e) :: ticks' => NewLogRecord (now e) raw :: received ticks'
  | (Flusher, _) :: ticks' => received ticks'
  | (End_, _) :: _ => []
  end.

(** All the chunks written so far, file after file. *)
Definition written (w : world) : list (list byte) :=
  concat (snd <$> files w).

End ArchiveAccounts.

(** ** The loop of the relay *)

Module Relay.
Section Relay.
Import Hub.
Context {Payload Host Conn : Type}.
Variable TypeString : Payload -> string.
Variable Sdump : Payload -> string.
Variable HostString : Host -> string.
Variable writer : gmap string string -> Conn -> Conn * option string.
Variable stop_closes : bool.

(** The [for { select { ... } ... }] of [streamer] over the cases its
    [select] takes: it goes round as long as the writer succeeds. *)
Fixpoint streamer_loop (ticks : list ready) (rl : relay) (x : hub)
  : relay_outcome * hub :=
  match ticks with
  | [] => (Looping, x)
  | t :: ticks' =>
      match streamer_step TypeString Sdump HostString writer stop_closes
                          rl t x with
      | (Looping, x') => streamer_loop ticks' rl x'
      | stopped => stopped
      end
  end.

(** [streamer]: the two channels are made and registered, then the loop
    runs. *)
Definition streamer (ticks : list ready) (x : hub)
  : relay * (relay_outcome * hub) :=
  let '(rl, b) := streamer_start (the_bus x) in
  (rl, streamer_loop ticks rl
         {| the_bus := b; conn := conn x; hub_logs := hub_logs x |}).

(** The frame made for a payload and a host text. *)
Definition frame_of (data : Payload) (host : string) : gmap string string :=
  {[ "type"%string := TypeString data;
     "dump"%string := Sdump data;
     "host"%string := host ]}.

Definition frame_in (data : Payload) : gmap string string :=
  frame_of data EmptyString.

Definition frame_out (m : Payload * Host) : gmap string string :=
  frame_of m.1 (HostString m.2).

(** The values queued for the relay when the payloads [ms] were
    published on "inbox" and the payloads with hosts [es] on "outbox". *)
Definition inbox_values (ms : list Payload)
  : list (value (Payload := Payload) (Host := Host)) :=
  (λ d, VMessage {| Data := Some d |}) <$> ms.

Definition outbox_values (es : list (Payload * Host))
  : list (value (Payload := Payload) (Host := Host)) :=
  (λ m, VEnvelope {| Message_ := {| Data := Some m.1 |}; Host_ := m.2 |}) <$> es.

(** The relay [rl] has these values, and nothing else, queued in its two
    channels. *)
Definition relay_sees (rl : relay)
    (b : bus (Payload := Payload) (Host := Host))
    (ms : list Payload) (es : list (Payload * Host)) : Prop :=
  inbox rl ≠ outbox rl
  ∧ (∃ ci, heap b !! inbox rl = Some ci ∧ queue ci = inbox_values ms)
  ∧ (∃ co, heap b !! outbox rl = Some co ∧ queue co = outbox_values es).

End Relay.

(** Two sequences merged in the order the cases are taken: each case
    takes the oldest element of its own sequence. *)
Fixpoint weave {A} (ticks : list Hub.ready) (ins outs : list A) : list A :=
  match ticks, ins, outs with
  | Hub.FromInbox :: ticks', a :: ins', _ => a :: weave ticks' ins' outs
  | Hub.FromOutbox :: ticks', _, a :: outs' => a :: weave ticks' ins outs'
  | _, _, _ => []
  end.

(** How many times each case is taken. *)
Fixpoint count_in (ticks : list Hub.ready) : nat :=
  match ticks with
  | [] => 0
  | Hub.FromInbox :: ticks' => S (count_in ticks')
  | Hub.FromOutbox :: ticks' => count_in ticks'
  end.

Fixpoint count_out (ticks : list Hub.ready) : nat :=
  match ticks with
  | [] => 0
  | Hub.FromInbox :: ticks' => count_out ticks'
  | Hub.FromOutbox :: ticks' => S (count_out ticks')
  end.

(** A writer that never fails and keeps the frames it is given. *)
Definition recording (frame : gmap string string)
    (c : list (gmap string string))
  : list (gmap string string) * option string :=
  (c ++ [frame], None).

End Relay.

(** ** net/http, as far as the handlers use it *)

Module Web.

(** A response writer: the status line, once it has been sent, and the
    body written so far.  (Header fields are left out: no handler reads
    them back.) *)
Record ResponseWriter := {
  status : option nat;
  body : string;
}.

Definition fresh : ResponseWriter := {| status := None; body := EmptyString |}.

Definition nl : string := String "010"%char EmptyString.

(** [w.WriteHeader(code)]: only the first call sets the status. *)
Definition WriteHeader (code : nat) (w : ResponseWriter) : ResponseWriter :=
  match status w with
  | Some _ => w
  | None => {| status := Some code; body := body w |}
  end.

(** [w.Write(p)]: sends status 200 first if none was sent. *)
Definition Write (p : string) (w : ResponseWriter) : ResponseWriter :=
  let w := WriteHeader 200 w in
  {| status := status w; body := (body w ++ p)%string |}.

(** [http.Error(w, msg, code)]. *)
Definition Error (msg : string) (code : nat) (w : ResponseWriter)
  : ResponseWriter :=
  Write (msg ++ nl) (WriteHeader code w).

Definition StatusBadRequest : nat := 400.
Definition StatusNotFound : nat := 404.
Definition StatusMethodNotAllowed : nat := 405.
Definition StatusInternalServerError : nat := 500.

(** [url.Values.Get]: the first value of the key, or the empty string. *)
Definition Get (form : gmap string (list string)) (key : string) : string :=
  match form !! key with
  | Some (v :: _) => v
  | _ => EmptyString
  end.

(** ** strconv *)

Local Open Scope Z_scope.

Inductive num_err :=
| ErrSyntax
| ErrRange.

(** The value of a digit character, letters included, as [ParseUint]
    reads it. *)
Definition digit_value (d : ascii) : option Z :=
  let c := Z.of_nat (nat_of_ascii d) in
  if (48 <=? c) && (c <=? 57) then Some (c - 48)
  else if (97 <=? c) && (c <=? 122) then Some (c - 97 + 10)
  else if (65 <=? c) && (c <=? 90) then Some (c - 65 + 10)
  else None.

(** The loop of [strconv.ParseUint] over the characters, with the
    unsigned 64-bit arithmetic written out. *)
Fixpoint ParseUint_loop (base cutoff maxVal : Z) (s : list ascii) (n : Z)
  : Z * option num_err :=
  match s with
  | [] => (n, None)
  | d :: s' =>
      match digit_value d with
      | None => (0, Some ErrSyntax)
      | Some v =>
          if base <=? v then (0, Some ErrSyntax)
          else if cutoff <=? n then (2 ^ 64 - 1, Some ErrRange)
          else
            let n := (n * base) mod 2 ^ 64 in
            let n1 := (n + v) mod 2 ^ 64 in
            if (n1 <? n) || (maxVal <? n1) then (2 ^ 64 - 1, Some ErrRange)
            else ParseUint_loop base cutoff maxVal s' n1
      end
  end.

(** [strconv.ParseUint(s, base, bitSize)] for a base from 2 to 36. *)
Definition ParseUint (s : string) (base bitSize : Z) : Z * option num_err :=
  match list_ascii_of_string s with
  | [] => (0, Some ErrSyntax)
  | cs => ParseUint_loop base ((2 ^ 64 - 1) / base + 1) (2 ^ bitSize - 1) cs 0
  end.

(** [strconv.ParseInt(s, base, bitSize)]. *)
Definition ParseInt (s : string) (base bitSize : Z) : Z * option num_err :=
  match s with
  | EmptyString => (0, Some ErrSyntax)
  | String c s' =>
      let neg := Ascii.eqb c "-"%char in
      let digits := if Ascii.eqb c "+"%char || neg then s' else s in
      let '(un, err) := ParseUint digits base bitSize in
      match err with
      | Some ErrSyntax => (0, Some ErrSyntax)
      | _ =>
          let cutoff := 2 ^ (bitSize - 1) in
          if negb neg && (cutoff <=? un) then (cutoff - 1, Some ErrRange)
          else if neg && (cutoff <? un) then (- cutoff, Some ErrRange)
          else (if neg then - un else un, None)
      end
  end.

Local Close Scope Z_scope.

End Web.

(** ** The request handlers *)

Module Handlers.
Import Web.

(** A value decoded from JSON into an [interface{}]: nil, a bool, a
    float64, a string, or something else (an array, an object). *)
Inductive jvalue (F : Type) :=
| JNull
| JBool (b : bool)
| JNumber (f : F)
| JString (s : string)
| JOther.
Arguments JNull {F}.
Arguments JBool {F} _.
Arguments JNumber {F} _.
Arguments JString {F} _.
Arguments JOther {F}.

(** [index.Y], [index.YM], [index.YMD], [index.YMDH]. *)
Inductive quantum :=
| Y
| YM
| YMD
| YMDH.

(** What the handlers take from outside [core]: data types and pure
    functions of the libraries and of the other packages. *)
Class Externals := {
  float64 : Type;
  to_uint64 : float64 -> Z;
  to_int : float64 -> Z;
  Body : Type;
  decode_message : Body -> option string;
  decode_args : Body -> list (gmap string (jvalue float64)) + string;
  Pair : Type;
  opaque : Type;
  instant : Type;
  time_Parse : string -> string -> instant;
  GetTimeIds : Z -> instant -> quantum -> list Z;
  GUID : Type;
  ParseGUID : string -> GUID + string;
  duration : Type;
  GetString : string -> string;
  Sprintf0 : string -> string;
  Sdump_form : gmap string (list string) -> string;
  Sdump_error : string -> string;
  encode_duration : duration -> string;
  page_listen : string;
  page_status : string;
}.

Section Handlers.
Context `{Externals}.

(** The values the service hands back as [interface{}]. *)
Inductive value :=
| VNil
| VPairs (ps : list Pair)
| VBytes (b : list byte)
| VInts (l : list Z)
| VString (s : string)
| VInt (n : Z)
| VOther (o : opaque).

(** The calls a handler makes on the service and on the other packages,
    in the order it makes them. *)
Inductive call :=
| CRunPQL (db pql : string)
| CSendTimer (name : string)
| CBatch (db frame bitmap : string) (id slice filter : Z)
| CPush (data : value)
| CGetMetadata
| CGetProcess (id : GUID)
| CPing (id : GUID)
| CReadMemStats.

(** The service: what each call returns, given the calls made before
    it, and how its values are rendered. *)
Class Service := {
  RunPQL : list call -> string -> string -> value * option string;
  Batch : list call -> string -> string -> string -> Z -> Z -> Z -> value;
  GetMetadata : list call -> value;
  GetProcess : list call -> GUID -> option string;
  Ping : list call -> GUID -> duration + string;
  ReadMemStats : list call -> value;
  Cluster : value;
  version : string;
  Marshal : value -> string + string;
  MarshalList : list value -> string + string;
  Sdump_value : value -> string;
  bits_of : list byte -> option value;
}.
Context `{Service}.

Record Request := {
  Method : string;
  form_err : option string;
  Form : gmap string (list string);
  body_ : Body;
}.

Record world := {
  resp : ResponseWriter;
  log : list string;
  stdout : list string;
  calls : list call;
}.

(** How a handler ends: it returns, it panics (the server recovers and
    drops the connection), a goroutine it started panics (the process
    dies), or it calls [log.Fatal] (the process exits). *)
Inductive outcome :=
| Done
| Panic
| Crash
| Exit.

Definition respond (f : ResponseWriter -> ResponseWriter) (x : world) : world :=
  {| resp := f (resp x); log := log x; stdout := stdout x; calls := calls x |}.

Definition Println (msg : string) (x : world) : world :=
  {| resp := resp x; log := log x ++ [msg]; stdout := stdout x;
     calls := calls x |}.

Definition Dump (msg : string) (x : world) : world :=
  {| resp := resp x; log := log x; stdout := stdout x ++ [msg];
     calls := calls x |}.

Definition called (c : call) (x : world) : world :=
  {| resp := resp x; log := log x; stdout := stdout x;
     calls := calls x ++ [c] |}.

(** [json.NewEncoder(w).Encode(v)] for a value already marshalled (or
    not): the text and a newline are written, or the error is returned
    and nothing is written. *)
Definition Encode (m : string + string) (x : world) : world * option string :=
  match m with
  | inl text => (respond (Write (text ++ nl)) x, None)
  | inr err => (x, Some err)
  end.

(** [HandleMessage]. *)
Definition HandleMessage (r : Request) (x : world) : outcome * world :=
  if negb (String.eqb (Method r) "POST") then
    (Done, respond (Error "Only POST allowed" StatusMethodNotAllowed) x)
  else
    match decode_message (body_ r) with
    | Some _ => (Done, respond (Error "Invalid JSON" StatusBadRequest) x)
    | None => (Done, x)
    end.

(** [HandleBatch]. *)
Definition HandleBatch (r : Request) (x : world) : outcome * world :=
  if negb (String.eqb (Method r) "POST") then
    (Done, respond (Error "Only POST allowed" StatusMethodNotAllowed) x)
  else
    match form_err r with
    | Some err => (Done, respond (Error err StatusBadRequest) x)
    | None =>
        let database_name := Get (Form r) "db" in
        if String.eqb database_name EmptyString then
          (Done, respond (Error "Provide a database (db)" StatusNotFound) x)
        else
          let bitmap_id_string := Get (Form r) "id" in
          if String.eqb bitmap_id_string EmptyString then
            (Done, respond (Error "Provide a bitmap id (id)" StatusNotFound) x)
          else
            let bitmap_id := (ParseUint bitmap_id_string 10 64).1 in
            let slice_string := Get (Form r) "slice" in
            if String.eqb bitmap_id_string EmptyString then
              (Done, respond (Error "Provide a slice (slice)" StatusNotFound) x)
            else
              let slice := (ParseInt slice_string 10 32).1 in
              let frame := Get (Form r) "frame" in
              if String.eqb bitmap_id_string EmptyString then
                (Done,
                 respond (Error "Provide a frame (frame)" StatusNotFound) x)
              else
                let compressed_bitmap := Get (Form r) "bitmap" in
                if String.eqb bitmap_id_string EmptyString then
                  (Done,
                   respond (Error "Provide a compressed base64 bitmap (bitmap)"
                                  StatusNotFound) x)
                else
                  let filter_string := Get (Form r) "filter" in
                  let filter := (ParseInt filter_string 10 32).1 in
                  if String.eqb bitmap_id_string EmptyString then
                    (Done,
                     respond (Error "Provide a filter for categories"
                                    StatusNotFound) x)
                  else
                    let results :=
                      Batch (calls x) database_name frame compressed_bitmap
                            bitmap_id slice (filter `mod` 2 ^ 64)%Z in
                    let x :=
                      called (CBatch database_name frame compressed_bitmap
                                     bitmap_id slice (filter `mod` 2 ^ 64)%Z) x in
                    match Encode (Marshal results) x with
                    | (x, None) => (Done, x)
                    | (x, Some _) =>
                        let x := Println "Error Batch results" x in
                        let x := Println (Sdump_form (Form r)) x in
                        (Done,
                         (Encode (inl (String "034" ("Bad Batch Request"
                                         ++ String "034" EmptyString))) x).1)
                    end
    end.

(** [HandleQuery]. *)
Definition HandleQuery (r : Request) (x : world) : outcome * world :=
  if negb (String.eqb (Method r) "POST") then
    (Done, respond (Error "Only POST allowed" StatusMethodNotAllowed) x)
  else
    match form_err r with
    | Some err => (Done, respond (Error err StatusBadRequest) x)
    | None =>
        let database_name := Get (Form r) "db" in
        let database_name :=
          if String.eqb database_name EmptyString
          then GetString "default_db" else database_name in
        if String.eqb database_name EmptyString then
          (Done, respond (Error "Provide a database (db)" StatusNotFound) x)
        else
          let pql := Get (Form r) "pql" in
          if String.eqb pql EmptyString then
            (Done,
             respond (Error "Provide a valid query string (pql)" StatusNotFound) x)
          else
            let bits := bool_decide (is_Some (Form r !! "bits"%string)) in
            let '(results, err) := RunPQL (calls x) database_name pql in
            let x := called (CRunPQL database_name pql) x in
            let converted :=
              match results with
              | VPairs [] => Some (VInts [])
              | VBytes b => if bits then bits_of b else Some results
              | _ => Some results
              end in
            match converted with
            | None => (Panic, x)
            | Some results =>
                let x := match results with
                         | VNil => Println "Empty results" x
                         | _ => x
                         end in
                let x := match err with
                         | Some e =>
                             respond (Error ("Error running query: " ++ e)
                                            StatusInternalServerError) x
                         | None => x
                         end in
                match Encode (Marshal results) x with
                | (x, None) => (Done, x)
                | (x, Some e) =>
                    (Done,
                     respond (Error ("Error encoding: " ++ e)
                                    StatusInternalServerError) x)
                end
            end
    end.

(** [strings.HasSuffix] and [strings.Contains]. *)
Definition HasSuffix (s suffix : string) : bool :=
  let n := String.length s in
  let m := String.length suffix in
  bool_decide (m ≤ n) && String.eqb (substring (n - m) m s) suffix.

Definition Contains (s substr : string) : bool :=
  bool_decide (is_Some (index 0 substr s)).

Definition is_nil (v : option (jvalue float64)) : bool :=
  match v with
  | None | Some JNull => true
  | _ => false
  end.

(** [bitmaps]: the ids the goroutine sends before it closes the channel.
    [None]: the goroutine panics on a type assertion. *)
Definition bitmaps (frame : string) (obj : gmap string (jvalue float64))
  : option (list Z) :=
  match obj !! "bitmap_id"%string with
  | Some (JNumber t) =>
      let base_id := to_uint64 t in
      if HasSuffix frame ".t" then
        match obj !! "timestamp"%string with
        | Some (JString timestamp) =>
            if String.eqb timestamp "2014-01-01 00:00:00" then Some [base_id]
            else
              let quantum :=
                match obj !! "time_granulatrity"%string with
                | Some (JString "Y") => Y
                | Some (JString "M") => YM
                | Some (JString "D") => YMD
                | _ => YMDH
                end in
              let shortForm :=
                if Contains timestamp "T" then "2006-01-02T15:04:05"%string
                else "2006-01-02 15:04:05"%string in
              let atime := time_Parse shortForm timestamp in
              Some (GetTimeIds base_id atime quantum)
        | _ => None
        end
      else Some [base_id]
  | _ => None
  end.

(** The inner loop of [HandleSetBit] over the ids of one object; the
    result is the list of results so far, or how the handler ended. *)
Fixpoint set_ids (db frame : string) (filter profile_id : Z) (ids : list Z)
    (results : list value) (x : world)
  : (list value * world) + (outcome * world) :=
  match ids with
  | [] => inl (results, x)
  | bitmap_id :: ids' =>
      let pql := ("set(" ++ pretty bitmap_id ++ ", " ++ frame ++ ", "
                  ++ pretty filter ++ ", " ++ pretty profile_id ++ ")")%string in
      let '(result, err) := RunPQL (calls x) db pql in
      let x := called (CRunPQL db pql) x in
      let x := called (CSendTimer "executor_setbit") x in
      match err with
      | Some e =>
          inr (Done, respond (Error e StatusInternalServerError) x)
      | None => set_ids db frame filter profile_id ids' (results ++ [result]) x
      end
  end.

(** The outer loop of [HandleSetBit].  Where a field is missing the
    source calls [err.Error()] on the nil error left by the decoder, which
    panics before anything is written. *)
Fixpoint set_objects (args : list (gmap string (jvalue float64)))
    (results : list value) (x : world)
  : (list value * world) + (outcome * world) :=
  match args with
  | [] => inl (results, x)
  | obj :: args' =>
      if is_nil (obj !! "profile_id"%string) then inr (Panic, x) else
      match obj !! "profile_id"%string with
      | Some (JNumber t) =>
          let profile_id := to_uint64 t in
          if is_nil (obj !! "db"%string) then inr (Panic, x) else
          match obj !! "db"%string with
          | Some (JString db) =>
              if is_nil (obj !! "frame"%string) then inr (Panic, x) else
              match obj !! "frame"%string with
              | Some (JString frame) =>
                  if is_nil (obj !! "filter"%string) then inr (Panic, x) else
                  match obj !! "filter"%string with
                  | Some (JNumber t) =>
                      let filter := to_int t in
                      match bitmaps frame obj with
                      | None => inr (Crash, x)
                      | Some ids =>
                          match set_ids db frame filter profile_id ids
                                        results x with
                          | inl (results, x) => set_objects args' results x
                          | inr stopped => inr stopped
                          end
                      end
                  | _ => inr (Panic, x)
                  end
              | _ => inr (Panic, x)
              end
          | _ => inr (Panic, x)
          end
      | _ => inr (Panic, x)
      end
  end.

(** [HandleSetBit]. *)
Definition HandleSetBit (r : Request) (x : world) : outcome * world :=
  if negb (String.eqb (Method r) "POST") then
    (Done, respond (Error "Only POST allowed" StatusMethodNotAllowed) x)
  else
    match decode_args (body_ r) with
    | inr err => (Done, respond (Error err StatusBadRequest) x)
    | inl args =>
        match set_objects args [] x with
        | inr stopped => stopped
        | inl (results, x) =>
            match Encode (MarshalList results) x with
            | (x, None) => (Done, x)
            | (x, Some _) => (Exit, Println "Error encoding stats" x)
            end
        end
    end.

(** [HandleStats]. *)
Definition HandleStats (r : Request) (x : world) : outcome * world :=
  if negb (String.eqb (Method r) "GET") then
    (Done, respond (Error "Only GET allowed" StatusMethodNotAllowed) x)
  else
    let m := ReadMemStats (calls x) in
    let x := called CReadMemStats x in
    match Encode (Marshal m) x with
    | (x, None) => (Done, x)
    | (x, Some _) => (Exit, Println "Error encoding stats" x)
    end.

(** [HandleInfo]. *)
Definition HandleInfo (r : Request) (x : world) : outcome * world :=
  if negb (String.eqb (Method r) "GET") then
    (Done, respond (Error "Only GET allowed" StatusMethodNotAllowed) x)
  else (Done, respond (Write (Sdump_value Cluster)) x).

(** [HandleVersion]. *)
Definition HandleVersion (r : Request) (x : world) : outcome * world :=
  if negb (String.eqb (Method r) "GET") then
    (Done, respond (Error "Only GET allowed" StatusMethodNotAllowed) x)
  else
    (Done, respond (Write (Sprintf0 ("Pilosa v.(" ++ version ++ ")" ++ nl))) x).

(** [HandleTest]. *)
Definition HandleTest (r : Request) (x : world) : outcome * world :=
  if negb (String.eqb (Method r) "GET") then
    (Done, respond (Error "Only GET allowed" StatusMethodNotAllowed) x)
  else
    let x := Dump (Sdump_value (VString "TEST!")) x in
    let x := called (CPush (VString "mystring")) x in
    let x := called (CPush (VInt 789)) x in
    (Done, x).

(** [HandleProcesses]. *)
Definition HandleProcesses (r : Request) (x : world) : outcome * world :=
  if negb (String.eqb (Method r) "GET") then
    (Done, respond (Error "Only GET allowed" StatusMethodNotAllowed) x)
  else
    let processes := GetMetadata (calls x) in
    let x := called CGetMetadata x in
    match Encode (Marshal processes) x with
    | (x, None) => (Done, x)
    | (x, Some _) => (Done, respond (Error "Error Encoding" StatusBadRequest) x)
    end.

(** [HandlePing]. *)
Definition HandlePing (r : Request) (x : world) : outcome * world :=
  if negb (String.eqb (Method r) "GET") then
    (Done, respond (Error "Only GET allowed" StatusMethodNotAllowed) x)
  else
    match form_err r with
    | Some err => (Done, respond (Error err StatusBadRequest) x)
    | None =>
        let process_string := Get (Form r) "process" in
        match ParseGUID process_string with
        | inr err => (Done, respond (Error err StatusBadRequest) x)
        | inl process_id =>
            let err := GetProcess (calls x) process_id in
            let x := called (CGetProcess process_id) x in
            match err with
            | Some err => (Done, respond (Error err StatusNotFound) x)
            | None =>
                let res := Ping (calls x) process_id in
                let x := called (CPing process_id) x in
                match res with
                | inr err => (Done, respond (Write (Sdump_error err)) x)
                | inl d => (Done, respond (Write (encode_duration d ++ nl)) x)
                end
            end
        end
    end.

(** [HandleListen] and [HandleStatus] write their page, whatever the
    method. *)
Definition HandleListen (r : Request) (x : world) : outcome * world :=
  (Done, respond (Write page_listen) x).

Definition HandleStatus (r : Request) (x : world) : outcome * world :=
  (Done, respond (Write page_status) x).

(** ** What a well-formed request asks for *)

(** An object of a set-bits request that lacks one of the four fields the
    handler tests for nil. *)
Definition lacks_field (obj : gmap string (jvalue float64)) : bool :=
  is_nil (obj !! "profile_id"%string) || is_nil (obj !! "db"%string)
  || is_nil (obj !! "frame"%string) || is_nil (obj !! "filter"%string).



End Handlers.
End Handlers.

(** ** The server: the worker, its channel and the routes that reach them *)

Module Server.
Section Server.
Context `{Clock} `{Gzip} `{!Json} `{Config}.
Context {Request ResponseWriter : Type}.

(** [httputil.DumpRequest], the handler of "/set_bits", and the values of
    [config.GetIntDefault("log_set_bit_request", 0)] and
    [config.GetString("id")]. *)
Variable DumpRequest : Request -> Request * Adapter.dump_result.
Variable HandleSetBit :
  ResponseWriter -> Request -> option (ResponseWriter * Request).
Variable log_set_bit : Z.
Variable id : string.

(** What [Run] sets up and the goroutines share: the channel of dumps,
    the worker [Logger] with the files and log lines it has produced.
    The channels [flusher] and [end] have no buffer, so a send on them
    and the worker's receive happen together; they carry no state. *)
Record server := {
  logger_chan : chan (list byte);
  worker : outcome;
  disk : world;
}.

(** [Run], up to [ListenAndServe]: [make(chan []byte, 1024)] and
    [go Logger(logger_chan, self.end, id, flusher)]. *)
Definition Run : server :=
  {| logger_chan := make_chan 1024;
     worker := Running Logger_init;
     disk := {| files := []; logs := [] |} |}.

(** The worker takes the case [s] of its [select]; [None] when there is
    no worker at the [select] any more. *)
Definition serve (s : signal) (e : env) (srv : server) : option server :=
  match worker srv with
  | Running st =>
      let '(o, d) := Logger_step id s e st (disk srv) in
      Some {| logger_chan := logger_chan srv; worker := o; disk := d |}
  | _ => None
  end.

(** The route "/set_bits": [NewRequestLogger(self.HandleSetBit,
    logger_chan)] when the setting is 1, the bare handler otherwise.
    [None]: the request does not come to its end. *)
Definition set_bits (w : ResponseWriter) (r : Request) (srv : server)
  : option server :=
  if (log_set_bit =? 1)%Z then
    match Adapter.Handle DumpRequest HandleSetBit
            {| Adapter.w := w; Adapter.r := r;
               Adapter.logger := logger_chan srv; Adapter.trace := [] |} with
    | Adapter.Handled x' =>
        Some {| logger_chan := Adapter.logger x'; worker := worker srv;
                disk := disk srv |}
    | _ => None
    end
  else
    match HandleSetBit w r with
    | Some _ => Some srv
    | None => None
    end.

(** The case [raw := <-in] of the worker: the oldest dump leaves the
    channel. *)
Definition take_in (e : env) (srv : server) : option server :=
  match recv [] (logger_chan srv) with
  | Some (raw, ch) =>
      serve (Raw raw) e
        {| logger_chan := ch; worker := worker srv; disk := disk srv |}
  | None => None
  end.

(** [Flusher.Handle], the handler of "/flush": [self.flusher <- true]. *)
Definition Flusher_Handle (e : env) (srv : server) : option server :=
  serve Flusher e srv.

(** [Shutdown]: [self.end <- true]. *)
Definition Shutdown (e : env) (srv : server) : option server :=
  serve End_ e srv.

(** What happens on the server, one after the other.  The environment
    is that of the worker's iteration. *)
Inductive action :=
| SetBits (w : ResponseWriter) (r : Request)
| Flush (e : env)
| Stop (e : env)
| TakeIn (e : env).

Definition step (a : action) (srv : server) : option server :=
  match a with
  | SetBits w r => set_bits w r srv
  | Flush e => Flusher_Handle e srv
  | Stop e => Shutdown e srv
  | TakeIn e => take_in e srv
  end.

(** A sequence of actions, each one carried through; [None] when one of
    them cannot be. *)
Fixpoint run (acts : list action) (srv : server) : option server :=
  match acts with
  | [] => Some srv
  | a :: acts' =>
      match step a srv with
      | Some srv' => run acts' srv'
      | None => None
      end
  end.

(** The dump of a request, as [RequestLogger.Handle] sends it. *)
Definition dump_of (r : Request) : list byte :=
  match (DumpRequest r).2 with
  | Adapter.Dumped d => d
  | Adapter.DumpFailed _ => []
  end.

(** The dumps sent on the channel in the course of the actions. *)
Definition sent (acts : list action) : list (list byte) :=
  if (log_set_bit =? 1)%Z then
    flat_map (λ a, match a with SetBits _ r => [dump_of r] | _ => [] end) acts
  else [].

(** The chunks in the files, followed by those of the records the worker
    holds. *)
Definition archived (srv : server) : list (list byte) :=
  written (disk srv)
  ++ match worker srv with
     | Running st => lines_of (held st)
     | _ => []
     end.

(** No file creation fails in the iteration the action starts. *)
Definition creates (a : action) : bool :=
  match a with
  | SetBits _ _ => true
  | Flush e | Stop e | TakeIn e => bool_decide (create_err e = None)
  end.

(** What holds of the server between two actions: the channel is the
    one [Run] made, never closed, and the worker is within its buffer. *)
Definition server_ok (srv : server) : Prop :=
  cap (logger_chan srv) = 1024
  ∧ closed (logger_chan srv) = false
  ∧ length (queue (logger_chan srv)) ≤ 1024
  ∧ match worker srv with
    | Running st => buffer_ok st
    | Returned => True
    | Panicked => False
    end.

Definition is_SetBits (a : action) : bool :=
  match a with
  | SetBits _ _ => true
  | _ => false
  end.

End Server.
End Server.

(** ** The two streaming handlers *)

Module Listen.
Import Hub.
Section Listen.
Context {Payload Host Conn : Type}.
Variable TypeString : Payload -> string.
Variable Sdump : Payload -> string.
Variable HostString : Host -> string.
Variable stop_closes : bool.

(** [spew.Sdump] of what [recover] returns: nil ([false]) or the value
    of a panic ([true]). *)
Variable Sdump_recovered : bool -> string.

Record world := {
  the_hub : hub (Payload := Payload) (Host := Host) (Conn := Conn);
  resp : Web.ResponseWriter;
  stdout : list string;
}.

(** What goes on while a relay runs: its [select] takes a case, or
    another goroutine publishes with [notify.Post]. *)
Inductive act :=
| Relay (t : ready)
| Publish (event : string) (v : value (Payload := Payload) (Host := Host)).

(** The loop of [streamer] among the publishers.  [None]: the sequence
    cannot go this way (a case that is not ready, a publisher waiting on a
    full channel). *)
Fixpoint listen_loop (writer : gmap string string -> Conn -> Conn * option string)
    (acts : list act) (rl : relay) (x : hub)
  : option (relay_outcome * hub) :=
  match acts with
  | [] => Some (Looping, x)
  | Publish event v :: acts' =>
      match Post event v (the_bus x) with
      | Some b =>
          listen_loop writer acts' rl
            {| the_bus := b; conn := conn x; hub_logs := hub_logs x |}
      | None => None
      end
  | Relay t :: acts' =>
      match streamer_step TypeString Sdump HostString writer stop_closes
                          rl t x with
      | (Looping, x') => listen_loop writer acts' rl x'
      | (NotReady, _) => None
      | stopped => Some stopped
      end
  end.

(** [streamer] among the publishers. *)
Definition streamer (writer : gmap string string -> Conn -> Conn * option string)
    (acts : list act) (x : hub) : relay * option (relay_outcome * hub) :=
  let '(rl, b) := streamer_start (the_bus x) in
  (rl, listen_loop writer acts rl
         {| the_bus := b; conn := conn x; hub_logs := hub_logs x |}).

(** How far a handler has come. *)
Inductive progress :=
| Ended
| Serving.

(** The deferred function of both handlers: [recover], then [spew.Dump]
    of what it returned. *)
Definition deferred (panicked : bool) (x : world) : world :=
  {| the_hub := the_hub x; resp := resp x;
     stdout := stdout x ++ [Sdump_recovered panicked] |}.

(** The call of [streamer] under the deferred function: a relay that
    returns or panics ends the handler. *)
Definition relay_under_recover
    (writer : gmap string string -> Conn -> Conn * option string)
    (acts : list act) (x : world) : option (relay * progress * world) :=
  let '(rl, res) := streamer writer acts (the_hub x) in
  match res with
  | None => None
  | Some (o, h) =>
      let x' := {| the_hub := h; resp := resp x; stdout := stdout x |} in
      match o with
      | Returned => Some (rl, Ended, deferred false x')
      | Panicked => Some (rl, Ended, deferred true x')
      | _ => Some (rl, Serving, x')
      end
  end.

(** [websocket.Upgrade(w, r, nil, 1024, 1024)]: the connection, with its
    [WriteJSON], a handshake error, or another error. *)
Inductive upgrade :=
| Upgraded (WriteJSON : gmap string string -> Conn -> Conn * option string)
| HandshakeError
| OtherError (err : string).

(** [HandleListenWS].  Without a connection no relay is started. *)
Definition HandleListenWS (up : upgrade) (acts : list act) (x : world)
  : option (option relay * progress * world) :=
  match up with
  | HandshakeError =>
      Some (None, Ended,
            deferred false
              {| the_hub := the_hub x;
                 resp := Web.Error "Not a websocket handshake" 400 (resp x);
                 stdout := stdout x |})
  | OtherError err =>
      Some (None, Ended,
            deferred false
              {| the_hub := {| the_bus := the_bus (the_hub x);
                               conn := conn (the_hub x);
                               hub_logs := hub_logs (the_hub x) ++ [err] |};
                 resp := resp x; stdout := stdout x |})
  | Upgraded WriteJSON =>
      match relay_under_recover WriteJSON acts x with
      | Some (rl, p, x') => Some (Some rl, p, x')
      | None => None
      end
  end.

(** [HandleListenStream]: [Encode] is [writer.Encode(data)] followed by
    [flusher.Flush()]; the type assertion [w.(http.Flusher)] panics when
    the writer is no flusher, before any relay is started. *)
Definition HandleListenStream (is_flusher : bool)
    (Encode : gmap string string -> Conn -> Conn * option string)
    (acts : list act) (x : world)
  : option (option relay * progress * world) :=
  if is_flusher then
    match relay_under_recover Encode acts x with
    | Some (rl, p, x') => Some (Some rl, p, x')
    | None => None
    end
  else Some (None, Ended, deferred true x).

(** Publishers calling [notify.Post] one after the other; [None] when
    one of them waits on a full channel. *)
Fixpoint post_many (event : string)
    (vs : list (value (Payload := Payload) (Host := Host))) (b : bus)
  : option bus :=
  match vs with
  | [] => Some b
  | v :: vs' =>
      match Post event v b with
      | Some b' => post_many event vs' b'
      | None => None
      end
  end.

(** The channel [ch] observes [event]. *)
Definition observes (b : bus (Payload := Payload) (Host := Host))
    (event : string) (ch : nat) : Prop :=
  ∃ l, events b !! event = Some l ∧ ch ∈ l.

End Listen.

(** A channel after publishers were served: the same capacity, at least
    [n] more values queued, and still within its capacity. *)
Definition grown {A} (n : nat) (c c' : chan A) : Prop :=
  cap c' = cap c
  ∧ length (queue c) + n ≤ length (queue c')
  ∧ (length (queue c) ≤ cap c → length (queue c') ≤ cap c').

End Listen.

(** ** Sample services to run the handlers with *)

Module SampleWeb.
Import Web Handlers.

Definition externals : Externals := {|
  float64 := Z;
  to_uint64 := λ f, (f `mod` 2 ^ 64)%Z;
  to_int := λ f, f;
  Body := list (gmap string (jvalue Z)) + string;
  decode_message := λ b, match b with inl _ => None | inr e => Some e end;
  decode_args := λ b, b;
  Pair := unit;
  opaque := unit;
  instant := string;
  time_Parse := λ _ s, s;
  GetTimeIds := λ b _ _, [b];
  GUID := string;
  ParseGUID := λ s, if String.eqb s EmptyString then inr "empty guid"%string
                    else inl s;
  duration := Z;
  GetString := λ key, if String.eqb key "default_db" then "main"%string
                      else EmptyString;
  Sprintf0 := λ s, s;
  Sdump_form := λ _, "(url.Values)"%string;
  Sdump_error := λ e, e;
  encode_duration := λ d, ("{" ++ Sample.q ++ "duration" ++ Sample.q ++ ":"
                           ++ pretty d ++ "}")%string;
  page_listen := "listen"%string;
  page_status := "status"%string;
|}.

#[local] Existing Instance externals.

(** An executor that refuses the query "fail()" and otherwise answers
    with the number of calls made so far; a process map that knows "p1"
    and whose metadata does not marshal. *)
Definition service : Service := {|
  RunPQL := λ h db pql,
    if String.eqb pql "fail()" then (VNil, Some "syntax error"%string)
    else (VInt (Z.of_nat (length h)), None);
  Batch := λ h db frame bitmap id slice filter, VString "ok";
  GetMetadata := λ h, VOther ();
  GetProcess := λ h id,
    if String.eqb id "p1" then None else Some "no such process"%string;
  Ping := λ h id, inl 5%Z;
  ReadMemStats := λ h, VOther ();
  Cluster := VNil;
  version := "0.1"%string;
  Marshal := λ v,
    match v with
    | VOther _ => inr "unsupported type"%string
    | VNil => inl "null"%string
    | VInt n => inl (pretty n)
    | _ => inl "[]"%string
    end;
  MarshalList := λ l, inl ("[" ++ pretty (length l) ++ " results]")%string;
  Sdump_value := λ _, "(dump)"%string;
  bits_of := λ _, None;
|}.

#[local] Existing Instance service.

Definition x0 : world :=
  {| resp := fresh; log := []; stdout := []; calls := [] |}.

Definition post (form : gmap string (list string)) : Request :=
  {| Method := "POST"; form_err := None; Form := form; body_ := inl [] |}.

Definition get (form : gmap string (list string)) : Request :=
  {| Method := "GET"; form_err := None; Form := form; body_ := inl [] |}.

Definition set_bits (args : list (gmap string (jvalue Z))) : Request :=
  {| Method := "POST"; form_err := None; Form := ∅; body_ := inl args |}.

(** A batch request that gives only "db", "id" and a negative filter. *)
Definition batch_request : Request :=
  post {[ "db"%string := ["3"%string]; "id"%string := ["7"%string];
          "filter"%string := ["-1"%string] ]}.


(** Two objects as in the comment above [bitmaps], and one that lacks
    "profile_id". *)
Definition obj1 : gmap string (jvalue Z) :=
  {[ "db"%string := JString "3"; "frame"%string := JString "b.n";
     "profile_id"%string := JNumber 122%Z; "filter"%string := JNumber 0%Z;
     "bitmap_id"%string := JNumber 123%Z ]}.


Definition obj_without_profile : gmap string (jvalue Z) :=
  {[ "db"%string := JString "3"; "frame"%string := JString "b.n";
     "filter"%string := JNumber 0%Z; "bitmap_id"%string := JNumber 123%Z ]}.

Definition ping_p1 : Request := get {[ "process"%string := ["p1"%string] ]}.

(** A dump that always succeeds, the requests of a short session and a
    relay's world. *)
Definition dumping (r : list byte) : list byte * Adapter.dump_result :=
  (r, Adapter.Dumped r).

#[local] Existing Instance Sample.clock.

(** Two requests to "/set_bits", a receive of the worker and the
    shutdown; then one more request. *)
Definition session
  : list (Server.action (Request := list byte) (ResponseWriter := list byte)) :=
  [Server.SetBits [] Sample.hi; Server.SetBits [] []; Server.TakeIn Sample.e_ok].

Definition late_request
  : list (Server.action (Request := list byte) (ResponseWriter := list byte)) :=
  [Server.SetBits [] Sample.hi].

Definition nil_message : Hub.value (Payload := string) (Host := string) :=
  Hub.VMessage {| Hub.Data := None |}.

Definition listening
  : Listen.world (Payload := string) (Host := string)
                 (Conn := list (gmap string string)) :=
  {| Listen.the_hub := {| Hub.the_bus := Sample.bus0; Hub.conn := [];
                          Hub.hub_logs := [] |};
     Listen.resp := fresh; Listen.stdout := [] |}.

Definition Sdump_recovered (panicked : bool) : string :=
  if panicked then "(runtime.Error) invalid memory address"%string
  else "(interface {}) <nil>"%string.

(** Two channels with messages queued, as a relay finds them. *)
Definition queued : Hub.hub (Payload := string) (Host := string)
                            (Conn := list (gmap string string)) :=
  {| Hub.the_bus :=
       {| Hub.heap :=
            [ {| cap := 10;
                 queue := Relay.inbox_values ["m0"; "m1"]%string;
                 closed := false |};
              {| cap := 10;
                 queue := Relay.outbox_values [("o0", "host1")]%string;
                 closed := false |} ];
          Hub.events := {[ "inbox"%string := [0]; "outbox"%string := [1] ]} |};
     Hub.conn := []; Hub.hub_logs := [] |}.

End SampleWeb.

(* ================================================================= *)
(** * Properties *)

(** ** Bytes and bit arithmetic *)

Local Open Scope Z_scope.

Lemma byteZ_range (b : byte) : 0 <= byteZ b < 256.
Proof.
  unfold byteZ. pose proof (Byte.to_N_bounded b). lia.
Qed.

Lemma Zbyte_byteZ (b : byte) : Zbyte (byteZ b) = b.
Proof.
  unfold Zbyte. change 255 with (Z.ones 8).
  rewrite Z.land_ones by lia.
  rewrite Z.mod_small by (apply byteZ_range).
  unfold byteZ. rewrite N2Z.id, Byte.of_to_N. reflexivity.
Qed.

Lemma Zbyte_mod (z : Z) : Zbyte z = Zbyte (z mod 256).
Proof.
  unfold Zbyte. change 255 with (Z.ones 8).
  rewrite !Z.land_ones by lia.
  rewrite Z.mod_mod by lia. reflexivity.
Qed.

(** A disjunction of a multiple of [2^n] with a value below [2^n] is
    their sum. *)
Lemma lor_low_add (a b n : Z) :
  0 <= n -> a mod 2 ^ n = 0 -> 0 <= b < 2 ^ n -> Z.lor a b = a + b.
Proof.
  intros Hn Ha Hb. symmetry. apply Z.add_nocarry_lor.
  assert (a = Z.shiftl (a / 2 ^ n) n) as ->.
  { rewrite Z.shiftl_mul_pow2 by lia.
    pose proof (Z.div_mod a (2 ^ n)). lia. }
  apply Z.bits_inj'. intros i Hi.
  rewrite Z.land_spec, Z.bits_0.
  destruct (Z.lt_ge_cases i n) as [Hlt | Hge].
  - rewrite Z.shiftl_spec_low by lia. reflexivity.
  - assert (Z.testbit b i = false) as ->; [|apply andb_false_r].
    destruct (Z.eq_dec b 0) as [-> | Hnz]; [apply Z.bits_0|].
    apply Z.bits_above_log2; [lia|].
    apply Z.lt_le_trans with n; [|lia].
    apply Z.log2_lt_pow2; lia.
Qed.

Lemma land63 (z : Z) : Z.land z 63 = z mod 64.
Proof. change 63 with (Z.ones 6). rewrite Z.land_ones by lia. reflexivity. Qed.

Ltac shifts_to_arith :=
  rewrite ?Z.shiftl_mul_pow2, ?Z.shiftr_div_pow2, ?land63 by lia;
  change (2 ^ 6) with 64; change (2 ^ 8) with 256;
  change (2 ^ 12) with 4096; change (2 ^ 16) with 65536;
  change (2 ^ 18) with 262144.

Ltac divmod_lia := Z.div_mod_to_equations; lia.

(** The 24-bit group built from three bytes. *)
Lemma group3_val (x0 x1 x2 : Z) :
  0 <= x0 < 256 -> 0 <= x1 < 256 -> 0 <= x2 < 256 ->
  Z.lor (Z.lor (Z.shiftl x0 16) (Z.shiftl x1 8)) x2
  = x0 * 65536 + x1 * 256 + x2.
Proof.
  intros H0 H1 H2. shifts_to_arith.
  rewrite (lor_low_add (x0 * 65536) (x1 * 256) 16) by (try divmod_lia; lia).
  rewrite (lor_low_add _ x2 8) by (try divmod_lia; lia).
  reflexivity.
Qed.

Lemma group2_val (x0 x1 : Z) :
  0 <= x0 < 256 -> 0 <= x1 < 256 ->
  Z.lor (Z.shiftl x0 16) (Z.shiftl x1 8) = x0 * 65536 + x1 * 256.
Proof.
  intros H0 H1. shifts_to_arith.
  rewrite (lor_low_add (x0 * 65536) (x1 * 256) 16) by (try divmod_lia; lia).
  reflexivity.
Qed.

(** The 24-bit group rebuilt from four 6-bit digits. *)
Lemma quantum4_val (d0 d1 d2 d3 : Z) :
  0 <= d0 < 64 -> 0 <= d1 < 64 -> 0 <= d2 < 64 -> 0 <= d3 < 64 ->
  Z.lor (Z.lor (Z.lor (Z.shiftl d0 18) (Z.shiftl d1 12)) (Z.shiftl d2 6)) d3
  = d0 * 262144 + d1 * 4096 + d2 * 64 + d3.
Proof.
  intros H0 H1 H2 H3. shifts_to_arith.
  rewrite (lor_low_add (d0 * 262144) (d1 * 4096) 18) by (try divmod_lia; lia).
  rewrite (lor_low_add _ (d2 * 64) 12) by (try divmod_lia; lia).
  rewrite (lor_low_add _ d3 6) by (try divmod_lia; lia).
  reflexivity.
Qed.

Lemma quantum3_val (d0 d1 d2 : Z) :
  0 <= d0 < 64 -> 0 <= d1 < 64 -> 0 <= d2 < 64 ->
  Z.lor (Z.lor (Z.shiftl d0 18) (Z.shiftl d1 12)) (Z.shiftl d2 6)
  = d0 * 262144 + d1 * 4096 + d2 * 64.
Proof.
  intros H0 H1 H2. shifts_to_arith.
  rewrite (lor_low_add (d0 * 262144) (d1 * 4096) 18) by (try divmod_lia; lia).
  rewrite (lor_low_add _ (d2 * 64) 12) by (try divmod_lia; lia).
  reflexivity.
Qed.

Lemma quantum2_val (d0 d1 : Z) :
  0 <= d0 < 64 -> 0 <= d1 < 64 ->
  Z.lor (Z.shiftl d0 18) (Z.shiftl d1 12) = d0 * 262144 + d1 * 4096.
Proof.
  intros H0 H1. shifts_to_arith.
  rewrite (lor_low_add (d0 * 262144) (d1 * 4096) 18) by (try divmod_lia; lia).
  reflexivity.
Qed.

(** ** base64 *)

Section Base64Facts.
Import Base64.

Lemma digits_ok :
  forallb (fun n =>
             let c := encode_char (Z.of_nat n) in
             bool_decide (decodeMap c = Some (Z.of_nat n))
             && negb (Ascii.eqb c padChar) && negb (is_newline c))
          (seq 0 64) = true.
Proof. vm_compute. reflexivity. Qed.

Lemma digit_facts (v : Z) :
  0 <= v < 64 ->
  decodeMap (encode_char v) = Some v
  /\ Ascii.eqb (encode_char v) padChar = false
  /\ is_newline (encode_char v) = false.
Proof.
  intros Hv.
  pose proof digits_ok as Hall.
  rewrite forallb_forall in Hall.
  specialize (Hall (Z.to_nat v)).
  assert (In (Z.to_nat v) (seq 0 64)) as Hin by (apply in_seq; lia).
  apply Hall in Hin. cbv zeta in Hin.
  rewrite Z2Nat.id in Hin by lia.
  apply andb_prop in Hin as [Hin Hnl].
  apply andb_prop in Hin as [Hdec Hpad].
  apply bool_decide_eq_true in Hdec.
  apply negb_true_iff in Hpad, Hnl. auto.
Qed.

Lemma decodeMap_encode_char (v : Z) :
  decodeMap (encode_char (v mod 64)) = Some (v mod 64).
Proof. apply digit_facts. apply Z.mod_pos_bound. lia. Qed.

Lemma encode_char_not_pad (v : Z) :
  Ascii.eqb (encode_char (v mod 64)) padChar = false.
Proof. apply digit_facts. apply Z.mod_pos_bound. lia. Qed.

Lemma encode_char_not_newline (v : Z) :
  is_newline (encode_char (v mod 64)) = false.
Proof. apply digit_facts. apply Z.mod_pos_bound. lia. Qed.

Lemma mod64_range (v : Z) : 0 <= v mod 64 < 64.
Proof. apply Z.mod_pos_bound. lia. Qed.

Lemma decode_group3 (x0 x1 x2 : Z) (rest : list ascii) :
  0 <= x0 < 256 -> 0 <= x1 < 256 -> 0 <= x2 < 256 ->
  let val := Z.lor (Z.lor (Z.shiftl x0 16) (Z.shiftl x1 8)) x2 in
  decode_quanta
    (encode_char (Z.land (Z.shiftr val 18) 63)
     :: encode_char (Z.land (Z.shiftr val 12) 63)
     :: encode_char (Z.land (Z.shiftr val 6) 63)
     :: encode_char (Z.land val 63) :: rest)
  = tl ← decode_quanta rest; Some (Zbyte x0 :: Zbyte x1 :: Zbyte x2 :: tl).
Proof.
  intros H0 H1 H2 val. subst val.
  rewrite group3_val by assumption.
  set (V := x0 * 65536 + x1 * 256 + x2).
  shifts_to_arith.
  cbn [decode_quanta].
  rewrite !decodeMap_encode_char, !encode_char_not_pad. cbn [mbind option_bind].
  rewrite quantum4_val by apply mod64_range.
  shifts_to_arith.
  set (V' := _ + V mod 64).
  assert (V' = V) as -> by (subst V V'; divmod_lia).
  rewrite (Zbyte_mod (V / 65536)), (Zbyte_mod (V / 256)), (Zbyte_mod V).
  replace ((V / 65536) mod 256) with x0 by (subst V; divmod_lia).
  replace ((V / 256) mod 256) with x1 by (subst V; divmod_lia).
  replace (V mod 256) with x2 by (subst V; divmod_lia).
  reflexivity.
Qed.

Lemma decode_group2 (x0 x1 : Z) :
  0 <= x0 < 256 -> 0 <= x1 < 256 ->
  let val := Z.lor (Z.shiftl x0 16) (Z.shiftl x1 8) in
  decode_quanta
    [encode_char (Z.land (Z.shiftr val 18) 63);
     encode_char (Z.land (Z.shiftr val 12) 63);
     encode_char (Z.land (Z.shiftr val 6) 63);
     padChar]
  = Some [Zbyte x0; Zbyte x1].
Proof.
  intros H0 H1 val. subst val.
  rewrite group2_val by assumption.
  set (V := x0 * 65536 + x1 * 256).
  shifts_to_arith.
  cbn [decode_quanta].
  rewrite !decodeMap_encode_char, !encode_char_not_pad. cbn [mbind option_bind].
  change (Ascii.eqb padChar padChar) with true.
  rewrite bool_decide_eq_true_2 by reflexivity.
  rewrite quantum3_val by apply mod64_range.
  shifts_to_arith.
  set (V' := _ + _ * 64).
  assert (V' = V) as -> by (subst V V'; divmod_lia).
  rewrite (Zbyte_mod (V / 65536)), (Zbyte_mod (V / 256)).
  replace ((V / 65536) mod 256) with x0 by (subst V; divmod_lia).
  replace ((V / 256) mod 256) with x1 by (subst V; divmod_lia).
  reflexivity.
Qed.

Lemma decode_group1 (x0 : Z) :
  0 <= x0 < 256 ->
  let val := Z.shiftl x0 16 in
  decode_quanta
    [encode_char (Z.land (Z.shiftr val 18) 63);
     encode_char (Z.land (Z.shiftr val 12) 63);
     padChar; padChar]
  = Some [Zbyte x0].
Proof.
  intros H0 val. subst val.
  shifts_to_arith.
  set (V := x0 * 65536).
  cbn [decode_quanta].
  rewrite !decodeMap_encode_char. cbn [mbind option_bind].
  change (Ascii.eqb padChar padChar) with true.
  rewrite bool_decide_eq_true_2 by reflexivity. cbn [andb].
  rewrite quantum2_val by apply mod64_range.
  shifts_to_arith.
  set (V' := _ + _ * 4096).
  rewrite (Zbyte_mod (V' / 65536)).
  replace ((V' / 65536) mod 256) with x0 by (subst V V'; divmod_lia).
  reflexivity.
Qed.

(** Decoding the quanta of an encoding gives the bytes back. *)
Lemma decode_quanta_encode (src : list byte) :
  decode_quanta (encode src) = Some src.
Proof.
  remember (length src) as n eqn:Hn.
  revert src Hn.
  induction n as [n IH] using lt_wf_ind. intros src Hn.
  destruct src as [|b0 [|b1 [|b2 rest]]].
  - reflexivity.
  - cbn [encode]. rewrite decode_group1 by apply byteZ_range.
    rewrite Zbyte_byteZ. reflexivity.
  - cbn [encode]. rewrite decode_group2 by apply byteZ_range.
    rewrite !Zbyte_byteZ. reflexivity.
  - cbn [encode]. rewrite decode_group3 by apply byteZ_range.
    rewrite (IH (length rest)) by (subst n; cbn [length]; try lia; reflexivity).
    cbn [mbind option_bind]. rewrite !Zbyte_byteZ. reflexivity.
Qed.

Lemma encode_no_newline (src : list byte) :
  strip_newlines (encode src) = encode src.
Proof.
  remember (length src) as n eqn:Hn.
  revert src Hn.
  induction n as [n IH] using lt_wf_ind. intros src Hn.
  unfold strip_newlines in *.
  destruct src as [|b0 [|b1 [|b2 rest]]]; cbn [encode].
  - reflexivity.
  - shifts_to_arith. rewrite !filter_cons, !encode_char_not_newline.
    reflexivity.
  - shifts_to_arith. rewrite !filter_cons, !encode_char_not_newline.
    reflexivity.
  - shifts_to_arith. rewrite !filter_cons, !encode_char_not_newline.
    rewrite !decide_True by reflexivity.
    rewrite (IH (length rest) ltac:(subst n; cbn [length]; lia) rest eq_refl).
    reflexivity.
Qed.

(** [DecodeString] inverts [EncodeToString]. *)
Lemma DecodeString_EncodeToString (src : list byte) :
  DecodeString (EncodeToString src) = Some src.
Proof.
  unfold DecodeString, EncodeToString.
  rewrite list_ascii_of_string_of_list_ascii, encode_no_newline.
  apply decode_quanta_encode.
Qed.

End Base64Facts.

Local Close Scope Z_scope.

Section Examples.
Local Existing Instance stored_gzip.

Example gzip_hi :
  Bytes (Close (Flush (Write NewWriter [Byte.x68; Byte.x69])))
  = [Byte.x1f; Byte.x8b; Byte.x08; Byte.x00; Byte.x00; Byte.x00; Byte.x00;
     Byte.x00; Byte.x00; Byte.xff;
     Byte.x00; Byte.x02; Byte.x00; Byte.xfd; Byte.xff; Byte.x68; Byte.x69;
     Byte.x00; Byte.x00; Byte.x00; Byte.xff; Byte.xff;
     Byte.x01; Byte.x00; Byte.x00; Byte.xff; Byte.xff;
     Byte.xac; Byte.x2a; Byte.x93; Byte.xd8;
     Byte.x02; Byte.x00; Byte.x00; Byte.x00].
Proof. vm_compute. reflexivity. Qed.

Example gunzip_hi :
  gunzip (Bytes (Close (Flush (Write NewWriter [Byte.x68; Byte.x69]))))
  = Some [Byte.x68; Byte.x69].
Proof. vm_compute. reflexivity. Qed.

Example encode_foobar :
  Base64.EncodeToString [Byte.x66; Byte.x6f; Byte.x6f; Byte.x62; Byte.x61]
  = "Zm9vYmE="%string.
Proof. reflexivity. Qed.

Example decode_foobar :
  Base64.DecodeString "Zm9v
YmE="%string = Some [Byte.x66; Byte.x6f; Byte.x6f; Byte.x62; Byte.x61].
Proof. reflexivity. Qed.

End Examples.

(** ** The storing gzip writer *)

Section StoredGzipFacts.
Import StoredGzip.
Local Open Scope Z_scope.

Lemma byteZ_Zbyte (z : Z) : byteZ (Zbyte z) = z mod 256.
Proof.
  unfold Zbyte. change 255 with (Z.ones 8). rewrite Z.land_ones by lia.
  change (2 ^ 8) with 256.
  pose proof (Z.mod_pos_bound z 256 ltac:(lia)) as Hr.
  destruct (Byte.of_N (Z.to_N (z mod 256))) as [b|] eqn:Hb.
  - apply Byte.to_of_N in Hb. cbn. unfold byteZ. rewrite Hb. lia.
  - apply Byte.of_N_None_iff in Hb. lia.
Qed.

Lemma of_le16_le16 (z : Z) :
  of_le16 (Zbyte z) (Zbyte (Z.shiftr z 8)) = z mod 65536.
Proof.
  unfold of_le16. rewrite !byteZ_Zbyte. shifts_to_arith.
  rewrite Z.lor_comm.
  rewrite (lor_low_add _ (z mod 256) 8) by (try divmod_lia; lia).
  divmod_lia.
Qed.

Lemma of_le32_le32 (z : Z) :
  of_le32 (Zbyte z) (Zbyte (Z.shiftr z 8)) (Zbyte (Z.shiftr z 16))
          (Zbyte (Z.shiftr z 24)) = z mod 2 ^ 32.
Proof.
  unfold of_le32. rewrite !byteZ_Zbyte.
  rewrite !Z.shiftl_mul_pow2, !Z.shiftr_div_pow2 by lia.
  change (2 ^ 8) with 256. change (2 ^ 16) with 65536.
  change (2 ^ 24) with 16777216. change (2 ^ 32) with 4294967296.
  set (b0 := z mod 256). set (b1 := (z / 256) mod 256).
  set (b2 := (z / 65536) mod 256). set (b3 := (z / 16777216) mod 256).
  assert (0 <= b0 < 256 ∧ 0 <= b1 < 256 ∧ 0 <= b2 < 256 ∧ 0 <= b3 < 256)
    as (H0 & H1 & H2 & H3) by (subst b0 b1 b2 b3; divmod_lia).
  rewrite (Z.lor_comm b0).
  rewrite (lor_low_add (b1 * 256) b0 8) by (try divmod_lia; lia).
  rewrite (Z.lor_comm _ (b2 * 65536)).
  rewrite (lor_low_add (b2 * 65536) _ 16) by (try divmod_lia; lia).
  rewrite (Z.lor_comm _ (b3 * 16777216)).
  rewrite (lor_low_add (b3 * 16777216) _ 24) by (try divmod_lia; lia).
  subst b0 b1 b2 b3. divmod_lia.
Qed.

Lemma lxor_range (a b n : Z) :
  0 <= n → 0 <= a < 2 ^ n → 0 <= b < 2 ^ n → 0 <= Z.lxor a b < 2 ^ n.
Proof.
  intros Hn Ha Hb.
  assert (0 <= Z.lxor a b) as Hnn by (apply Z.lxor_nonneg; lia).
  split; [exact Hnn|].
  destruct (Z.eq_dec (Z.lxor a b) 0) as [-> | Hnz]; [lia|].
  assert (0 < n) as Hpos.
  { destruct (Z.eq_dec n 0) as [-> | ?]; [|lia].
    assert (a = 0) as -> by lia. assert (b = 0) as -> by lia.
    contradiction Hnz. reflexivity. }
  apply Z.log2_lt_pow2; [lia|].
  pose proof (Z.log2_lxor a b ltac:(lia) ltac:(lia)) as Hlog.
  assert (Z.log2 a < n).
  { destruct (Z.eq_dec a 0) as [-> | ?]; [cbn; lia|].
    apply Z.log2_lt_pow2; lia. }
  assert (Z.log2 b < n).
  { destruct (Z.eq_dec b 0) as [-> | ?]; [cbn; lia|].
    apply Z.log2_lt_pow2; lia. }
  lia.
Qed.

Lemma crc_bits_range (k : nat) (c : Z) :
  0 <= c < 2 ^ 32 → 0 <= crc_bits k c < 2 ^ 32.
Proof.
  revert c. induction k as [|k IH]; intros c Hc; [exact Hc|].
  cbn [crc_bits]. apply IH.
  assert (0 <= Z.shiftr c 1 < 2 ^ 32) as Hs.
  { rewrite Z.shiftr_div_pow2 by lia. change (2 ^ 1) with 2. divmod_lia. }
  destruct (Z.testbit c 0); [|exact Hs].
  apply lxor_range; lia.
Qed.

Lemma crc_byte_range (c : Z) (b : byte) :
  0 <= c < 2 ^ 32 → 0 <= crc_byte c b < 2 ^ 32.
Proof.
  intros Hc. apply crc_bits_range, lxor_range; [lia | exact Hc |].
  pose proof (byteZ_range b). lia.
Qed.

Lemma crc_update_range (crc : Z) (p : list byte) :
  0 <= crc < 2 ^ 32 → 0 <= crc_update crc p < 2 ^ 32.
Proof.
  intros Hc. unfold crc_update.
  apply lxor_range; [lia | | lia].
  assert (0 <= Z.lxor crc 4294967295 < 2 ^ 32) as H0
    by (apply lxor_range; lia).
  revert H0. generalize (Z.lxor crc 4294967295).
  induction p as [|b p IH]; intros c H0; [exact H0|].
  cbn [fold_left]. apply IH, crc_byte_range, H0.
Qed.

Lemma max_stored_val : Z.of_nat max_stored = 65535.
Proof. unfold max_stored. rewrite Z2Nat.id; lia. Qed.

(** Reading one stored block. *)
Lemma inflate_block (f : nat) (final : bool) (d rest acc : list byte) :
  (length d ≤ max_stored)%nat →
  inflate_stored (S f) (stored_block final d ++ rest) acc
  = if final then Some (acc ++ d, rest) else inflate_stored f rest (acc ++ d).
Proof.
  intros Hd. pose proof max_stored_val as Hmax.
  unfold stored_block, le16. cbn [app inflate_stored].
  rewrite !of_le16_le16.
  set (n := Z.of_nat (length d)).
  assert (0 <= n < 65536) as Hn by (subst n; lia).
  rewrite (Z.mod_small n) by lia. rewrite !Z.mod_mod by lia.
  rewrite Z.eqb_refl.
  assert ((n <=? Z.of_nat (length (d ++ rest))) = true) as ->.
  { apply Z.leb_le. rewrite length_app. subst n. lia. }
  subst n. rewrite Nat2Z.id, take_app_length, drop_app_length.
  destruct final; reflexivity.
Qed.

(** Reading the blocks of the data, with fuel to spare for what
    follows. *)
Lemma inflate_blocks (n : nat) :
  ∀ (d rest acc : list byte) (F G : nat),
    (length d ≤ n)%nat →
    (length (stored_blocks n d) + G ≤ F)%nat →
    ∃ F', (G ≤ F')%nat
          ∧ inflate_stored F (stored_blocks n d ++ rest) acc
            = inflate_stored F' rest (acc ++ d).
Proof.
  induction n as [|n IH]; intros d rest acc F G Hd HF.
  - destruct d; [|cbn in Hd; lia]. exists F. cbn in *.
    rewrite app_nil_r. split; [lia | reflexivity].
  - destruct d as [|x d'].
    + exists F. cbn in *. rewrite app_nil_r. split; [lia | reflexivity].
    + cbn [stored_blocks] in *. set (d := x :: d') in *.
      rewrite length_app in HF.
      destruct F as [|F1].
      { unfold stored_block in HF. cbn [length] in HF. lia. }
      rewrite <- app_assoc.
      rewrite inflate_block by (rewrite length_take; lia).
      destruct (IH (drop max_stored d) rest (acc ++ take max_stored d) F1 G)
        as (F' & HG & Heq).
      * rewrite length_drop. pose proof max_stored_val.
        subst d. cbn [length] in *. lia.
      * unfold stored_block in HF. cbn [length] in HF. lia.
      * exists F'. split; [exact HG|]. rewrite Heq.
        rewrite <- app_assoc, take_drop. reflexivity.
Qed.

(** What the writer has buffered after [Write], [Flush], [Close] reads
    back as the data written. *)
Lemma stored_gzip_round_trip (data : list byte) :
  read_all (out (close_writer (flush_writer (write new_writer data))))
  = Some data.
Proof.
  unfold close_writer, flush_writer, write, new_writer.
  cbn [wroteHeader out digest size app].
  rewrite <- !app_assoc. cbn [header app read_all].
  cbn [Byte.eqb andb].
  set (tail := le32 _ ++ le32 _).
  set (body := stored_blocks _ _ ++ _).
  destruct (inflate_blocks (length data) data
              (stored_block false [] ++ stored_block true [] ++ tail) []
              (length body) 2 (le_n _)) as (F' & HF & Heq).
  { subst body. rewrite length_app. unfold stored_block at 1, le16.
    cbn [length app]. lia. }
  subst body. rewrite Heq.
  destruct F' as [|[|F]]; [lia | lia |].
  rewrite (inflate_block _ false []) by (cbn; lia).
  rewrite (inflate_block _ true []) by (cbn; lia).
  rewrite !app_nil_r. cbn [app]. subst tail. unfold le32. cbn [app].
  rewrite !of_le32_le32.
  rewrite (Z.mod_small (crc_update 0 data)) by (apply crc_update_range; lia).
  rewrite Z.add_0_l, Z.mod_mod by lia. rewrite !Z.eqb_refl. reflexivity.
Qed.

End StoredGzipFacts.

(** ** The archive record *)

Section RecordFacts.
Context `{Clock} `{Gzip}.

(** The contract of [compress/gzip]: what a writer has put into its
    buffer after [Write], [Flush] and [Close] reads back as the data
    written. *)
Hypothesis gunzip_gzip :
  ∀ data, gunzip (Bytes (Close (Flush (Write NewWriter data)))) = Some data.

(** C1: decoding the [Data_x64] of the record made from a payload
    (base64-decode, then gunzip) gives the payload back, byte for byte. *)
Theorem NewLogRecord_round_trip (t : time) (P : list byte) :
  decode_record (NewLogRecord t P) = Some P.
Proof.
  unfold decode_record, NewLogRecord. cbn [Data_x64].
  rewrite DecodeString_EncodeToString. cbn [mbind option_bind].
  apply gunzip_gzip.
Qed.

End RecordFacts.

(** ** The archive worker *)

Section ArchiveFacts.
Context `{Clock} `{Gzip} `{!Json} `{Config}.

Lemma write_last_snoc (p : list byte) fs dest body l :
  write_last p {| files := fs ++ [(dest, body)]; logs := l |}
  = {| files := fs ++ [(dest, body ++ [p])]; logs := l |}.
Proof.
  unfold write_last. cbn [files logs].
  rewrite reverse_snoc, reverse_involutive. reflexivity.
Qed.

Lemma Encode_snoc (v : LogRecord) fs dest body l :
  (Encode v {| files := fs ++ [(dest, body)]; logs := l |}).1
  = {| files := fs ++ [(dest, body ++ lines_of [v])]; logs := l |}.
Proof.
  unfold Encode, lines_of, line. cbn [omap list_omap].
  destruct (Marshal v) as [b|]; cbn.
  - apply write_last_snoc.
  - rewrite app_nil_r. reflexivity.
Qed.

Lemma lines_of_app (rs1 rs2 : list LogRecord) :
  lines_of (rs1 ++ rs2) = lines_of rs1 ++ lines_of rs2.
Proof. unfold lines_of. apply omap_app. Qed.

(** The loop of [flush] stays in range and appends, in order, the chunks
    of the records at indices [k, k + n). *)
Lemma encode_loop_spec (requests : list LogRecord) (n k : nat) fs dest body l :
  k + n ≤ length requests →
  encode_loop requests k n {| files := fs ++ [(dest, body)]; logs := l |}
  = Some {| files := fs ++ [(dest, body ++ lines_of (take n (drop k requests)))];
            logs := l |}.
Proof.
  revert k body. induction n as [|n IH]; intros k body Hk.
  - cbn [encode_loop]. rewrite take_0. unfold lines_of. cbn [omap].
    rewrite app_nil_r. reflexivity.
  - cbn [encode_loop].
    destruct (lookup_lt_is_Some_2 requests k ltac:(lia)) as [r Hr].
    rewrite Hr, Encode_snoc, IH by lia.
    rewrite (drop_S _ _ _ Hr). cbn [take].
    change (r :: take n (drop (S k) requests))
      with ([r] ++ take n (drop (S k) requests)).
    rewrite lines_of_app, app_assoc. reflexivity.
Qed.

(** [flush] when the file can be created. *)
Lemma flush_created (requests : list LogRecord) id n e w :
  create_err e = None →
  n ≤ length requests →
  flush requests id n e w
  = Some {| files := files w
                     ++ [(genFileName (flush_now e) id, lines_of (take n requests))];
            logs := logs w |}.
Proof.
  intros Hc Hn. unfold flush, Create. rewrite Hc.
  rewrite (encode_loop_spec requests n 0 (files w)) by lia.
  rewrite drop_0. reflexivity.
Qed.

(** [flush] when the file cannot be created. *)
Lemma flush_failed (requests : list LogRecord) id n e w err :
  create_err e = Some err →
  flush requests id n e w
  = Some {| files := files w;
            logs := logs w ++ ["Error opening outfile  "
                               ++ genFileName (flush_now e) id; err]%string |}.
Proof.
  intros Hc. unfold flush, Create, Println. rewrite Hc. cbn [files logs].
  rewrite <- app_assoc. reflexivity.
Qed.

(** *** The buffer invariant *)

Lemma Logger_init_ok : buffer_ok Logger_init.
Proof.
  unfold buffer_ok, Logger_init. cbn [buffer i].
  split; [apply length_replicate | lia].
Qed.

Lemma held_store (st : logger) (r : LogRecord) :
  i st < length (buffer st) →
  take (i st + 1) (<[i st := r]> (buffer st)) = held st ++ [r].
Proof.
  intros Hlt. unfold held.
  replace (i st + 1) with (S (i st)) by lia.
  rewrite (take_S_r _ _ r) by (apply list_lookup_insert_eq; exact Hlt).
  rewrite take_insert_ge by lia. reflexivity.
Qed.

(** An inbound event below the last slot is stored and nothing else
    happens. *)
Lemma Logger_step_store id raw e st w :
  buffer_ok st → i st < 2047 →
  Logger_step id (Raw raw) e st w
  = (Running {| buffer := <[i st := NewLogRecord (now e) raw]> (buffer st);
                i := i st + 1 |}, w).
Proof.
  intros [Hlen Hi] Hlt. unfold Logger_step.
  rewrite bool_decide_eq_true_2 by lia.
  rewrite bool_decide_eq_false_2 by lia. reflexivity.
Qed.

(** An inbound event into the last slot flushes all 2048 records. *)
Lemma Logger_step_fill id raw e st w :
  buffer_ok st → i st = 2047 →
  ∃ w',
    flush (<[i st := NewLogRecord (now e) raw]> (buffer st)) id 2048 e w
    = Some w'
    ∧ Logger_step id (Raw raw) e st w
      = (Running {| buffer := <[i st := NewLogRecord (now e) raw]> (buffer st);
                    i := 0 |}, w').
Proof.
  intros [Hlen Hi] Heq. unfold Logger_step.
  rewrite bool_decide_eq_true_2 by lia.
  rewrite bool_decide_eq_true_2 by lia.
  replace (i st + 1) with 2048 by lia.
  destruct (create_err e) as [err|] eqn:Hc.
  - rewrite (flush_failed _ _ _ _ _ err Hc). eauto.
  - rewrite (flush_created _ _ _ _ _ Hc) by (rewrite length_insert; lia). eauto.
Qed.

(** [flush] called by the worker never leaves the slice. *)
Lemma flush_in_range (requests : list LogRecord) id n e w :
  n ≤ length requests → is_Some (flush requests id n e w).
Proof.
  intros Hn. destruct (create_err e) as [err|] eqn:Hc.
  - rewrite (flush_failed _ _ _ _ _ err Hc). eauto.
  - rewrite (flush_created _ _ _ _ _ Hc Hn). eauto.
Qed.

(** The worker does not panic, and the invariant is kept. *)
Lemma Logger_step_ok id s e st w :
  buffer_ok st →
  ∃ w', Logger_step id s e st w = (Returned, w')
        ∨ ∃ st', Logger_step id s e st w = (Running st', w') ∧ buffer_ok st'.
Proof.
  intros Hok. pose proof Hok as [Hlen Hi]. destruct s as [raw| |].
  - destruct (decide (i st < 2047)) as [Hlt|Hge].
    + rewrite Logger_step_store by (assumption || lia).
      eexists. right. eexists. split; [reflexivity|].
      split; cbn; [rewrite length_insert|]; lia.
    + destruct (Logger_step_fill id raw e st w Hok ltac:(lia)) as (w' & _ & ->).
      eexists. right. eexists. split; [reflexivity|].
      split; cbn; [rewrite length_insert|]; lia.
  - unfold Logger_step. case_bool_decide as Hpos.
    + destruct (flush_in_range (buffer st) id (i st) e w ltac:(lia)) as [w' ->].
      eexists. right. eexists. split; [reflexivity|]. split; cbn; lia.
    + eexists. right. eexists. split; [reflexivity|]. exact Hok.
  - unfold Logger_step.
    destruct (flush_in_range (buffer st) id (i st) e w ltac:(lia)) as [w' ->].
    eexists. left. reflexivity.
Qed.

Lemma Logger_run_app id (t1 t2 : list (signal * env)) st w :
  Logger_run id (t1 ++ t2) st w
  = match Logger_run id t1 st w with
    | (Running st', w') => Logger_run id t2 st' w'
    | stopped => stopped
    end.
Proof.
  revert st w. induction t1 as [|[s e] t1 IH]; intros st w; [reflexivity|].
  cbn [app Logger_run].
  destruct (Logger_step id s e st w) as [[st'| |] w']; auto.
Qed.

Lemma Logger_run_ok id ticks st w st' w' :
  buffer_ok st →
  Logger_run id ticks st w = (Running st', w') → buffer_ok st'.
Proof.
  revert st w. induction ticks as [|[s e] ticks IH]; intros st w Hok Hrun.
  - cbn in Hrun. congruence.
  - cbn [Logger_run] in Hrun.
    destruct (Logger_step_ok id s e st w Hok) as (w1 & [Hs | (st1 & Hs & Hok1)]);
      rewrite Hs in Hrun; [discriminate|]. eauto.
Qed.

(** Every state the worker reaches satisfies the invariant. *)
Lemma Logger_reaches_ok id ticks st w :
  Logger id ticks = (Running st, w) → buffer_ok st.
Proof. apply Logger_run_ok, Logger_init_ok. Qed.

(** Inbound events that do not fill the buffer are appended below the
    cursor; no file is touched. *)
Lemma Logger_run_inbound id (evs : list (list byte * env)) st w :
  buffer_ok st → i st + length evs ≤ 2047 →
  ∃ st', Logger_run id (inbound evs) st w = (Running st', w)
         ∧ buffer_ok st'
         ∧ i st' = i st + length evs
         ∧ held st' = held st ++ records evs.
Proof.
  revert st. induction evs as [|[raw e] evs IH]; intros st Hok Hlen.
  - exists st. cbn [length] in *. rewrite Nat.add_0_r, app_nil_r. auto.
  - cbn [length] in Hlen. cbn [inbound map Logger_run fst snd].
    pose proof Hok as [Hb Hi].
    rewrite Logger_step_store by (assumption || lia).
    set (st1 := {| buffer := _; i := _ |}).
    assert (buffer_ok st1) as Hok1.
    { split; subst st1; cbn; [rewrite length_insert|]; lia. }
    destruct (IH st1 Hok1) as (st' & Hrun & Hok' & Hi' & Hheld).
    { subst st1; cbn; lia. }
    exists st'. split; [exact Hrun|]. split; [exact Hok'|]. split.
    + rewrite Hi'. subst st1. cbn [i length]. lia.
    + rewrite Hheld. unfold held at 1. subst st1. cbn [i buffer].
      rewrite held_store by lia. rewrite <- app_assoc. reflexivity.
Qed.




Lemma held_init : held Logger_init = [].
Proof. reflexivity. Qed.

Lemma flush_spec (requests : list LogRecord) id n e w :
  n ≤ length requests →
  flush requests id n e w = Some (after_flush (take n requests) id e w).
Proof.
  intros Hn. unfold after_flush. destruct (create_err e) as [err|] eqn:Hc.
  - apply flush_failed, Hc.
  - apply flush_created; assumption.
Qed.

(** The three cases of the [select], on a state that satisfies the
    invariant, in terms of the records held. *)
Lemma Logger_step_Raw id raw e st w :
  buffer_ok st →
  Logger_step id (Raw raw) e st w
  = let b := <[i st := NewLogRecord (now e) raw]> (buffer st) in
    if bool_decide (i st < 2047) then (Running {| buffer := b; i := i st + 1 |}, w)
    else (Running {| buffer := b; i := 0 |},
          after_flush (held st ++ [NewLogRecord (now e) raw]) id e w).
Proof.
  intros Hok. pose proof Hok as [Hlen Hi]. cbv zeta. case_bool_decide as Hlt.
  - apply Logger_step_store; assumption.
  - unfold Logger_step.
    rewrite bool_decide_eq_true_2 by lia.
    rewrite bool_decide_eq_true_2 by lia.
    rewrite flush_spec by (rewrite length_insert; lia).
    rewrite held_store by lia. reflexivity.
Qed.

Lemma Logger_step_Flusher id e st w :
  buffer_ok st →
  Logger_step id Flusher e st w
  = if bool_decide (0 < i st)
    then (Running {| buffer := buffer st; i := 0 |},
          after_flush (held st) id e w)
    else (Running st, w).
Proof.
  intros [Hlen Hi]. unfold Logger_step. case_bool_decide; [|reflexivity].
  rewrite flush_spec by lia. reflexivity.
Qed.

Lemma Logger_step_End id e st w :
  buffer_ok st →
  Logger_step id End_ e st w
  = (Returned, Println "Shutdown Logger" (after_flush (held st) id e w)).
Proof.
  intros [Hlen Hi]. unfold Logger_step.
  rewrite flush_spec by lia. reflexivity.
Qed.



(** C5: on the shutdown signal the worker runs [flush] whatever the
    cursor is (with the cursor at 0 this creates an empty file, or logs
    the failure to create it), then logs the notice and returns; whatever
    signals come later, none is served. *)
Theorem Logger_shutdown id ticks st w e rest :
  Logger id ticks = (Running st, w) →
  ∃ w',
    flush (buffer st) id (i st) e w = Some w'
    ∧ w' = match create_err e with
           | None =>
               {| files := files w
                           ++ [(genFileName (flush_now e) id,
                                lines_of (take (i st) (buffer st)))];
                  logs := logs w |}
           | Some err =>
               {| files := files w;
                  logs := logs w ++ ["Error opening outfile  "
                                     ++ genFileName (flush_now e) id; err]%string |}
           end
    ∧ Logger_step id End_ e st w
      = (Returned, {| files := files w'; logs := logs w' ++ ["Shutdown Logger"%string] |})
    ∧ Logger id (ticks ++ (End_, e) :: rest)
      = (Returned, {| files := files w'; logs := logs w' ++ ["Shutdown Logger"%string] |}).
Proof.
  intros Hreach. apply Logger_reaches_ok in Hreach as Hok.
  exists (after_flush (held st) id e w).
  split; [apply flush_spec; destruct Hok; lia|].
  split; [reflexivity|].
  split; [apply Logger_step_End, Hok|].
  unfold Logger in *. rewrite Logger_run_app, Hreach.
  cbn [Logger_run]. rewrite Logger_step_End by assumption. reflexivity.
Qed.

(** C10: a record that fails to marshal is skipped by [flush]: nothing is
    logged, the records after it are still written, and the file holds
    the chunks of the other records only. *)
Theorem flush_skips_failed_record (rs1 rs2 stale : list LogRecord)
    (r : LogRecord) id e w :
  Marshal r = None →
  create_err e = None →
  (Encode r w).2 = true
  ∧ flush (rs1 ++ r :: rs2 ++ stale) id (length rs1 + 1 + length rs2) e w
    = Some {| files := files w
                       ++ [(genFileName (flush_now e) id,
                            lines_of rs1 ++ lines_of rs2)];
              logs := logs w |}.
Proof.
  intros Hr Hc. split.
  - unfold Encode. rewrite Hr. reflexivity.
  - rewrite flush_created
      by (assumption
          || (rewrite length_app; cbn [length]; rewrite length_app; lia)).
    do 3 f_equal.
    replace (rs1 ++ r :: rs2 ++ stale) with ((rs1 ++ [r] ++ rs2) ++ stale)
      by (rewrite <- !app_assoc; reflexivity).
    rewrite take_app_length' by (rewrite !length_app; cbn; lia).
    rewrite !lines_of_app.
    assert (lines_of [r] = []) as ->; [|reflexivity].
    unfold lines_of, line. cbn [omap list_omap]. rewrite Hr. reflexivity.
Qed.

(** *** What lies above the cursor is never read *)

(** Two states with the same records below the cursor take the same
    step, up to the stale slots. *)
Lemma Logger_step_same_held id s e st1 st2 w :
  buffer_ok st1 → buffer_ok st2 →
  i st1 = i st2 → held st1 = held st2 →
  match Logger_step id s e st1 w, Logger_step id s e st2 w with
  | (Running a, w1), (Running b, w2) =>
      w1 = w2 ∧ buffer_ok a ∧ buffer_ok b ∧ i a = i b ∧ held a = held b
  | (Returned, w1), (Returned, w2) => w1 = w2
  | _, _ => False
  end.
Proof.
  intros Hok1 Hok2 Hi Hheld.
  pose proof Hok1 as [Hl1 Hb1]. pose proof Hok2 as [Hl2 Hb2].
  destruct s as [raw| |].
  - rewrite !Logger_step_Raw by assumption. cbv zeta.
    rewrite <- Hi, <- Hheld. case_bool_decide as Hlt.
    + split; [reflexivity|].
      split; [split; cbn; [rewrite length_insert|]; lia|].
      split; [split; cbn; [rewrite length_insert|]; lia|].
      split; [reflexivity|].
      unfold held at 1 2. cbn [i buffer].
      rewrite held_store by lia. rewrite Hi at 1 2.
      rewrite held_store by lia. rewrite Hheld. reflexivity.
    + split; [reflexivity|].
      split; [split; cbn; [rewrite length_insert|]; lia|].
      split; [split; cbn; [rewrite length_insert|]; lia|].
      split; reflexivity.
  - rewrite !Logger_step_Flusher by assumption.
    rewrite <- Hi, <- Hheld. case_bool_decide.
    + split; [reflexivity|].
      split; [split; cbn; lia|]. split; [split; cbn; lia|].
      split; reflexivity.
    + auto.
  - rewrite !Logger_step_End by assumption. rewrite Hheld. reflexivity.
Qed.

Lemma Logger_run_same_held id ticks st1 st2 w :
  buffer_ok st1 → buffer_ok st2 →
  i st1 = i st2 → held st1 = held st2 →
  (Logger_run id ticks st1 w).2 = (Logger_run id ticks st2 w).2.
Proof.
  revert st1 st2 w.
  induction ticks as [|[s e] ticks IH]; intros st1 st2 w Hok1 Hok2 Hi Hheld.
  - reflexivity.
  - cbn [Logger_run].
    pose proof (Logger_step_same_held id s e st1 st2 w Hok1 Hok2 Hi Hheld)
      as Hstep.
    destruct (Logger_step id s e st1 w) as [[a| |] w1],
             (Logger_step id s e st2 w) as [[b| |] w2]; try contradiction.
    + destruct Hstep as (-> & Ha & Hb & Hi' & Hh'). apply IH; assumption.
    + cbn. exact Hstep.
Qed.

(** C6: when [util.Create] fails in a flush triggered by a full buffer
    or by the flush-now signal, the two error lines are logged, no file
    is created, the cursor is reset and the worker keeps running; from
    then on it writes exactly what a freshly started worker would write,
    so the records of the failed cycle are never written. *)
Theorem Logger_create_failure id ticks st w s e err rest :
  Logger id ticks = (Running st, w) →
  create_err e = Some err →
  (s = Flusher ∧ 0 < i st) ∨ (∃ raw, s = Raw raw ∧ i st = 2047) →
  let w' := {| files := files w;
               logs := logs w ++ ["Error opening outfile  "
                                  ++ genFileName (flush_now e) id; err]%string |} in
  ∃ st',
    Logger_step id s e st w = (Running st', w')
    ∧ i st' = 0
    ∧ (Logger_run id rest st' w').2 = (Logger_run id rest Logger_init w').2.
Proof.
  intros Hreach Hc Htrig w'. apply Logger_reaches_ok in Hreach as Hok.
  destruct Hok as [Hlen Hi].
  assert (∀ rs, after_flush rs id e w = w') as Hw.
  { intros rs. unfold after_flush. rewrite Hc. reflexivity. }
  destruct Htrig as [[-> Hpos] | (raw & -> & Heq)].
  - eexists. split; [|split].
    + rewrite Logger_step_Flusher by (split; assumption).
      rewrite bool_decide_eq_true_2 by lia. rewrite Hw. reflexivity.
    + reflexivity.
    + apply Logger_run_same_held;
        [split; cbn; lia | apply Logger_init_ok | reflexivity | reflexivity].
  - eexists. split; [|split].
    + rewrite Logger_step_Raw by (split; assumption). cbv zeta.
      rewrite bool_decide_eq_false_2 by lia. rewrite Hw. reflexivity.
    + reflexivity.
    + apply Logger_run_same_held;
        [split; cbn; [rewrite length_insert|]; lia
        | apply Logger_init_ok | reflexivity | reflexivity].
Qed.

End ArchiveFacts.

(** ** The archiving adapter *)

Section AdapterFacts.
Import Adapter.
Context {Request ResponseWriter : Type}.
Variable DumpRequest : Request → Request * dump_result.
Variable handler :
  ResponseWriter → Request → option (ResponseWriter * Request).


End AdapterFacts.

Section DumpFailure.
Import Adapter.
Context `{Clock} `{Gzip} `{!Json} `{Config}.
Context {Request ResponseWriter : Type}.
Variable DumpRequest : Request → Request * dump_result.
Variable handler :
  ResponseWriter → Request → option (ResponseWriter * Request).

(** C9: when [DumpRequest] fails, the failure is logged and nothing else
    changes: the inner handler is called all the same, and once it has
    returned the nil dump is sent on the logger channel; the worker that
    receives it stores the record of the empty payload at its cursor. *)
Theorem Handle_dump_failure (x : exchange) (r1 : Request) (err : string) :
  DumpRequest (r x) = (r1, DumpFailed err) →
  match Handle DumpRequest handler x with
  | Handled x' =>
      handler (w x) r1 = Some (w x', r x')
      ∧ queue (logger x') = queue (logger x) ++ [[]]
      ∧ trace x' = trace x ++ [EvDumpRequest; EvLog ("Dump Failure " ++ err);
                               EvHandlerCalled; EvHandlerReturned; EvSent []]
  | BlockedOnSend x' d =>
      handler (w x) r1 = Some (w x', r x')
      ∧ d = []
      ∧ ¬ length (queue (logger x)) < cap (logger x)
      ∧ trace x' = trace x ++ [EvDumpRequest; EvLog ("Dump Failure " ++ err);
                               EvHandlerCalled; EvHandlerReturned]
  | HandlerDidNotReturn x' =>
      handler (w x) r1 = None
      ∧ trace x' = trace x ++ [EvDumpRequest; EvLog ("Dump Failure " ++ err);
                               EvHandlerCalled]
  end
  ∧ ∀ id ticks st wld e,
      Logger id ticks = (Running st, wld) →
      ∃ st' wld',
        Logger_step id (Raw []) e st wld = (Running st', wld')
        ∧ buffer st' !! i st = Some (NewLogRecord (now e) [])
        ∧ (i st < 2047 ∧ held st' = held st ++ [NewLogRecord (now e) []]
           ∧ wld' = wld
           ∨ i st = 2047
             ∧ wld' = after_flush (held st ++ [NewLogRecord (now e) []])
                        id e wld).
Proof.
  intros Hd. split.
  - unfold Handle. rewrite Hd.
    destruct (handler (w x) r1) as [[w2 r2]|] eqn:Hh.
    + unfold send. case_bool_decide as Hroom; cbn [w r logger trace queue].
      * rewrite <- !app_assoc. auto.
      * rewrite <- !app_assoc. auto.
    + cbn [w r logger trace]. rewrite <- !app_assoc. auto.
  - intros id ticks st wld e Hreach.
    apply Logger_reaches_ok in Hreach as Hok. pose proof Hok as [Hlen Hi].
    rewrite Logger_step_Raw by assumption. cbv zeta.
    case_bool_decide; eexists _, _; (split; [reflexivity|]); cbn [buffer];
      (split; [apply list_lookup_insert_eq; lia|]).
    + left. split; [assumption|]. split; [|reflexivity].
      unfold held at 1. cbn [i buffer]. apply held_store. lia.
    + right. split; [lia | reflexivity].
Qed.

End DumpFailure.

(** ** The broadcast hub *)

Section HubFacts.
Import Hub.
Context {Payload Host : Type}.
Implicit Types b : bus (Payload := Payload) (Host := Host).

Lemma Start_lookup event ch b :
  events (Start event ch b) !! event
  = Some (default [] (events b !! event) ++ [ch]).
Proof. unfold Start. cbn [events]. apply lookup_insert_eq. Qed.

Lemma Start_lookup_ne event event' ch b :
  event ≠ event' → events (Start event ch b) !! event' = events b !! event'.
Proof. intros Hne. unfold Start. cbn [events]. apply lookup_insert_ne, Hne. Qed.

Lemma Stop_lookup (stop_closes : bool) event ch b l :
  events (Stop stop_closes event ch b) !! event = Some l → ch ∉ l.
Proof.
  unfold Stop. destruct (events b !! event) as [outChans|] eqn:Hev.
  - cbn [events]. rewrite lookup_insert_eq. intros [= <-].
    intros Hin%list_elem_of_filter. destruct Hin as [Hne _]. congruence.
  - rewrite Hev. discriminate.
Qed.

Lemma Stop_lookup_ne (stop_closes : bool) event event' ch b :
  event ≠ event' →
  events (Stop stop_closes event ch b) !! event' = events b !! event'.
Proof.
  intros Hne. unfold Stop. destruct (events b !! event); [|reflexivity].
  cbn [events]. apply lookup_insert_ne, Hne.
Qed.

(** Whatever becomes of the drains, the branch taken on a writer failure
    has first removed the relay's channels from the observers of "inbox"
    and "outbox". *)
Lemma teardown_unsubscribes {Conn : Type} (stop_closes : bool) (rl : relay)
    (x x' : hub (Payload := Payload) (Host := Host) (Conn := Conn))
    (o : relay_outcome) :
  teardown stop_closes rl x = (o, x') →
  o ≠ Panicked →
  (∀ l, events (the_bus x') !! "inbox"%string = Some l → inbox rl ∉ l)
  ∧ (∀ l, events (the_bus x') !! "outbox"%string = Some l → outbox rl ∉ l).
Proof.
  intros Ht Ho.
  assert (events (the_bus x')
          = events (Stop stop_closes "outbox" (outbox rl)
                      (Stop stop_closes "inbox" (inbox rl) (the_bus x))))
    as ->.
  { unfold teardown in Ht.
    repeat match type of Ht with
           | context [match ?t with _ => _ end] => destruct t
           end; injection Ht as <- <-; try contradiction; reflexivity. }
  split; intros l Hl.
  - rewrite Stop_lookup_ne in Hl by discriminate.
    eapply Stop_lookup, Hl.
  - eapply Stop_lookup, Hl.
Qed.

(** [drain] on an open channel with nothing queued waits. *)
Lemma drain_open_empty (c : chan (value (Payload := Payload) (Host := Host))) :
  closed c = false → queue c = [] → drain c = None.
Proof. intros Hc Hq. unfold drain. rewrite Hc, Hq. reflexivity. Qed.

(** [drain] on a channel whose oldest value is not [true] takes that one
    value and returns, whatever else is queued. *)
Lemma drain_takes_one (c : chan (value (Payload := Payload) (Host := Host)))
    (v : value) (q : list value) :
  queue c = v :: q → is_true v = false →
  drain c = Some {| cap := cap c; queue := q; closed := closed c |}.
Proof.
  intros Hq Hv. unfold drain. rewrite Hq. cbn [drain_queue].
  rewrite Hv. reflexivity.
Qed.

(** [drain] on a closed channel with nothing queued returns. *)
Lemma drain_closed_empty (c : chan (value (Payload := Payload) (Host := Host))) :
  closed c = true → queue c = [] →
  drain c = Some {| cap := cap c; queue := []; closed := true |}.
Proof. intros Hc Hq. unfold drain. rewrite Hc, Hq. reflexivity. Qed.

(** C8, as the code has it: at startup the relay makes two channels of
    capacity 10 and registers them as observers of the events named
    "inbox" and "outbox"; the observers of every other event are left as
    they were. *)
Theorem streamer_start_subscribes b :
  let rl := (streamer_start b).1 in
  let b' := (streamer_start b).2 in
  inbox rl ≠ outbox rl
  ∧ heap b' !! inbox rl = Some (make_chan 10)
  ∧ heap b' !! outbox rl = Some (make_chan 10)
  ∧ events b' !! "inbox"%string
    = Some (default [] (events b !! "inbox"%string) ++ [inbox rl])
  ∧ events b' !! "outbox"%string
    = Some (default [] (events b !! "outbox"%string) ++ [outbox rl])
  ∧ ∀ event, event ≠ "inbox"%string → event ≠ "outbox"%string →
             events b' !! event = events b !! event.
Proof.
  unfold streamer_start, make. cbn [fst snd inbox outbox heap events Start].
  rewrite length_app. cbn [length].
  split; [lia|]. split.
  { rewrite lookup_app_l by (rewrite length_app; cbn; lia).
    apply list_lookup_middle. reflexivity. }
  split.
  { apply list_lookup_middle. rewrite length_app. reflexivity. }
  split.
  { rewrite lookup_insert_ne by discriminate. apply lookup_insert_eq. }
  split.
  { rewrite lookup_insert_eq, lookup_insert_ne by discriminate. reflexivity. }
  intros event Hi Ho. rewrite !lookup_insert_ne by congruence. reflexivity.
Qed.

End HubFacts.

(** ** The theorems at work in the sample environment *)

Section Runs.
Local Existing Instance Sample.clock.
Local Existing Instance stored_gzip.
Local Existing Instance Sample.json.
Local Existing Instance Sample.config.

(** The round trip of a two-byte payload through the storing writer. *)
Lemma NewLogRecord_round_trip_run :
  decode_record (NewLogRecord (2013, 61) Sample.hi) = Some Sample.hi.
Proof.
  apply (@NewLogRecord_round_trip Sample.clock stored_gzip).
  exact stored_gzip_round_trip.
Defined.


Lemma records_replicate (n : nat) (ev : list byte * env) :
  records (replicate n ev) = replicate n (NewLogRecord (now ev.2) ev.1).
Proof. unfold records. exact (fmap_replicate _ n ev). Qed.

(** Five events bring the worker to a state that holds five records. *)
Lemma five_events :
  ∃ st,
    Logger "a" (inbound (replicate 5 (Sample.hi, Sample.e_ok)))
    = (Running st, {| files := []; logs := [] |})
    ∧ i st = 5
    ∧ take (i st) (buffer st) = replicate 5 (NewLogRecord (2013, 61) Sample.hi).
Proof.
  destruct (Logger_run_inbound "a" (replicate 5 (Sample.hi, Sample.e_ok))
              Logger_init {| files := []; logs := [] |} Logger_init_ok)
    as (st & Hrun & _ & Hi & Hheld).
  { cbn. lia. }
  exists st. split; [exact Hrun|]. split; [exact Hi|].
  fold (held st). rewrite Hheld, held_init, records_replicate. reflexivity.
Qed.


(** Shutdown of a worker that holds nothing: an empty file, the notice,
    and the event that follows is not served. *)
Lemma Logger_shutdown_run :
  Logger "a" ([] ++ (End_, Sample.e_ok) :: inbound [(Sample.hi, Sample.e_ok)])
  = (Returned,
     {| files := [("/tmp/set_bit_log/2013/01/01/00/01-02.a.log"%string, [])];
        logs := ["Shutdown Logger"%string] |}).
Proof.
  destruct (@Logger_shutdown Sample.clock stored_gzip Sample.json
              Sample.config "a" [] Logger_init {| files := []; logs := [] |}
              Sample.e_ok (inbound [(Sample.hi, Sample.e_ok)]) eq_refl)
    as (w' & _ & -> & _ & Hrun).
  exact Hrun.
Defined.

(** A flush-now signal with five records held and a file that cannot be
    created; the next flush-now signal writes nothing. *)
Lemma Logger_create_failure_run :
  ∃ st w st',
    Logger "a" (inbound (replicate 5 (Sample.hi, Sample.e_ok))) = (Running st, w)
    ∧ Logger_step "a" Flusher Sample.e_denied st w
      = (Running st',
         {| files := [];
            logs := ["Error opening outfile  /tmp/set_bit_log/2013/01/01/00/01-02.a.log";
                     "permission denied"]%string |})
    ∧ i st' = 0
    ∧ (Logger_run "a" [(Flusher, Sample.e_ok)] st'
         {| files := [];
            logs := ["Error opening outfile  /tmp/set_bit_log/2013/01/01/00/01-02.a.log";
                     "permission denied"]%string |}).2
      = {| files := [];
           logs := ["Error opening outfile  /tmp/set_bit_log/2013/01/01/00/01-02.a.log";
                    "permission denied"]%string |}.
Proof.
  destruct five_events as (st & Hreach & Hi & _).
  destruct (@Logger_create_failure Sample.clock stored_gzip Sample.json
              Sample.config "a" _ st _ Flusher Sample.e_denied
              "permission denied"%string [(Flusher, Sample.e_ok)]
              Hreach eq_refl) as (st' & Hstep & Hi' & Hrest).
  - left. split; [reflexivity | lia].
  - exists st, {| files := []; logs := [] |}, st'.
    split; [exact Hreach|]. split; [exact Hstep|].
    split; [exact Hi'|]. etransitivity; [exact Hrest|]. reflexivity.
Defined.

(** Three records, the second of which does not marshal. *)
Lemma flush_skips_failed_record_run :
  flush ([Sample.rec1] ++ Sample.far_future :: [Sample.rec2] ++ [zeroLogRecord])
        "a" 3 Sample.e_ok {| files := []; logs := [] |}
  = Some {| files := [("/tmp/set_bit_log/2013/01/01/00/01-02.a.log"%string,
                       lines_of [Sample.rec1] ++ lines_of [Sample.rec2])];
            logs := [] |}.
Proof.
  apply (@flush_skips_failed_record Sample.clock Sample.json Sample.config
           [Sample.rec1] [Sample.rec2] [zeroLogRecord]
           Sample.far_future "a" Sample.e_ok {| files := []; logs := [] |});
    reflexivity.
Defined.

End Runs.

Section HubRuns.
Import Hub.

(** C2, as the code has it.  [drain] receives with [<-ch] inside a
    tagless [switch], not a [select]: on an open channel with nothing
    queued it waits, and on a channel with messages queued it takes one
    and returns.  So a relay whose writer fails does unsubscribe, but it
    then either stays in [drain] (when the channel is left open) or
    returns with messages still queued. *)
Theorem drain_waits_or_leaves_messages :
  drain (make_chan 10 : chan (value (Payload := string) (Host := string)))
  = None
  ∧ Sample.inbox_left (Sample.relay_meets_broken_writer false ["m0"%string])
    = Some (BlockedInDrain, [], false, Some [])
  ∧ Sample.inbox_left (Sample.relay_meets_broken_writer true ["m0"; "m1"; "m2"]%string)
    = Some (Returned, [Sample.msg "m2"], true, Some []).
Proof. vm_compute. auto. Qed.

(** C8 as stated fails: after startup nothing observes the events named
    "inbound" and "outbound". *)
Lemma streamer_start_not_inbound :
  events (streamer_start Sample.bus0).2 !! "inbound"%string = None
  ∧ events (streamer_start Sample.bus0).2 !! "outbound"%string = None.
Proof. vm_compute. auto. Qed.

End HubRuns.

Section AdapterRuns.
Import Adapter.
Local Existing Instance Sample.clock.
Local Existing Instance stored_gzip.
Local Existing Instance Sample.json.
Local Existing Instance Sample.config.

(** A request whose dump fails, an empty logger channel and a fresh
    worker. *)
Lemma Handle_dump_failure_run :
  Handle Sample.failing_dump Sample.answering Sample.exchange0
  = Handled {| w := [Byte.x4f; Byte.x4b]; r := [];
               logger := {| cap := 1024; queue := [[]]; closed := false |};
               trace := [EvDumpRequest; EvLog "Dump Failure unexpected EOF";
                         EvHandlerCalled; EvHandlerReturned; EvSent []] |}
  ∧ ∃ st' wld',
      Logger_step "a" (Raw []) Sample.e_ok Logger_init {| files := []; logs := [] |}
      = (Running st', wld')
      ∧ buffer st' !! 0 = Some (NewLogRecord (2013, 61) []).
Proof.
  destruct (@Handle_dump_failure Sample.clock stored_gzip Sample.json
              Sample.config _ _ Sample.failing_dump Sample.answering
              Sample.exchange0 Sample.hi "unexpected EOF"%string eq_refl)
    as [_ Hworker].
  split; [reflexivity|].
  destruct (Hworker "a"%string [] Logger_init {| files := []; logs := [] |}
              Sample.e_ok eq_refl) as (st' & wld' & Hstep & Hbuf & _).
  exists st', wld'. split; [exact Hstep | exact Hbuf].
Defined.

End AdapterRuns.

(** ** The archive worker: accounts of a whole run *)

Section ArchiveAccountsFacts.
Context `{Clock} `{Gzip} `{!Json} `{Config}.

Lemma written_after_flush_created (rs : list LogRecord) id e w :
  create_err e = None →
  written (after_flush rs id e w) = written w ++ lines_of rs.
Proof.
  intros Hc. unfold written, after_flush. rewrite Hc. cbn [files].
  rewrite fmap_app, concat_app. cbn. rewrite app_nil_r. reflexivity.
Qed.

Lemma written_after_flush_failed (rs : list LogRecord) id e w err :
  create_err e = Some err →
  written (after_flush rs id e w) = written w.
Proof. intros Hc. unfold written, after_flush. rewrite Hc. reflexivity. Qed.

Lemma lines_of_nil : lines_of [] = [].
Proof. reflexivity. Qed.

Lemma written_Println msg w : written (Println msg w) = written w.
Proof. reflexivity. Qed.

Lemma held_reset (b : list LogRecord) : held {| buffer := b; i := 0 |} = [].
Proof. reflexivity. Qed.

Lemma held_stored (st : logger) (r : LogRecord) :
  i st < length (buffer st) →
  held {| buffer := <[i st := r]> (buffer st); i := i st + 1 |}
  = held st ++ [r].
Proof. intros Hlt. unfold held at 1. cbn [i buffer]. apply held_store, Hlt. Qed.

(** X1: The worker never leaves its buffer: whatever cases its [select]
    takes, it does not panic, and while it runs the slice has its 2048
    slots and the cursor is at most 2047. *)
Theorem Logger_stays_in_buffer id (ticks : list (signal * env)) :
  match (Logger id ticks).1 with
  | Running st => length (buffer st) = 2048 ∧ i st ≤ 2047
  | Returned => True
  | Panicked => False
  end.
Proof.
  unfold Logger. generalize {| files := []; logs := [] |}.
  generalize Logger_init_ok. generalize Logger_init.
  induction ticks as [|[s e] ticks IH]; intros st Hok w.
  - exact Hok.
  - cbn [Logger_run].
    destruct (Logger_step_ok id s e st w Hok) as (w1 & [-> | (st1 & -> & Hok1)]).
    + exact I.
    + apply IH, Hok1.
Qed.

(** The accounts of a run from any state that satisfies the invariant:
    with every file created, what is written and what is held grows by
    exactly what is received. *)
Lemma Logger_run_accounts id (ticks : list (signal * env)) st w :
  buffer_ok st →
  Forall (λ t, create_err t.2 = None) ticks →
  match Logger_run id ticks st w with
  | (Running st', w') =>
      written w' ++ lines_of (held st')
      = written w ++ lines_of (held st) ++ lines_of (received ticks)
  | (Returned, w') =>
      written w' = written w ++ lines_of (held st) ++ lines_of (received ticks)
  | (Panicked, _) => False
  end.
Proof.
  revert st w. induction ticks as [|[s e] ticks IH]; intros st w Hok Hall.
  - cbn [Logger_run received]. rewrite lines_of_nil, !app_nil_r. reflexivity.
  - apply Forall_cons in Hall as [Hc Hall]. cbn [snd] in Hc.
    pose proof Hok as [Hlen Hi]. cbn [Logger_run received].
    destruct s as [raw| |].
    + rewrite Logger_step_Raw by assumption. cbv zeta.
      change (NewLogRecord (now e) raw :: received ticks)
        with ([NewLogRecord (now e) raw] ++ received ticks).
      rewrite lines_of_app. case_bool_decide as Hlt.
      * match goal with |- context [Logger_run id ticks ?s w] =>
          specialize (IH s w) end.
        rewrite held_stored in IH by lia.
        rewrite lines_of_app, <- !app_assoc in IH. apply IH; [|exact Hall].
        split; cbn; [rewrite length_insert|]; lia.
      * match goal with |- context [Logger_run id ticks ?s ?w'] =>
          specialize (IH s w') end.
        rewrite held_reset, written_after_flush_created in IH by exact Hc.
        rewrite lines_of_nil in IH. cbn [app] in IH.
        rewrite lines_of_app, <- !app_assoc in IH. apply IH; [|exact Hall].
        split; cbn; [rewrite length_insert|]; lia.
    + rewrite Logger_step_Flusher by assumption. case_bool_decide as Hpos.
      * match goal with |- context [Logger_run id ticks ?s ?w'] =>
          specialize (IH s w') end.
        rewrite held_reset, written_after_flush_created in IH by exact Hc.
        rewrite lines_of_nil in IH. cbn [app] in IH.
        rewrite <- !app_assoc in IH. apply IH; [|exact Hall].
        split; cbn; lia.
      * apply IH; assumption.
    + rewrite Logger_step_End by assumption.
      rewrite written_Println, written_after_flush_created by exact Hc.
      rewrite lines_of_nil, app_nil_r. reflexivity.
Qed.

(** X2: When every file can be created, nothing is lost, repeated or
    reordered: at any moment the chunks written, file after file,
    followed by the chunks of the records still held are the chunks of
    the records received, in the order of arrival; after the shutdown
    signal everything received is in the files. *)
Theorem Logger_writes_what_it_received id (ticks : list (signal * env)) :
  Forall (λ t, create_err t.2 = None) ticks →
  match Logger id ticks with
  | (Running st, w) =>
      written w ++ lines_of (held st) = lines_of (received ticks)
  | (Returned, w) => written w = lines_of (received ticks)
  | (Panicked, _) => False
  end.
Proof.
  intros Hall.
  pose proof (Logger_run_accounts id ticks Logger_init
                {| files := []; logs := [] |} Logger_init_ok Hall) as Hacc.
  unfold Logger. rewrite held_init in Hacc. exact Hacc.
Qed.

Lemma written_after_flush_sub (rs : list LogRecord) id e w :
  written (after_flush rs id e w) `sublist_of` written w ++ lines_of rs.
Proof.
  destruct (create_err e) as [err|] eqn:Hc.
  - rewrite (written_after_flush_failed _ _ _ _ err Hc).
    apply sublist_inserts_r. reflexivity.
  - rewrite written_after_flush_created by exact Hc. reflexivity.
Qed.

Lemma Logger_run_sublist id (ticks : list (signal * env)) st w R :
  buffer_ok st →
  written w ++ lines_of (held st) `sublist_of` R →
  match Logger_run id ticks st w with
  | (Running st', w') =>
      written w' ++ lines_of (held st')
      `sublist_of` R ++ lines_of (received ticks)
  | (Returned, w') => written w' `sublist_of` R ++ lines_of (received ticks)
  | (Panicked, _) => False
  end.
Proof.
  revert st w R. induction ticks as [|[s e] ticks IH]; intros st w R Hok Hsub.
  - cbn [Logger_run received]. rewrite lines_of_nil, app_nil_r. exact Hsub.
  - pose proof Hok as [Hlen Hi]. cbn [Logger_run received].
    destruct s as [raw| |].
    + rewrite Logger_step_Raw by assumption. cbv zeta.
      change (NewLogRecord (now e) raw :: received ticks)
        with ([NewLogRecord (now e) raw] ++ received ticks).
      rewrite lines_of_app, app_assoc.
      assert (written w ++ lines_of (held st ++ [NewLogRecord (now e) raw])
              `sublist_of` R ++ lines_of [NewLogRecord (now e) raw]) as Hsub1.
      { rewrite lines_of_app, app_assoc. apply sublist_app; [exact Hsub|].
        reflexivity. }
      case_bool_decide as Hlt.
      * apply IH.
        -- split; cbn; [rewrite length_insert|]; lia.
        -- rewrite held_stored by lia. exact Hsub1.
      * apply IH.
        -- split; cbn; [rewrite length_insert|]; lia.
        -- rewrite held_reset, lines_of_nil, app_nil_r.
           etransitivity; [apply written_after_flush_sub | exact Hsub1].
    + rewrite Logger_step_Flusher by assumption. case_bool_decide as Hpos.
      * apply IH; [split; cbn; lia|].
        rewrite held_reset, lines_of_nil, app_nil_r.
        etransitivity; [apply written_after_flush_sub | exact Hsub].
      * apply IH; assumption.
    + rewrite Logger_step_End by assumption.
      rewrite written_Println, lines_of_nil, app_nil_r.
      etransitivity; [apply written_after_flush_sub | exact Hsub].
Qed.

(** X3: Whatever fails, the worker never writes a record twice and never
    out of order: the chunks written, file after file, followed by the
    chunks of the records still held, are at any moment a subsequence of
    the chunks of the records received. *)
Theorem Logger_never_repeats_or_reorders id (ticks : list (signal * env)) :
  match Logger id ticks with
  | (Running st, w) =>
      written w ++ lines_of (held st) `sublist_of` lines_of (received ticks)
  | (Returned, w) => written w `sublist_of` lines_of (received ticks)
  | (Panicked, _) => False
  end.
Proof.
  apply (Logger_run_sublist id ticks Logger_init
           {| files := []; logs := [] |} [] Logger_init_ok).
  rewrite held_init. reflexivity.
Qed.

Lemma lines_of_length (rs : list LogRecord) :
  length (lines_of rs) ≤ length rs.
Proof.
  induction rs as [|r rs IH]; [reflexivity|].
  change (r :: rs) with ([r] ++ rs). rewrite lines_of_app, !length_app.
  assert (length (lines_of [r]) ≤ 1); [|cbn [length] in *; lia].
  unfold lines_of. cbn [omap list_omap]. destruct (line r); cbn; lia.
Qed.

Lemma files_after_flush_bound (rs : list LogRecord) id e w :
  length rs ≤ 2048 →
  Forall (λ f, length f.2 ≤ 2048) (files w) →
  Forall (λ f, length f.2 ≤ 2048) (files (after_flush rs id e w)).
Proof.
  intros Hrs Hw. unfold after_flush. destruct (create_err e); [exact Hw|].
  cbn [files]. apply Forall_app. split; [exact Hw|].
  constructor; [|constructor]. cbn [snd].
  pose proof (lines_of_length rs). lia.
Qed.

Lemma held_length (st : logger) : buffer_ok st → length (held st) = i st.
Proof. intros [Hlen Hi]. unfold held. rewrite length_take. lia. Qed.

Lemma Logger_run_files_bound id (ticks : list (signal * env)) st w :
  buffer_ok st →
  Forall (λ f, length f.2 ≤ 2048) (files w) →
  Forall (λ f, length f.2 ≤ 2048) (files (Logger_run id ticks st w).2).
Proof.
  revert st w. induction ticks as [|[s e] ticks IH]; intros st w Hok Hw.
  - exact Hw.
  - pose proof Hok as [Hlen Hi]. pose proof (held_length st Hok) as Hh.
    cbn [Logger_run]. destruct s as [raw| |].
    + rewrite Logger_step_Raw by assumption. cbv zeta. case_bool_decide.
      * apply IH; [|exact Hw]. split; cbn; [rewrite length_insert|]; lia.
      * apply IH; [split; cbn; [rewrite length_insert|]; lia|].
        apply files_after_flush_bound; [|exact Hw].
        rewrite length_app. cbn [length]. lia.
    + rewrite Logger_step_Flusher by assumption. case_bool_decide.
      * apply IH; [split; cbn; lia|].
        apply files_after_flush_bound; [lia | exact Hw].
      * apply IH; assumption.
    + rewrite Logger_step_End by assumption. cbn [snd].
      apply (files_after_flush_bound (held st) id e w); [lia | exact Hw].
Qed.

(** X4: No archive file ever holds more than 2048 chunks, whatever signals
    the worker serves and whether or not the records marshal. *)
Theorem Logger_files_hold_at_most_2048 id (ticks : list (signal * env)) :
  Forall (λ f, length f.2 ≤ 2048) (files (Logger id ticks).2).
Proof.
  apply Logger_run_files_bound; [apply Logger_init_ok | constructor].
Qed.

(** X5: [flush] panics exactly when the file was created and it is asked
    for more records than the slice has: the loop then reads
    [requests[i]] out of range. *)
Theorem flush_panics_iff_out_of_range (requests : list LogRecord) id n e w :
  flush requests id n e w = None
  ↔ create_err e = None ∧ length requests < n.
Proof.
  split.
  - intros Hf. destruct (create_err e) as [err|] eqn:Hc.
    + rewrite (flush_failed _ _ _ _ _ err Hc) in Hf. discriminate.
    + split; [reflexivity|].
      destruct (decide (n ≤ length requests)) as [Hle|]; [|lia].
      rewrite (flush_created _ _ _ _ _ Hc Hle) in Hf. discriminate.
  - intros [Hc Hlt]. unfold flush, Create. rewrite Hc.
    generalize {| files := files w ++ [(genFileName (flush_now e) id, [])];
                  logs := logs w |}.
    assert (∀ k m (w0 : world),
              length requests < k + m → k ≤ length requests →
              encode_loop requests k m w0 = None) as Hloop.
    { intros k m. revert k. induction m as [|m IH]; intros k w0 Hkm Hk; [lia|].
      cbn [encode_loop].
      destruct (requests !! k) as [r|] eqn:Hr; [|reflexivity].
      apply lookup_lt_Some in Hr. apply IH; lia. }
    intros w0. apply Hloop; lia.
Qed.

End ArchiveAccountsFacts.

(** ** The record text and the file name *)

Section RecordTextFacts.
Import Base64.

Lemma encode_length (src : list byte) :
  length (encode src) = 4 * ((length src + 2) / 3).
Proof.
  remember (length src) as n eqn:Hn. revert src Hn.
  induction n as [n IH] using lt_wf_ind. intros src Hn.
  destruct src as [|b0 [|b1 [|b2 rest]]]; cbn [encode]; subst n; try reflexivity.
  cbn [length].
  rewrite (IH (length rest) ltac:(cbn [length]; lia) rest eq_refl).
  replace (S (S (S (length rest))) + 2) with (1 * 3 + (length rest + 2)) by lia.
  rewrite Nat.div_add_l by lia. lia.
Qed.

Lemma encode_char_in_alphabet (v : Z) : encode_char v ∈ encodeStd.
Proof.
  unfold encode_char. apply list_elem_of_In.
  destruct (nth_in_or_default (Z.to_nat v) encodeStd "A"%char) as [Hin | ->].
  - exact Hin.
  - vm_compute. auto.
Qed.

Lemma encode_alphabet (src : list byte) :
  Forall (λ c, c ∈ encodeStd ∨ c = padChar) (encode src).
Proof.
  remember (length src) as n eqn:Hn. revert src Hn.
  induction n as [n IH] using lt_wf_ind. intros src Hn.
  destruct src as [|b0 [|b1 [|b2 rest]]]; cbn [encode];
    repeat (constructor; [first [left; apply encode_char_in_alphabet
                                | right; reflexivity]|]);
    try constructor.
  apply (IH (length rest)); [subst n; cbn [length]; lia | reflexivity].
Qed.

Context `{Clock} `{Gzip} `{Config}.

(** X6: The text of a record is plain base64 of what the gzip writer
    buffered: four characters for every three bytes, rounded up, each
    one a character of the standard alphabet or the padding. *)
Theorem Data_x64_is_base64 (t : time) (data : list byte) :
  let gz := Bytes (Close (Flush (Write NewWriter data))) in
  let text := list_ascii_of_string (Data_x64 (NewLogRecord t data)) in
  length text = 4 * ((length gz + 2) / 3)
  ∧ Forall (λ c, c ∈ encodeStd ∨ c = padChar) text.
Proof.
  cbv zeta. unfold NewLogRecord, EncodeToString. cbn [Data_x64].
  rewrite list_ascii_of_string_of_list_ascii.
  split; [apply encode_length | apply encode_alphabet].
Qed.

Lemma append_same_length_inj (a1 a2 b1 b2 : string) :
  String.length a1 = String.length a2 →
  (a1 ++ b1 = a2 ++ b2)%string → a1 = a2 ∧ b1 = b2.
Proof.
  revert a2. induction a1 as [|c a1 IH]; intros [|c2 a2] Hlen Heq;
    try discriminate.
  - auto.
  - cbn in Hlen, Heq. injection Heq as -> Heq.
    destruct (IH a2 ltac:(lia) Heq) as [-> ->]. auto.
Qed.

Lemma append_length (a b : string) :
  String.length (a ++ b) = String.length a + String.length b.
Proof.
  induction a as [|c a IH]; [reflexivity|].
  change (String c a +:+ b) with (String c (a +:+ b)).
  cbn [String.length]. rewrite IH. reflexivity.
Qed.

(** X7: Two flushes get the same file name exactly when their instants are
    rendered alike and the worker id is the same, provided the two
    renderings have the same length (as the fixed-width layout gives). *)
Theorem genFileName_same_iff (t1 t2 : time) (id1 id2 : string) :
  String.length (Format t1) = String.length (Format t2) →
  genFileName t1 id1 = genFileName t2 id2
  ↔ Format t1 = Format t2 ∧ id1 = id2.
Proof.
  intros Hlen. split; [|intros [HF ->]; unfold genFileName; rewrite HF; reflexivity].
  unfold genFileName. cbv zeta. intros Heq.
  apply String.app_inj in Heq.
  apply append_same_length_inj in Heq as [HF Heq]; [|exact Hlen].
  split; [exact HF|].
  apply String.app_inj in Heq.
  assert (String.length id1 = String.length id2) as Hid.
  { apply (f_equal String.length) in Heq. rewrite !append_length in Heq. lia. }
  apply append_same_length_inj in Heq as [Hid' _]; [exact Hid' | exact Hid].
Qed.

End RecordTextFacts.

(** ** The relay loop *)

Section RelayFacts.
Import Hub Relay.
Context {Payload Host : Type}.
Variable TypeString : Payload → string.
Variable Sdump : Payload → string.
Variable HostString : Host → string.
Variable stop_closes : bool.

Local Abbreviation step :=
  (streamer_step TypeString Sdump HostString recording stop_closes).
Local Abbreviation loop :=
  (streamer_loop TypeString Sdump HostString recording stop_closes).
Implicit Types x : hub (Payload := Payload) (Host := Host)
                       (Conn := list (gmap string string)).

(** Taking the oldest message of "inbox" to a writer that succeeds. *)
Lemma streamer_step_inbox rl x d ms es :
  relay_sees rl (the_bus x) (d :: ms) es →
  ∃ x', step rl FromInbox x = (Looping, x')
        ∧ conn x' = conn x ++ [frame_in TypeString Sdump d]
        ∧ relay_sees rl (the_bus x') ms es
        ∧ events (the_bus x') = events (the_bus x)
        ∧ hub_logs x' = hub_logs x.
Proof.
  intros (Hne & (ci & Hci & Hqi) & (co & Hco & Hqo)).
  unfold streamer_step. rewrite Hci. unfold recv. rewrite Hqi.
  cbn [inbox_values fmap list_fmap Data]. unfold recording. cbn [conn the_bus hub_logs].
  eexists. split; [reflexivity|]. cbn [conn the_bus heap events hub_logs].
  split; [reflexivity|]. split; [|split; reflexivity].
  split; [exact Hne|]. cbn [the_bus heap]. split.
  - eexists. split; [apply list_lookup_insert_eq; eapply lookup_lt_Some, Hci|].
    reflexivity.
  - exists co. rewrite list_lookup_insert_ne by exact Hne. auto.
Qed.

(** Taking the oldest message of "outbox" to a writer that succeeds. *)
Lemma streamer_step_outbox rl x m ms es :
  relay_sees rl (the_bus x) ms (m :: es) →
  ∃ x', step rl FromOutbox x = (Looping, x')
        ∧ conn x' = conn x ++ [frame_out TypeString Sdump HostString m]
        ∧ relay_sees rl (the_bus x') ms es
        ∧ events (the_bus x') = events (the_bus x)
        ∧ hub_logs x' = hub_logs x.
Proof.
  intros (Hne & (ci & Hci & Hqi) & (co & Hco & Hqo)).
  unfold streamer_step. rewrite Hco. unfold recv. rewrite Hqo.
  cbn [outbox_values fmap list_fmap Data Message_ Host_].
  unfold recording. cbn [conn the_bus hub_logs].
  eexists. split; [reflexivity|]. cbn [conn the_bus heap events hub_logs].
  split; [reflexivity|]. split; [|split; reflexivity].
  split; [exact Hne|]. cbn [the_bus heap]. split.
  - exists ci. rewrite list_lookup_insert_ne by (symmetry; exact Hne). auto.
  - eexists. split; [apply list_lookup_insert_eq; eapply lookup_lt_Some, Hco|].
    reflexivity.
Qed.

Lemma weave_length {A} (ticks : list ready) (ins outs : list A) :
  count_in ticks ≤ length ins → count_out ticks ≤ length outs →
  length (weave ticks ins outs) = length ticks.
Proof.
  revert ins outs. induction ticks as [|[] ticks IH]; intros ins outs Hi Ho.
  - destruct ins, outs; reflexivity.
  - cbn [count_in count_out] in *. destruct outs as [|a outs]; [cbn in Ho; lia|].
    destruct ins; cbn [weave length]; rewrite IH; cbn [length] in *; lia.
  - cbn [count_in count_out] in *. destruct ins as [|a ins]; [cbn in Hi; lia|].
    cbn [weave length]. rewrite IH; cbn [length] in *; lia.
Qed.

Lemma weave_keeps_in {A} (ticks : list ready) (ins outs : list A) :
  count_in ticks ≤ length ins → count_out ticks ≤ length outs →
  take (count_in ticks) ins `sublist_of` weave ticks ins outs.
Proof.
  revert ins outs. induction ticks as [|[] ticks IH]; intros ins outs Hi Ho.
  - cbn. rewrite take_0. apply sublist_nil_l.
  - cbn [count_in count_out] in *. destruct outs as [|a outs]; [cbn in Ho; lia|].
    assert (weave (FromOutbox :: ticks) ins (a :: outs)
            = a :: weave ticks ins outs) as -> by (destruct ins; reflexivity).
    apply sublist_cons. apply IH; cbn [length] in *; lia.
  - cbn [count_in count_out] in *. destruct ins as [|a ins]; [cbn in Hi; lia|].
    cbn [weave take]. apply sublist_skip. apply IH; cbn [length] in *; lia.
Qed.

Lemma weave_keeps_out {A} (ticks : list ready) (ins outs : list A) :
  count_in ticks ≤ length ins → count_out ticks ≤ length outs →
  take (count_out ticks) outs `sublist_of` weave ticks ins outs.
Proof.
  revert ins outs. induction ticks as [|[] ticks IH]; intros ins outs Hi Ho.
  - cbn. rewrite take_0. apply sublist_nil_l.
  - cbn [count_in count_out] in *. destruct outs as [|a outs]; [cbn in Ho; lia|].
    assert (weave (FromOutbox :: ticks) ins (a :: outs)
            = a :: weave ticks ins outs) as -> by (destruct ins; reflexivity).
    cbn [take]. apply sublist_skip. apply IH; cbn [length] in *; lia.
  - cbn [count_in count_out] in *. destruct ins as [|a ins]; [cbn in Hi; lia|].
    cbn [weave]. apply sublist_cons. apply IH; cbn [length] in *; lia.
Qed.

Lemma streamer_loop_weave (ticks : list ready) :
  ∀ rl x ms es,
    relay_sees rl (the_bus x) ms es →
    count_in ticks ≤ length ms →
    count_out ticks ≤ length es →
    ∃ x',
      loop ticks rl x = (Looping, x')
      ∧ conn x' = conn x ++ weave ticks (frame_in TypeString Sdump <$> ms)
                              (frame_out TypeString Sdump HostString <$> es)
      ∧ relay_sees rl (the_bus x') (drop (count_in ticks) ms)
                   (drop (count_out ticks) es)
      ∧ events (the_bus x') = events (the_bus x)
      ∧ hub_logs x' = hub_logs x.
Proof.
  induction ticks as [|t ticks IH]; intros rl x ms es Hsees Hi Ho.
  - exists x. cbn [streamer_loop count_in count_out drop].
    split; [reflexivity|]. split; [|auto].
    destruct ms, es; cbn; rewrite app_nil_r; reflexivity.
  - destruct t; cbn [count_in count_out] in Hi, Ho.
    + destruct es as [|m es]; [cbn in Ho; lia|].
      destruct (streamer_step_outbox rl x m ms es Hsees)
        as (x1 & Hstep & Hconn & Hsees1 & Hev & Hlog).
      destruct (IH rl x1 ms es Hsees1 Hi ltac:(cbn in Ho; lia))
        as (x' & Hrun & Hconn' & Hsees' & Hev' & Hlog').
      exists x'. cbn [streamer_loop]. rewrite Hstep.
      split; [exact Hrun|]. split; [|split; [exact Hsees'|split; congruence]].
      rewrite Hconn', Hconn, <- app_assoc.
      destruct ms; reflexivity.
    + destruct ms as [|d ms]; [cbn in Hi; lia|].
      destruct (streamer_step_inbox rl x d ms es Hsees)
        as (x1 & Hstep & Hconn & Hsees1 & Hev & Hlog).
      destruct (IH rl x1 ms es Hsees1 ltac:(cbn in Hi; lia) Ho)
        as (x' & Hrun & Hconn' & Hsees' & Hev' & Hlog').
      exists x'. cbn [streamer_loop]. rewrite Hstep.
      split; [exact Hrun|]. split; [|split; [exact Hsees'|split; congruence]].
      rewrite Hconn', Hconn, <- app_assoc. reflexivity.
Qed.

(** X8: With a writer that succeeds, the relay writes one frame for each
    message it takes, in the order it takes them, and each channel gives
    its messages oldest first: the frames written are the two queues
    merged, the frames of either topic appear in publish order, and what
    was not taken stays queued.  The relay stays subscribed and logs
    nothing. *)
Theorem streamer_relays_in_order rl x ms es (ticks : list ready) :
  relay_sees rl (the_bus x) ms es →
  count_in ticks ≤ length ms →
  count_out ticks ≤ length es →
  ∃ x',
    loop ticks rl x = (Looping, x')
    ∧ conn x' = conn x ++ weave ticks (frame_in TypeString Sdump <$> ms)
                            (frame_out TypeString Sdump HostString <$> es)
    ∧ length (conn x') = length (conn x) + length ticks
    ∧ frame_in TypeString Sdump <$> take (count_in ticks) ms
      `sublist_of` weave ticks (frame_in TypeString Sdump <$> ms)
                     (frame_out TypeString Sdump HostString <$> es)
    ∧ frame_out TypeString Sdump HostString <$> take (count_out ticks) es
      `sublist_of` weave ticks (frame_in TypeString Sdump <$> ms)
                     (frame_out TypeString Sdump HostString <$> es)
    ∧ relay_sees rl (the_bus x') (drop (count_in ticks) ms)
                 (drop (count_out ticks) es)
    ∧ events (the_bus x') = events (the_bus x)
    ∧ hub_logs x' = hub_logs x.
Proof.
  intros Hsees Hi Ho.
  destruct (streamer_loop_weave ticks rl x ms es Hsees Hi Ho)
    as (x' & Hrun & Hconn & Hs & He & Hl).
  exists x'. split; [exact Hrun|]. split; [exact Hconn|].
  split; [|split; [|split; [|auto]]].
  - rewrite Hconn, length_app, weave_length; rewrite ?length_fmap; lia.
  - rewrite fmap_take. apply weave_keeps_in; rewrite length_fmap; lia.
  - rewrite fmap_take. apply weave_keeps_out; rewrite length_fmap; lia.
Qed.

(** X9: The relay gives up its subscriptions only when its writer fails: an
    iteration that goes on, one that panics (a value of a foreign type,
    a nil payload) and a case that is not ready leave the table of
    observers as it was, channels of the relay included; an iteration
    that ends in the failure branch has removed both channels from it. *)
Theorem streamer_unsubscribes_only_on_write_failure {Conn : Type}
    (writer : gmap string string → Conn → Conn * option string)
    (rl : relay) (t : ready)
    (x : hub (Payload := Payload) (Host := Host) (Conn := Conn)) :
  let r := streamer_step TypeString Sdump HostString writer stop_closes rl t x in
  match r.1 with
  | Looping | Panicked | NotReady =>
      events (the_bus r.2) = events (the_bus x)
  | Returned | BlockedInDrain =>
      (∀ l, events (the_bus r.2) !! "inbox"%string = Some l → inbox rl ∉ l)
      ∧ (∀ l, events (the_bus r.2) !! "outbox"%string = Some l → outbox rl ∉ l)
  end.
Proof.
  cbv zeta. unfold streamer_step.
  destruct (heap (the_bus x) !! _) as [c|]; [|reflexivity].
  destruct (recv VNil c) as [[obj c']|]; [|reflexivity].
  set (x1 := {| the_bus := _; conn := conn x; hub_logs := hub_logs x |}).
  assert (∀ (sel : option (option Payload * string)),
            let r := match sel with
                     | Some (Some data, host) =>
                         let '(cn, err) :=
                           writer {[ "type"%string := TypeString data;
                                     "dump"%string := Sdump data;
                                     "host"%string := host ]} (conn x1) in
                         match err with
                         | None => (Looping,
                                    {| the_bus := the_bus x1; conn := cn;
                                       hub_logs := hub_logs x1 |})
                         | Some _ =>
                             teardown stop_closes rl
                               {| the_bus := the_bus x1; conn := cn;
                                  hub_logs := hub_logs x1 |}
                         end
                     | _ => (Panicked, x1)
                     end in
            match r.1 with
            | Looping | Panicked | NotReady =>
                events (the_bus r.2) = events (the_bus x)
            | Returned | BlockedInDrain =>
                (∀ l, events (the_bus r.2) !! "inbox"%string = Some l
                      → inbox rl ∉ l)
                ∧ (∀ l, events (the_bus r.2) !! "outbox"%string = Some l
                        → outbox rl ∉ l)
            end) as Hsel.
  { intros [[[data|] host]|]; cbv zeta; try reflexivity.
    destruct (writer _ (conn x1)) as [cn [err|]]; [|reflexivity].
    destruct (teardown stop_closes rl _) as [o x2] eqn:Ht. cbn [fst snd].
    destruct o; try (eapply teardown_unsubscribes; [exact Ht | discriminate]).
    - unfold teardown in Ht.
      repeat match type of Ht with
             | context [match ?u with _ => _ end] => destruct u
             end; discriminate.
    - unfold teardown in Ht.
      repeat match type of Ht with
             | context [match ?u with _ => _ end] => destruct u
             end; try discriminate; injection Ht as <-; reflexivity.
    - unfold teardown in Ht.
      repeat match type of Ht with
             | context [match ?u with _ => _ end] => destruct u
             end; discriminate. }
  apply Hsel.
Qed.

End RelayFacts.

(** ** strconv *)

Section StrconvFacts.
Import Web.
Local Open Scope Z_scope.

Example ParseUint_examples :
  ParseUint "123" 10 64 = (123, None)
  ∧ ParseUint EmptyString 10 64 = (0, Some ErrSyntax)
  ∧ ParseUint "12a" 10 64 = (0, Some ErrSyntax)
  ∧ ParseUint "-1" 10 64 = (0, Some ErrSyntax)
  ∧ ParseUint "18446744073709551615" 10 64 = (18446744073709551615, None)
  ∧ ParseUint "18446744073709551616" 10 64
    = (18446744073709551615, Some ErrRange).
Proof. vm_compute. auto 10. Qed.

Example ParseInt_examples :
  ParseInt "-12" 10 32 = (-12, None)
  ∧ ParseInt "+7" 10 32 = (7, None)
  ∧ ParseInt EmptyString 10 32 = (0, Some ErrSyntax)
  ∧ ParseInt "x" 10 32 = (0, Some ErrSyntax)
  ∧ ParseInt "2147483648" 10 32 = (2147483647, Some ErrRange)
  ∧ ParseInt "-2147483649" 10 32 = (-2147483648, Some ErrRange)
  ∧ ParseInt "-2147483648" 10 32 = (-2147483648, None).
Proof. vm_compute. auto 10. Qed.

Lemma ParseUint_loop_range (base cutoff maxVal : Z) (s : list ascii) (n : Z) :
  0 <= n < 2 ^ 64 →
  0 <= (ParseUint_loop base cutoff maxVal s n).1 < 2 ^ 64.
Proof.
  revert n. induction s as [|d s IH]; intros n Hn; cbn [ParseUint_loop].
  - exact Hn.
  - destruct (digit_value d) as [v|]; [|cbn; lia].
    destruct (base <=? v); [cbn; lia|].
    destruct (cutoff <=? n); [cbn; lia|].
    cbv zeta. destruct (_ || _); [cbn; lia|].
    apply IH. apply Z.mod_pos_bound. lia.
Qed.

(** Whatever the text, [ParseUint] gives an unsigned 64-bit value. *)
Lemma ParseUint_range (s : string) (base bitSize : Z) :
  0 <= (ParseUint s base bitSize).1 < 2 ^ 64.
Proof.
  unfold ParseUint. destruct (list_ascii_of_string s) as [|c cs]; [cbn; lia|].
  apply ParseUint_loop_range. lia.
Qed.

(** Whatever the text, [ParseInt] with 32 bits gives a signed 32-bit
    value. *)
Lemma ParseInt_range_32 (s : string) (base : Z) :
  - 2 ^ 31 <= (ParseInt s base 32).1 < 2 ^ 31.
Proof.
  unfold ParseInt. destruct s as [|c s']; [cbn; lia|].
  cbv zeta.
  set (digits := if _ || _ then s' else String c s').
  pose proof (ParseUint_range digits base 32) as Hun.
  destruct (ParseUint digits base 32) as [un err]. cbn [fst] in Hun.
  change (2 ^ (32 - 1)) with (2 ^ 31).
  assert (∀ b : bool,
            - 2 ^ 31 <= (if negb b && (2 ^ 31 <=? un)
                         then (2 ^ 31 - 1, Some ErrRange)
                         else if b && (2 ^ 31 <? un)
                              then (- 2 ^ 31, Some ErrRange)
                              else (if b then - un else un, None)).1
                        < 2 ^ 31) as Hclamp.
  { intros [|]; cbn [negb andb].
    - destruct (Z.ltb_spec (2 ^ 31) un); cbn [fst]; lia.
    - destruct (Z.leb_spec (2 ^ 31) un); cbn [fst]; lia. }
  destruct err as [[|]|]; [cbn; lia | apply Hclamp | apply Hclamp].
Qed.

End StrconvFacts.

(** ** The request handlers *)

Section HandlerFacts.
Import Web Handlers.
Context `{Externals} `{!Service}.


Lemma status_WriteHeader code w :
  status (WriteHeader code w) = Some (default code (status w)).
Proof. unfold WriteHeader. destruct (status w) eqn:Hs; cbn; auto. Qed.

Lemma body_WriteHeader code w : body (WriteHeader code w) = body w.
Proof. unfold WriteHeader. destruct (status w); reflexivity. Qed.

Lemma status_Write p w : status (Write p w) = Some (default 200 (status w)).
Proof. unfold Write. cbn [status]. apply status_WriteHeader. Qed.

Lemma body_Write p w : body (Write p w) = (body w ++ p)%string.
Proof. unfold Write. cbn [body]. rewrite body_WriteHeader. reflexivity. Qed.

Lemma status_Error msg code w :
  status (Error msg code w) = Some (default code (status w)).
Proof.
  unfold Error. rewrite status_Write, status_WriteHeader. reflexivity.
Qed.

Lemma body_Error msg code w :
  body (Error msg code w) = (body w ++ msg ++ nl)%string.
Proof. unfold Error. rewrite body_Write, body_WriteHeader. reflexivity. Qed.

Lemma eqb_false_ne (a b : string) : a ≠ b → String.eqb a b = false.
Proof. intros Hne. apply String.eqb_neq, Hne. Qed.


Lemma calls_Encode m x : calls (Encode m x).1 = calls x.
Proof. destruct m; reflexivity. Qed.

(** X10: A handler for posted data does nothing but answer 405 when the
    method is another one: no call on the service, nothing logged.  The
    comparison is exact, so "post" is not "POST". *)
Theorem post_handlers_reject_other_methods (r : Request) (x : world) :
  Method r ≠ "POST"%string →
  Forall (λ h : Request → world → outcome * world,
            h r x = (Done, respond (Error "Only POST allowed" 405) x))
         [HandleMessage; HandleBatch; HandleQuery; HandleSetBit].
Proof.
  intros Hm%eqb_false_ne.
  repeat (constructor;
          [unfold HandleMessage, HandleBatch, HandleQuery, HandleSetBit;
           rewrite Hm; reflexivity|]);
    constructor.
Qed.

(** X11: A handler that only reports does nothing but answer 405 when the
    method is not "GET": no call on the service or on the transport,
    nothing dumped. *)
Theorem get_handlers_reject_other_methods (r : Request) (x : world) :
  Method r ≠ "GET"%string →
  Forall (λ h : Request → world → outcome * world,
            h r x = (Done, respond (Error "Only GET allowed" 405) x))
         [HandleStats; HandleInfo; HandleVersion; HandleTest;
          HandleProcesses; HandlePing].
Proof.
  intros Hm%eqb_false_ne.
  repeat (constructor;
          [unfold HandleStats, HandleInfo, HandleVersion, HandleTest,
             HandleProcesses, HandlePing;
           rewrite Hm; reflexivity|]);
    constructor.
Qed.

(** The calls [HandleBatch] makes. *)
Lemma HandleBatch_calls (r : Request) (x : world) :
  calls (HandleBatch r x).2
  = (if bool_decide (Method r = "POST"%string ∧ form_err r = None
                     ∧ Get (Form r) "db" ≠ EmptyString
                     ∧ Get (Form r) "id" ≠ EmptyString)
     then calls x
          ++ [CBatch (Get (Form r) "db") (Get (Form r) "frame")
                     (Get (Form r) "bitmap")
                     (ParseUint (Get (Form r) "id") 10 64).1
                     (ParseInt (Get (Form r) "slice") 10 32).1
                     ((ParseInt (Get (Form r) "filter") 10 32).1
                        `mod` 2 ^ 64)%Z]
     else calls x).
Proof.
  unfold HandleBatch.
  destruct (String.eqb_spec (Method r) "POST") as [Hm|Hm]; cbn [negb];
    [|rewrite bool_decide_eq_false_2 by tauto; reflexivity].
  destruct (form_err r) as [err|] eqn:He;
    [rewrite bool_decide_eq_false_2 by (intros (_ & ? & _); discriminate);
     reflexivity|].
  destruct (String.eqb_spec (Get (Form r) "db") EmptyString) as [Hd|Hd];
    [rewrite bool_decide_eq_false_2 by tauto; reflexivity|].
  destruct (String.eqb_spec (Get (Form r) "id") EmptyString) as [Hi|Hi];
    [rewrite bool_decide_eq_false_2 by tauto; reflexivity|].
  rewrite bool_decide_eq_true_2 by tauto.
  match goal with
  | |- context [Encode ?m ?y] =>
      pose proof (calls_Encode m y) as Hc; destruct (Encode m y) as [y' [e|]]
  end; cbn [fst snd] in *.
  - rewrite calls_Encode. cbn [Println calls]. exact Hc.
  - exact Hc.
Qed.

(** X12: [HandleBatch] turns away a request only for its method, a form that
    does not parse, a missing "db" or a missing "id".  The four later
    tests look at the id again, so a request without "slice", "frame",
    "bitmap" or "filter" reaches [Batch], with an empty text or 0 in
    their place. *)
Theorem HandleBatch_checks_db_and_id_only (r : Request) (x : world) :
  let db := Get (Form r) "db" in
  let id := Get (Form r) "id" in
  calls (HandleBatch r x).2
  = (if bool_decide (Method r = "POST"%string ∧ form_err r = None
                     ∧ db ≠ EmptyString ∧ id ≠ EmptyString)
     then calls x
          ++ [CBatch db (Get (Form r) "frame") (Get (Form r) "bitmap")
                     (ParseUint id 10 64).1
                     (ParseInt (Get (Form r) "slice") 10 32).1
                     ((ParseInt (Get (Form r) "filter") 10 32).1 `mod` 2 ^ 64)%Z]
     else calls x)
  ∧ (∀ d i : string,
       Method r = "POST"%string → form_err r = None →
       d ≠ EmptyString → i ≠ EmptyString →
       Form r = {[ "db"%string := [d]; "id"%string := [i] ]} →
       calls (HandleBatch r x).2
       = calls x ++ [CBatch d EmptyString EmptyString
                            (ParseUint i 10 64).1 0 0]).
Proof.
  cbv zeta. split; [apply HandleBatch_calls|].
  intros d i Hm He Hd Hi HF. rewrite HandleBatch_calls.
  assert (Get (Form r) "db" = d) as -> by (rewrite HF; reflexivity).
  assert (Get (Form r) "id" = i) as -> by (rewrite HF; reflexivity).
  assert (Get (Form r) "frame" = EmptyString) as -> by (rewrite HF; reflexivity).
  assert (Get (Form r) "bitmap" = EmptyString) as -> by (rewrite HF; reflexivity).
  assert (Get (Form r) "slice" = EmptyString) as -> by (rewrite HF; reflexivity).
  assert (Get (Form r) "filter" = EmptyString) as -> by (rewrite HF; reflexivity).
  rewrite bool_decide_eq_true_2 by tauto. reflexivity.
Qed.

(** X13: The numbers [HandleBatch] passes to [Batch] are machine integers
    whatever the form holds: the id an unsigned 64-bit value, the slice a
    signed 32-bit value, and the filter a signed 32-bit value converted to
    unsigned, so either below 2^31 or among the top 2^31 values. *)
Theorem HandleBatch_argument_ranges (r : Request) (x : world)
    (db frame bitmap : string) (id slice filter : Z) :
  calls (HandleBatch r x).2 = calls x ++ [CBatch db frame bitmap id slice filter] →
  (0 ≤ id < 2 ^ 64)%Z
  ∧ (- 2 ^ 31 ≤ slice < 2 ^ 31)%Z
  ∧ ((0 ≤ filter < 2 ^ 31)%Z ∨ (2 ^ 64 - 2 ^ 31 ≤ filter < 2 ^ 64)%Z).
Proof.
  rewrite HandleBatch_calls. case_bool_decide as Hok.
  - intros Heq%app_inv_head. injection Heq as <- <- <- <- <- <-.
    pose proof (ParseUint_range (Get (Form r) "id") 10 64).
    pose proof (ParseInt_range_32 (Get (Form r) "slice") 10).
    pose proof (ParseInt_range_32 (Get (Form r) "filter") 10) as Hf.
    split; [assumption|]. split; [assumption|].
    set (f := (ParseInt (Get (Form r) "filter") 10 32).1) in *.
    clearbody f. Z.div_mod_to_equations. lia.
  - intros Heq. apply (f_equal length) in Heq.
    rewrite length_app in Heq. cbn in Heq. lia.
Qed.



(** [set_ids] answers only when the executor fails, and then with
    status 500. *)
Lemma set_ids_resp db frame filter profile_id ids results x :
  match set_ids db frame filter profile_id ids results x with
  | inl (_, x') => resp x' = resp x
  | inr (o, x') =>
      o = Done ∧ ∃ e, resp x' = Error e StatusInternalServerError (resp x)
  end.
Proof.
  revert results x. induction ids as [|b ids IH]; intros results x.
  - reflexivity.
  - cbn [set_ids]. destruct (RunPQL _ _ _) as [result [e|]].
    + split; [reflexivity|]. exists e. reflexivity.
    + match goal with |- context [set_ids _ _ _ _ ids ?rs ?y] =>
        specialize (IH rs y); destruct (set_ids _ _ _ _ ids rs y)
          as [[rs' x']|[o x']] end; exact IH.
Qed.

Lemma set_objects_resp args results x :
  match set_objects args results x with
  | inl (_, x') => resp x' = resp x
  | inr (o, x') =>
      (o = Panic ∨ o = Crash) ∧ resp x' = resp x
      ∨ o = Done ∧ ∃ e, resp x' = Error e StatusInternalServerError (resp x)
  end.
Proof.
  revert results x. induction args as [|obj args IH]; intros results x.
  - reflexivity.
  - cbn [set_objects].
    destruct (is_nil (obj !! "profile_id"%string)); [left; auto|].
    destruct (obj !! "profile_id"%string) as [[| |p| |]|]; try (left; auto).
    destruct (is_nil (obj !! "db"%string)); [left; auto|].
    destruct (obj !! "db"%string) as [[| | |db|]|]; try (left; auto).
    destruct (is_nil (obj !! "frame"%string)); [left; auto|].
    destruct (obj !! "frame"%string) as [[| | |frame|]|]; try (left; auto).
    destruct (is_nil (obj !! "filter"%string)); [left; auto|].
    destruct (obj !! "filter"%string) as [[| |f| |]|]; try (left; auto).
    destruct (bitmaps frame obj) as [ids|]; [|left; auto].
    pose proof (set_ids_resp db frame (to_int f) (to_uint64 p) ids results x)
      as Hids.
    destruct (set_ids _ _ _ _ ids results x) as [[rs x1]|[o x1]].
    + specialize (IH rs x1).
      destruct (set_objects args rs x1) as [[rs' x2]|[o x2]];
        rewrite <- Hids; exact IH.
    + right. exact Hids.
Qed.

Lemma set_objects_lacking args results x :
  Exists (λ obj, lacks_field obj = true) args →
  ∃ stopped, set_objects args results x = inr stopped.
Proof.
  revert results x. induction args as [|obj args IH]; intros results x Hex.
  - inversion Hex.
  - assert (lacks_field obj = true ∨ Exists (λ obj, lacks_field obj = true) args)
      as [Hl|Htl] by (inversion Hex; auto).
    + cbn [set_objects]. unfold lacks_field in Hl.
      destruct (is_nil (obj !! "profile_id"%string)); [eauto|].
      destruct (obj !! "profile_id"%string) as [[| |p| |]|]; try (eauto; fail).
      destruct (is_nil (obj !! "db"%string)); [eauto|].
      destruct (obj !! "db"%string) as [[| | |db|]|]; try (eauto; fail).
      destruct (is_nil (obj !! "frame"%string)); [eauto|].
      destruct (obj !! "frame"%string) as [[| | |frame|]|]; try (eauto; fail).
      destruct (is_nil (obj !! "filter"%string)); [eauto|].
      discriminate.
    + cbn [set_objects].
      destruct (is_nil (obj !! "profile_id"%string)); [eauto|].
      destruct (obj !! "profile_id"%string) as [[| |p| |]|]; try (eauto; fail).
      destruct (is_nil (obj !! "db"%string)); [eauto|].
      destruct (obj !! "db"%string) as [[| | |db|]|]; try (eauto; fail).
      destruct (is_nil (obj !! "frame"%string)); [eauto|].
      destruct (obj !! "frame"%string) as [[| | |frame|]|]; try (eauto; fail).
      destruct (is_nil (obj !! "filter"%string)); [eauto|].
      destruct (obj !! "filter"%string) as [[| |f| |]|]; try (eauto; fail).
      destruct (bitmaps frame obj) as [ids|]; [|eauto].
      destruct (set_ids _ _ _ _ ids results x) as [[rs x1]|[o x1]]; [|eauto].
      apply IH, Htl.
Qed.

(** X15: A set-bits request with an object that lacks "profile_id", "db",
    "frame" or "filter" is never answered 400.  The handler panics where
    it reads the message of the decoder's nil error, or the process dies
    in [bitmaps], both with nothing written; or an earlier object made
    the executor fail and the answer is 500.  The encoded results are
    never written. *)
Theorem HandleSetBit_missing_field (r : Request) (x : world)
    (args : list (gmap string (jvalue float64))) :
  Method r = "POST"%string →
  decode_args (body_ r) = inl args →
  Exists (λ obj, lacks_field obj = true) args →
  match HandleSetBit r x with
  | (Panic, x') | (Crash, x') => resp x' = resp x
  | (Done, x') =>
      ∃ e, resp x' = Error e StatusInternalServerError (resp x)
  | (Exit, _) => False
  end
  ∧ (∀ obj rest, args = obj :: rest → lacks_field obj = true →
     HandleSetBit r x = (Panic, x)).
Proof.
  intros Hm Hd Hex. unfold HandleSetBit.
  rewrite Hm, String.eqb_refl, Hd. cbn [negb]. split.
  - destruct (set_objects_lacking args [] x Hex) as ([o x'] & Hst).
    pose proof (set_objects_resp args [] x) as Hr. rewrite Hst in *.
    destruct Hr as [[[-> | ->] Hr] | [-> Hr]]; assumption.
  - intros obj rest -> Hl. cbn [set_objects]. unfold lacks_field in Hl.
    destruct (is_nil (obj !! "profile_id"%string)); [reflexivity|].
    destruct (obj !! "profile_id"%string) as [[| |p| |]|]; try reflexivity.
    destruct (is_nil (obj !! "db"%string)); [reflexivity|].
    destruct (obj !! "db"%string) as [[| | |db|]|]; try reflexivity.
    destruct (is_nil (obj !! "frame"%string)); [reflexivity|].
    destruct (obj !! "frame"%string) as [[| | |frame|]|]; try reflexivity.
    destruct (is_nil (obj !! "filter"%string)); [reflexivity|].
    discriminate.
Qed.




(** X18: What [HandlePing] answers and whom it calls.  The process is looked
    up before it is pinged, and pinged only when the lookup succeeds; a
    ping that fails is still answered with status 200, the dump of the
    error as its body. *)
Theorem HandlePing_status (r : Request) (x : world) :
  status (resp x) = None →
  let x' := (HandlePing r x).2 in
  if negb (String.eqb (Method r) "GET") then
    status (resp x') = Some 405 ∧ calls x' = calls x
  else
    match form_err r, ParseGUID (Get (Form r) "process") with
    | Some _, _ | None, inr _ => status (resp x') = Some 400 ∧ calls x' = calls x
    | None, inl id =>
        match GetProcess (calls x) id with
        | Some _ =>
            status (resp x') = Some 404 ∧ calls x' = calls x ++ [CGetProcess id]
        | None =>
            status (resp x') = Some 200
            ∧ calls x' = calls x ++ [CGetProcess id; CPing id]
            ∧ body (resp x')
              = (body (resp x)
                 ++ match Ping (calls x ++ [CGetProcess id]) id with
                    | inr err => Sdump_error err
                    | inl d => encode_duration d ++ nl
                    end)%string
        end
    end.
Proof.
  intros Hs. cbv zeta. unfold HandlePing.
  destruct (negb (String.eqb (Method r) "GET")).
  - cbn [snd respond resp calls]. rewrite status_Error, Hs. auto.
  - destruct (form_err r) as [err|].
    + cbn [snd respond resp calls]. rewrite status_Error, Hs. auto.
    + destruct (ParseGUID (Get (Form r) "process")) as [id|err].
      * destruct (GetProcess (calls x) id) as [err|].
        -- cbn [snd respond resp calls called]. rewrite status_Error, Hs. auto.
        -- cbn [called calls].
           destruct (Ping (calls x ++ [CGetProcess id]) id) as [d|err];
             cbn [snd respond resp calls called];
             rewrite status_Write, body_Write, Hs, <- app_assoc; auto.
      * cbn [snd respond resp calls]. rewrite status_Error, Hs. auto.
Qed.

(** X19: A result that cannot be encoded: [HandleStats] ends the process with
    nothing answered, [HandleProcesses] answers 400, and [HandleBatch]
    logs the form and answers the text "Bad Batch Request" with status
    200. *)
Theorem unencodable_result_by_handler (r : Request) (x : world) (e : string) :
  status (resp x) = None →
  (Method r = "GET"%string → Marshal (ReadMemStats (calls x)) = inr e →
   (HandleStats r x).1 = Exit ∧ resp (HandleStats r x).2 = resp x)
  ∧ (Method r = "GET"%string → Marshal (GetMetadata (calls x)) = inr e →
     (HandleProcesses r x).1 = Done
     ∧ status (resp (HandleProcesses r x).2) = Some 400
     ∧ body (resp (HandleProcesses r x).2)
       = (body (resp x) ++ "Error Encoding" ++ nl)%string)
  ∧ (Method r = "POST"%string → form_err r = None →
     Get (Form r) "db" ≠ EmptyString → Get (Form r) "id" ≠ EmptyString →
     Marshal (Batch (calls x) (Get (Form r) "db") (Get (Form r) "frame")
                    (Get (Form r) "bitmap")
                    (ParseUint (Get (Form r) "id") 10 64).1
                    (ParseInt (Get (Form r) "slice") 10 32).1
                    ((ParseInt (Get (Form r) "filter") 10 32).1 `mod` 2 ^ 64)%Z)
     = inr e →
     (HandleBatch r x).1 = Done
     ∧ status (resp (HandleBatch r x).2) = Some 200
     ∧ body (resp (HandleBatch r x).2)
       = (body (resp x)
          ++ String "034" ("Bad Batch Request" ++ String "034" nl))%string
     ∧ log (HandleBatch r x).2
       = log x ++ ["Error Batch results"%string; Sdump_form (Form r)]).
Proof.
  intros Hs. split; [|split].
  - intros Hm He. unfold HandleStats. rewrite Hm, String.eqb_refl. cbn [negb].
    rewrite He. cbn. auto.
  - intros Hm He. unfold HandleProcesses.
    rewrite Hm, String.eqb_refl. cbn [negb]. rewrite He.
    cbn [Encode fst snd respond resp called].
    rewrite status_Error, body_Error, Hs. auto.
  - intros Hm Hf Hd Hi He. unfold HandleBatch.
    rewrite Hm, String.eqb_refl, Hf, (eqb_false_ne _ _ Hd),
      (eqb_false_ne _ _ Hi). cbn [negb]. rewrite He.
    cbn [Encode fst snd respond resp called Println log].
    rewrite status_Write, body_Write, Hs. split; [reflexivity|].
    split; [reflexivity|]. split; [|rewrite <- app_assoc; reflexivity].
    f_equal.
Qed.


End HandlerFacts.

(** ** The server *)

Section ServerFacts.
Import Server.
Context `{Clock} `{Gzip} `{!Json} `{Config}.
Context {Request ResponseWriter : Type}.
Variable DumpRequest : Request → Request * Adapter.dump_result.
Variable HandleSetBit :
  ResponseWriter → Request → option (ResponseWriter * Request).
Variable log_set_bit : Z.
Variable id : string.

Local Abbreviation step := (step DumpRequest HandleSetBit log_set_bit id).
Local Abbreviation run := (run DumpRequest HandleSetBit log_set_bit id).
Local Abbreviation sent :=
  (sent (ResponseWriter := ResponseWriter) DumpRequest log_set_bit).

Lemma Run_ok : server_ok Run.
Proof.
  unfold server_ok, Run. cbn. split; [reflexivity|]. split; [reflexivity|].
  split; [lia|]. apply Logger_init_ok.
Qed.

Lemma run_app (a1 a2 : list action) (srv : server) :
  run (a1 ++ a2) srv = run a1 srv ≫= run a2.
Proof.
  revert srv. induction a1 as [|a a1 IH]; intros srv; [reflexivity|].
  cbn [app Server.run]. destruct (step a srv) as [srv'|]; [apply IH|reflexivity].
Qed.

Lemma sent_cons (a : action) (acts : list action) :
  sent (a :: acts) = sent [a] ++ sent acts.
Proof.
  unfold Server.sent. destruct (log_set_bit =? 1)%Z; [|reflexivity].
  cbn [flat_map]. rewrite app_nil_r. reflexivity.
Qed.

(** A request that comes to its end through the adapter has put its dump
    last in the channel, which had room for it. *)
Lemma Handle_Handled_queue (x x' : Adapter.exchange) :
  Adapter.Handle DumpRequest HandleSetBit x = Adapter.Handled x' →
  queue (Adapter.logger x')
  = queue (Adapter.logger x) ++ [dump_of DumpRequest (Adapter.r x)]
  ∧ cap (Adapter.logger x') = cap (Adapter.logger x)
  ∧ closed (Adapter.logger x') = closed (Adapter.logger x)
  ∧ length (queue (Adapter.logger x)) < cap (Adapter.logger x).
Proof.
  unfold Adapter.Handle, dump_of.
  destruct (DumpRequest (Adapter.r x)) as [r1 res]. cbn [snd].
  destruct (HandleSetBit (Adapter.w x) r1) as [[w2 r2]|]; [|discriminate].
  unfold send. case_bool_decide as Hroom; [|discriminate].
  intros [= <-]. cbn [Adapter.logger queue cap closed]. auto.
Qed.

(** One action: the channel passes on what it is sent, the worker
    archives what it takes. *)
Lemma step_accounts (a : action) (srv srv' : server) :
  server_ok srv →
  step a srv = Some srv' →
  server_ok srv'
  ∧ ∃ evs : list (list byte * env),
      queue (logger_chan srv) ++ sent [a] = evs.*1 ++ queue (logger_chan srv')
      ∧ length evs ≤ 1
      ∧ (creates a = true →
         archived srv' = archived srv ++ lines_of (records evs))
      ∧ (worker srv ≠ Returned ∨ worker srv' = Returned)
      ∧ (∀ st, worker srv' = Running st → ∃ st0, worker srv = Running st0).
Proof.
  intros (Hcap & Hcl & Hlen & Hw) Hstep. destruct a as [w r|e|e|e]; cbn [Server.step] in Hstep.
  - unfold set_bits, Server.sent in *.
    destruct (log_set_bit =? 1)%Z.
    + destruct (Adapter.Handle _ _ _) as [x'| |] eqn:Hh; try discriminate.
      apply Handle_Handled_queue in Hh as (Hq' & Hcap' & Hcl' & Hroom).
      cbn [Adapter.logger Adapter.r] in Hq', Hcap', Hcl', Hroom.
      injection Hstep as <-. split.
      * unfold server_ok. cbn [logger_chan worker].
        rewrite Hq', Hcap', Hcl', length_app. cbn [length].
        rewrite Hcap in Hroom.
        split; [exact Hcap|]. split; [exact Hcl|]. split; [lia | exact Hw].
      * exists []. cbn [logger_chan flat_map fmap list_fmap app].
        rewrite app_nil_r, Hq'.
        split; [reflexivity|]. split; [cbn; lia|].
        split; [|split; [|eauto]].
        -- intros _. unfold archived. cbn [worker disk records map].
           rewrite ?lines_of_nil, ?app_nil_r. reflexivity.
        -- cbn [worker]. destruct (worker srv); auto; left; discriminate.
    + destruct (HandleSetBit w r); [|discriminate]. injection Hstep as <-.
      split; [split; [|split; [|split]]; assumption|].
      exists []. rewrite app_nil_r. split; [reflexivity|]. split; [cbn; lia|].
      split; [|split; [|eauto]].
      * intros _. cbn [records map]. rewrite lines_of_nil, app_nil_r.
        reflexivity.
      * destruct (worker srv); auto; left; discriminate.
  - unfold Flusher_Handle, serve in Hstep.
    destruct (worker srv) as [st| |] eqn:Hwk; try discriminate.
    rewrite Logger_step_Flusher in Hstep by exact Hw.
    assert (sent [Flush e] = []) as ->
      by (unfold Server.sent; destruct (log_set_bit =? 1)%Z; reflexivity).
    rewrite app_nil_r.
    case_bool_decide as Hpos; injection Hstep as <-.
    + split.
      { split; [exact Hcap|]. split; [exact Hcl|]. split; [exact Hlen|].
        cbn [worker]. destruct Hw. split; cbn; [assumption | lia]. }
      exists []. split; [reflexivity|]. split; [cbn; lia|].
      split; [|split; [left; discriminate | eauto]].
      cbn [creates]. intros Hc%bool_decide_eq_true.
      unfold archived. cbn [worker disk logger_chan]. rewrite Hwk.
      rewrite held_reset, lines_of_nil, !app_nil_r.
      apply written_after_flush_created, Hc.
    + split.
      { split; [exact Hcap|]. split; [exact Hcl|]. split; [exact Hlen|].
        cbn [worker]. exact Hw. }
      exists []. split; [reflexivity|]. split; [cbn; lia|].
      split; [|split; [left; discriminate | eauto]].
      intros _. unfold archived. cbn [worker disk]. rewrite Hwk.
      cbn [records map]. rewrite ?lines_of_nil, ?app_nil_r. reflexivity.
  - unfold Shutdown, serve in Hstep.
    destruct (worker srv) as [st| |] eqn:Hwk; try discriminate.
    rewrite Logger_step_End in Hstep by exact Hw. injection Hstep as <-.
    assert (sent [Stop e] = []) as ->
      by (unfold Server.sent; destruct (log_set_bit =? 1)%Z; reflexivity).
    rewrite app_nil_r. split.
    { split; [exact Hcap|]. split; [exact Hcl|]. split; [exact Hlen|].
      exact I. }
    exists []. split; [reflexivity|]. split; [cbn; lia|].
    split; [|split; [right; reflexivity | intros ? [=]]].
    cbn [creates]. intros Hc%bool_decide_eq_true.
    unfold archived. cbn [worker disk]. rewrite Hwk.
    rewrite written_Println, written_after_flush_created by exact Hc.
    cbn [records map]. rewrite ?lines_of_nil, ?app_nil_r. reflexivity.
  - unfold take_in, recv in Hstep.
    destruct (queue (logger_chan srv)) as [|raw q] eqn:Hq.
    { rewrite Hcl in Hstep. discriminate. }
    unfold serve in Hstep. cbn [worker disk logger_chan] in Hstep.
    destruct (worker srv) as [st| |] eqn:Hwk; try discriminate.
    rewrite Logger_step_Raw in Hstep by exact Hw. cbv zeta in Hstep.
    assert (sent [TakeIn e] = []) as ->
      by (unfold Server.sent; destruct (log_set_bit =? 1)%Z; reflexivity).
    rewrite app_nil_r. pose proof Hw as [Hbl Hbi].
    cbn [length] in Hlen.
    case_bool_decide as Hlt; injection Hstep as <-.
    + split.
      { split; [exact Hcap|]. split; [exact Hcl|]. split; [cbn; lia|].
        cbn [worker]. split; cbn; [rewrite length_insert|]; lia. }
      exists [(raw, e)]. split; [reflexivity|]. split; [cbn; lia|].
      split; [|split; [left; discriminate | eauto]].
      intros _. unfold archived. cbn [worker disk]. rewrite Hwk.
      rewrite held_stored by lia. cbn [records map fst snd].
      rewrite lines_of_app, app_assoc. reflexivity.
    + split.
      { split; [exact Hcap|]. split; [exact Hcl|]. split; [cbn; lia|].
        cbn [worker]. split; cbn; [rewrite length_insert|]; lia. }
      exists [(raw, e)]. split; [reflexivity|]. split; [cbn; lia|].
      split; [|split; [left; discriminate | eauto]].
      cbn [creates]. intros Hc%bool_decide_eq_true.
      unfold archived. cbn [worker disk]. rewrite Hwk.
      rewrite held_reset, lines_of_nil, app_nil_r.
      rewrite written_after_flush_created by exact Hc.
      cbn [records map fst snd]. rewrite lines_of_app, app_assoc. reflexivity.
Qed.

Lemma run_accounts (acts : list action) (srv srv' : server) :
  server_ok srv →
  run acts srv = Some srv' →
  server_ok srv'
  ∧ ∃ evs : list (list byte * env),
      queue (logger_chan srv) ++ sent acts = evs.*1 ++ queue (logger_chan srv')
      ∧ (forallb creates acts = true →
         archived srv' = archived srv ++ lines_of (records evs)).
Proof.
  revert srv. induction acts as [|a acts IH]; intros srv Hok Hrun.
  - injection Hrun as <-. split; [exact Hok|]. exists [].
    assert (sent [] = []) as ->
      by (unfold Server.sent; destruct (log_set_bit =? 1)%Z; reflexivity).
    rewrite app_nil_r. split; [reflexivity|]. intros _.
    cbn [records map]. rewrite ?lines_of_nil, ?app_nil_r. reflexivity.
  - cbn [Server.run] in Hrun. destruct (step a srv) as [srv1|] eqn:Hstep;
      [|discriminate].
    destruct (step_accounts a srv srv1 Hok Hstep)
      as (Hok1 & evs1 & Hq1 & _ & Ha1 & _).
    destruct (IH srv1 Hok1 Hrun) as (Hok' & evs2 & Hq2 & Ha2).
    split; [exact Hok'|]. exists (evs1 ++ evs2). split.
    + rewrite sent_cons, app_assoc, Hq1, <- app_assoc, Hq2, fmap_app, app_assoc.
      reflexivity.
    + cbn [forallb]. intros [Hc Hcs]%andb_true_iff.
      rewrite (Ha2 Hcs), (Ha1 Hc). unfold records. rewrite map_app.
      rewrite lines_of_app, app_assoc. reflexivity.
Qed.

(** X20: From request to file, nothing is lost, repeated or reordered while
    files can be created: however the requests to "/set_bits" and
    "/flush", the shutdown and the worker's receives follow one another,
    the dumps sent so far are those the worker has taken followed by
    those still in the channel, and the chunks in the files followed by
    those of the records held are the chunks of the records of the dumps
    taken, in the order they were sent.  The worker never panics. *)
Theorem Server_archives_in_order (acts : list action) (srv' : server) :
  run acts Run = Some srv' →
  forallb creates acts = true →
  ∃ evs : list (list byte * env),
    sent acts = evs.*1 ++ queue (logger_chan srv')
    ∧ archived srv' = lines_of (records evs)
    ∧ worker srv' ≠ Panicked.
Proof.
  intros Hrun Hc.
  destruct (run_accounts acts Run srv' Run_ok Hrun)
    as ((_ & _ & _ & Hw) & evs & Hq & Ha).
  exists evs. split; [exact Hq|]. split; [exact (Ha Hc)|].
  intros Hp. rewrite Hp in Hw. exact Hw.
Qed.

Lemma run_after_return (acts : list action) (srv srv' : server) :
  worker srv = Returned →
  run acts srv = Some srv' →
  worker srv' = Returned ∧ disk srv' = disk srv
  ∧ queue (logger_chan srv') = queue (logger_chan srv) ++ sent acts
  ∧ forallb is_SetBits acts = true.
Proof.
  revert srv. induction acts as [|a acts IH]; intros srv Hw Hrun.
  - injection Hrun as <-.
    assert (sent [] = []) as ->
      by (unfold Server.sent; destruct (log_set_bit =? 1)%Z; reflexivity).
    rewrite app_nil_r. auto.
  - cbn [Server.run] in Hrun. destruct (step a srv) as [srv1|] eqn:Hstep;
      [|discriminate].
    assert (is_SetBits a = true ∧ worker srv1 = Returned
            ∧ disk srv1 = disk srv
            ∧ queue (logger_chan srv1) = queue (logger_chan srv) ++ sent [a])
      as (Ha & Hw1 & Hd1 & Hq1).
    { destruct a as [w r|e|e|e]; cbn [Server.step] in Hstep.
      - split; [reflexivity|]. unfold set_bits, Server.sent in *.
        destruct (log_set_bit =? 1)%Z.
        + destruct (Adapter.Handle _ _ _) as [x'| |] eqn:Hh; try discriminate.
          apply Handle_Handled_queue in Hh as (Hq' & _).
          cbn [Adapter.logger Adapter.r] in Hq'. injection Hstep as <-.
          cbn [worker disk logger_chan flat_map]. rewrite app_nil_r. auto.
        + destruct (HandleSetBit w r); [|discriminate]. injection Hstep as <-.
          rewrite app_nil_r. auto.
      - unfold Flusher_Handle, serve in Hstep. rewrite Hw in Hstep.
        discriminate.
      - unfold Shutdown, serve in Hstep. rewrite Hw in Hstep. discriminate.
      - unfold take_in, serve in Hstep.
        destruct (recv _ _) as [[raw ch]|]; [|discriminate].
        cbn [worker] in Hstep. rewrite Hw in Hstep. discriminate. }
    destruct (IH srv1 Hw1 Hrun) as (Hw' & Hd' & Hq' & Hall).
    split; [exact Hw'|]. split; [congruence|]. split.
    + rewrite Hq', Hq1, (sent_cons a acts), app_assoc. reflexivity.
    + cbn [forallb]. rewrite Ha, Hall. reflexivity.
Qed.

(** X21: After the shutdown nothing more is archived.  The dumps that were in
    the channel when the worker returned stay there, those of later
    requests to "/set_bits" line up behind them until the channel holds
    1024, and no file changes; a request to "/flush", a second shutdown
    or a receive never comes to its end. *)
Theorem Server_after_shutdown (acts1 acts2 : list action) (e : env)
    (srv' : server) :
  run (acts1 ++ Stop e :: acts2) Run = Some srv' →
  ∃ srv1,
    run (acts1 ++ [Stop e]) Run = Some srv1
    ∧ worker srv1 = Returned
    ∧ worker srv' = Returned
    ∧ disk srv' = disk srv1
    ∧ queue (logger_chan srv')
      = queue (logger_chan srv1) ++ sent acts2
    ∧ forallb is_SetBits acts2 = true
    ∧ length (queue (logger_chan srv')) ≤ 1024.
Proof.
  intros Hrun.
  change (Stop e :: acts2) with ([Stop e] ++ acts2) in Hrun.
  rewrite app_assoc, run_app in Hrun.
  destruct (run (acts1 ++ [Stop e]) Run) as [srv1|] eqn:Hrun1; [|discriminate].
  cbn [mbind option_bind] in Hrun.
  exists srv1. split; [reflexivity|].
  assert (worker srv1 = Returned) as Hw1.
  { rewrite run_app in Hrun1.
    destruct (run acts1 Run) as [srv0|] eqn:Hrun0; [|discriminate].
    cbn [mbind option_bind Server.run Server.step] in Hrun1.
    destruct (run_accounts acts1 Run srv0 Run_ok Hrun0)
      as ((_ & _ & _ & Hw0) & _).
    unfold Shutdown, serve in Hrun1.
    destruct (worker srv0) as [st| |]; try discriminate.
    rewrite Logger_step_End in Hrun1 by exact Hw0.
    injection Hrun1 as <-. reflexivity. }
  destruct (run_after_return acts2 srv1 srv' Hw1 Hrun) as (Hw' & Hd' & Hq' & Ha).
  assert (server_ok srv1) as Hok1
    by (apply (run_accounts (acts1 ++ [Stop e]) Run srv1 Run_ok Hrun1)).
  destruct (run_accounts acts2 srv1 srv' Hok1 Hrun) as ((_ & _ & Hlen & _) & _).
  auto 10.
Qed.

End ServerFacts.

(** ** The two streaming handlers *)

Section ListenFacts.
Import Hub Listen.
Context {Payload Host Conn : Type}.
Variable TypeString : Payload → string.
Variable Sdump : Payload → string.
Variable HostString : Host → string.
Variable stop_closes : bool.
Variable Sdump_recovered : bool → string.
Implicit Types b : bus (Payload := Payload) (Host := Host).
Implicit Types c : chan (value (Payload := Payload) (Host := Host)).
Implicit Types x : hub (Payload := Payload) (Host := Host) (Conn := Conn).

Lemma post_all_grown data (chs : list nat) :
  ∀ (h h' : list (chan (value (Payload := Payload) (Host := Host)))) ch c,
    post_all data chs h = Some h' →
    h !! ch = Some c →
    ∃ c', h' !! ch = Some c' ∧ grown 0 c c' ∧ (ch ∈ chs → grown 1 c c').
Proof.
  induction chs as [|ch0 chs IH]; intros h h' ch c Hp Hc.
  - injection Hp as <-. exists c. split; [exact Hc|].
    split; [split; [|split]; auto with lia|]. intros Hin. inversion Hin.
  - cbn [post_all] in Hp.
    destruct (h !! ch0) as [c0|] eqn:Hc0; [|discriminate].
    cbn [mbind option_bind] in Hp. unfold send in Hp.
    case_bool_decide as Hroom; [|discriminate]. cbn [mbind option_bind] in Hp.
    destruct (decide (ch = ch0)) as [->|Hne].
    + assert (c0 = c) as -> by congruence.
      match type of Hp with
      | post_all _ _ (<[_ := ?c1]> _) = _ =>
          pose proof (list_lookup_insert_eq h ch0 c1 (lookup_lt_Some _ _ _ Hc))
            as Hins
      end.
      destruct (IH _ h' ch0 _ Hp Hins) as (c' & Hc' & (Hcap & Hlen & Hin) & _).
      cbn [cap queue] in Hcap, Hlen, Hin. rewrite length_app in Hlen, Hin.
      cbn [length] in Hlen, Hin.
      exists c'. split; [exact Hc'|].
      split; [|intros _]; (split; [exact Hcap|]); (split; [lia|]);
        intros _; apply Hin; lia.
    + match type of Hp with
      | post_all _ _ (<[_ := ?c1]> _) = _ =>
          pose proof (list_lookup_insert_ne h ch0 ch c1 ltac:(congruence))
            as Hins
      end.
      rewrite Hc in Hins.
      destruct (IH _ h' ch c Hp Hins) as (c' & Hc' & Hg0 & Hg1).
      exists c'. split; [exact Hc'|]. split; [exact Hg0|].
      intros [?|Hin]%elem_of_cons; [contradiction | exact (Hg1 Hin)].
Qed.

Lemma Post_grown event data b b' ch c :
  Post event data b = Some b' →
  heap b !! ch = Some c →
  events b' = events b
  ∧ ∃ c', heap b' !! ch = Some c' ∧ grown 0 c c'
          ∧ (observes b event ch → grown 1 c c').
Proof.
  unfold Post, observes. intros Hp Hc.
  destruct (events b !! event) as [l|] eqn:Hev.
  - destruct (post_all data l (heap b)) as [h|] eqn:Hpa; [|discriminate].
    injection Hp as <-. cbn [events heap]. split; [reflexivity|].
    destruct (post_all_grown data l (heap b) h ch c Hpa Hc)
      as (c' & Hc' & Hg0 & Hg1).
    exists c'. split; [exact Hc'|]. split; [exact Hg0|].
    intros (l' & [= <-] & Hin). exact (Hg1 Hin).
  - injection Hp as <-. split; [reflexivity|]. exists c. split; [exact Hc|].
    split; [split; [|split]; auto with lia|].
    intros (l' & [=] & _).
Qed.

(** Publishers on an event that a channel observes and nobody reads:
    there is room for as many values as the channel has free slots. *)
Lemma post_many_bound event vs :
  ∀ b b' ch c,
    post_many event vs b = Some b' →
    observes b event ch →
    heap b !! ch = Some c →
    length (queue c) ≤ cap c →
    length (queue c) + length vs ≤ cap c.
Proof.
  induction vs as [|v vs IH]; intros b b' ch c Hp Hobs Hc Hle.
  - cbn [length]. lia.
  - cbn [post_many] in Hp. destruct (Post event v b) as [b1|] eqn:HP;
      [|discriminate].
    destruct (Post_grown event v b b1 ch c HP Hc) as (Hev & c1 & Hc1 & _ & Hg).
    destruct (Hg Hobs) as (Hcap & Hlen & Hin).
    assert (observes b1 event ch) as Hobs1
      by (unfold observes in *; rewrite Hev; exact Hobs).
    pose proof (IH b1 b' ch c1 Hp Hobs1 Hc1 (Hin Hle)) as Hb.
    cbn [length]. lia.
Qed.

Lemma teardown_Panicked rl x x' :
  teardown stop_closes rl x = (Panicked, x') → x' = x.
Proof.
  unfold teardown.
  repeat match goal with
         | |- context [match ?t with _ => _ end] => destruct t
         end; intros [= <-]; try discriminate; reflexivity.
Qed.

(** An iteration of the relay that goes on or panics leaves the table
    of observers alone and takes values only. *)
Lemma streamer_step_keeps
    (writer : gmap string string → Conn → Conn * option string)
    rl t x x' o ch c :
  streamer_step TypeString Sdump HostString writer stop_closes rl t x = (o, x') →
  o = Looping ∨ o = Panicked →
  heap (the_bus x) !! ch = Some c →
  events (the_bus x') = events (the_bus x)
  ∧ ∃ c', heap (the_bus x') !! ch = Some c' ∧ cap c' = cap c
          ∧ length (queue c') ≤ length (queue c).
Proof.
  unfold streamer_step. intros Hstep Ho Hc.
  set (chn := match t with FromOutbox => outbox rl | FromInbox => inbox rl end)
    in *.
  destruct (heap (the_bus x) !! chn) as [c0|] eqn:Hc0.
  2:{ injection Hstep as <- <-. split; [reflexivity|]. exists c. auto. }
  destruct (recv VNil c0) as [[obj c1]|] eqn:Hrecv.
  2:{ injection Hstep as <- <-. destruct Ho; discriminate. }
  assert (cap c1 = cap c0 ∧ length (queue c1) ≤ length (queue c0)) as [Hcap1 Hlen1].
  { unfold recv in Hrecv. destruct (queue c0) as [|v q] eqn:Hq.
    - destruct (closed c0); [|discriminate]. injection Hrecv as <- <-.
      rewrite Hq. auto.
    - injection Hrecv as <- <-. cbn. auto. }
  set (x1 := {| the_bus := _; conn := conn x; hub_logs := hub_logs x |}) in *.
  assert (events (the_bus x1) = events (the_bus x)
          ∧ ∃ c', heap (the_bus x1) !! ch = Some c' ∧ cap c' = cap c
                  ∧ length (queue c') ≤ length (queue c)) as Hx1.
  { split; [reflexivity|]. subst x1. cbn [the_bus heap].
    destruct (decide (ch = chn)) as [->|Hne].
    - exists c1. rewrite list_lookup_insert_eq by (eapply lookup_lt_Some, Hc0).
      assert (c0 = c) as -> by congruence. auto.
    - exists c. rewrite list_lookup_insert_ne by congruence. auto. }
  clearbody x1.
  match type of Hstep with
  | match ?sel with _ => _ end = _ => destruct sel as [[[data|] host]|]
  end; try (injection Hstep as <- <-; exact Hx1).
  destruct (writer _ (conn x1)) as [cn [err|]].
  - destruct Ho as [->| ->].
    + exfalso. unfold teardown in Hstep.
      repeat match type of Hstep with
             | context [match ?t with _ => _ end] => destruct t
             end; discriminate.
    + apply teardown_Panicked in Hstep as ->. exact Hx1.
  - injection Hstep as <- <-. exact Hx1.
Qed.

Lemma listen_loop_keeps
    (writer : gmap string string → Conn → Conn * option string) acts :
  ∀ rl x x' o ch c,
    listen_loop TypeString Sdump HostString stop_closes writer acts rl x
    = Some (o, x') →
    o = Looping ∨ o = Panicked →
    heap (the_bus x) !! ch = Some c →
    length (queue c) ≤ cap c →
    events (the_bus x') = events (the_bus x)
    ∧ ∃ c', heap (the_bus x') !! ch = Some c' ∧ cap c' = cap c
            ∧ length (queue c') ≤ cap c'.
Proof.
  induction acts as [|a acts IH]; intros rl x x' o ch c Hl Ho Hc Hle.
  - injection Hl as <- <-. split; [reflexivity|]. exists c. auto.
  - destruct a as [t|event v]; cbn [listen_loop] in Hl.
    + destruct (streamer_step _ _ _ _ _ rl t x) as [o1 x1] eqn:Hstep.
      destruct o1; try discriminate.
      * destruct (streamer_step_keeps writer rl t x x1 Looping ch c Hstep
                    ltac:(auto) Hc) as (Hev1 & c1 & Hc1 & Hcap1 & Hlen1).
        destruct (IH rl x1 x' o ch c1 Hl Ho Hc1 ltac:(lia))
          as (Hev & c' & Hc' & Hcap & Hlen).
        split; [congruence|]. exists c'. split; [exact Hc'|].
        split; [congruence | exact Hlen].
      * injection Hl as <- <-. destruct Ho; discriminate.
      * injection Hl as <- <-.
        destruct (streamer_step_keeps writer rl t x x1 Panicked ch c Hstep
                    ltac:(auto) Hc) as (Hev1 & c1 & Hc1 & Hcap1 & Hlen1).
        split; [exact Hev1|]. exists c1. split; [exact Hc1|].
        split; [exact Hcap1 | lia].
      * injection Hl as <- <-. destruct Ho; discriminate.
    + destruct (Post event v (the_bus x)) as [b1|] eqn:HP; [|discriminate].
      destruct (Post_grown event v (the_bus x) b1 ch c HP Hc)
        as (Hev1 & c1 & Hc1 & (Hcap1 & _ & Hin1) & _).
      destruct (IH rl _ x' o ch c1 Hl Ho Hc1 (Hin1 Hle))
        as (Hev & c' & Hc' & Hcap & Hlen).
      cbn [the_bus] in Hev. split; [congruence|]. exists c'.
      split; [exact Hc'|]. split; [congruence | exact Hlen].
Qed.

(** What the first four statements of [streamer] leave. *)
Lemma streamer_start_made b :
  let rl := (streamer_start b).1 in
  let b' := (streamer_start b).2 in
  observes b' "inbox" (inbox rl)
  ∧ observes b' "outbox" (outbox rl)
  ∧ heap b' !! inbox rl = Some (make_chan 10)
  ∧ heap b' !! outbox rl = Some (make_chan 10).
Proof.
  cbv zeta. unfold streamer_start, make, observes. cbn [fst snd inbox outbox heap].
  split; [|split; [|split]].
  - eexists. rewrite Start_lookup_ne by discriminate. rewrite Start_lookup.
    split; [reflexivity|]. apply elem_of_app. right. apply list_elem_of_singleton.
    reflexivity.
  - eexists. rewrite Start_lookup. split; [reflexivity|].
    apply elem_of_app. right. apply list_elem_of_singleton. reflexivity.
  - cbn [Start heap]. rewrite lookup_app_l by (rewrite length_app; cbn; lia).
    rewrite lookup_app_r by lia. rewrite Nat.sub_diag. reflexivity.
  - cbn [Start heap]. rewrite lookup_app_r by (rewrite length_app; cbn; lia).
    rewrite length_app. cbn [length].
    replace (length (heap b) + 1 - (length (heap b) + 1)) with 0 by lia.
    reflexivity.
Qed.

(** X22: A relay that panics (a nil payload, a value of a foreign type) does
    not take the server down: the deferred [recover] ends either
    streaming handler normally, with the panic dumped.  But the relay's
    two channels are still observers of "inbox" and "outbox", and nobody
    reads them any more: on either topic publishers get at most ten
    more values through, and the next one waits for ever. *)
Theorem listeners_leak_after_panic
    (writer : gmap string string → Conn → Conn * option string)
    (acts : list act) (x : world) (rl : relay) h :
  streamer TypeString Sdump HostString stop_closes writer acts (the_hub x)
  = (rl, Some (Panicked, h)) →
  let x' := deferred Sdump_recovered true
              {| the_hub := h; resp := resp x; stdout := stdout x |} in
  HandleListenWS TypeString Sdump HostString stop_closes Sdump_recovered
    (Upgraded writer) acts x = Some (Some rl, Ended, x')
  ∧ HandleListenStream TypeString Sdump HostString stop_closes Sdump_recovered
      true writer acts x = Some (Some rl, Ended, x')
  ∧ observes (the_bus h) "inbox" (inbox rl)
  ∧ observes (the_bus h) "outbox" (outbox rl)
  ∧ ∀ event vs b',
      event = "inbox"%string ∨ event = "outbox"%string →
      post_many event vs (the_bus h) = Some b' →
      length vs ≤ 10.
Proof.
  intros Hs. cbv zeta.
  split; [|split].
  - unfold HandleListenWS, relay_under_recover. rewrite Hs. reflexivity.
  - unfold HandleListenStream, relay_under_recover. rewrite Hs. reflexivity.
  - unfold streamer in Hs.
    pose proof (streamer_start_made (the_bus (the_hub x))) as Hmade.
    cbv zeta in Hmade.
    destruct (streamer_start (the_bus (the_hub x))) as [rl0 b0].
    cbn [fst snd] in Hmade. destruct Hmade as (Hoi & Hoo & Hci & Hco).
    injection Hs as -> Hloop.
    destruct (listen_loop_keeps writer acts rl _ h Panicked (inbox rl) _ Hloop
                ltac:(auto) Hci ltac:(cbn; lia))
      as (Hev & ci & Hci' & Hcapi & Hleni).
    destruct (listen_loop_keeps writer acts rl _ h Panicked (outbox rl) _ Hloop
                ltac:(auto) Hco ltac:(cbn; lia))
      as (_ & co & Hco' & Hcapo & Hleno).
    cbn [the_bus] in Hev.
    assert (observes (the_bus h) "inbox" (inbox rl)) as Hoi'
      by (unfold observes in *; rewrite Hev; exact Hoi).
    assert (observes (the_bus h) "outbox" (outbox rl)) as Hoo'
      by (unfold observes in *; rewrite Hev; exact Hoo).
    split; [exact Hoi'|]. split; [exact Hoo'|].
    intros event vs b' [-> | ->] Hp.
    + pose proof (post_many_bound _ vs _ b' _ ci Hp Hoi' Hci' Hleni) as Hb.
      cbn [cap make_chan] in Hcapi. lia.
    + pose proof (post_many_bound _ vs _ b' _ co Hp Hoo' Hco' Hleno) as Hb.
      cbn [cap make_chan] in Hcapo. lia.
Qed.

End ListenFacts.

(** ** Runs of the handlers on the sample services *)

Section HandlerRuns.
Import Web Handlers SampleWeb.
Local Existing Instance SampleWeb.externals.
Local Existing Instance SampleWeb.service.

(** A request with the method in lower case. *)
Lemma post_handlers_reject_other_methods_run :
  HandleSetBit {| Method := "post"; form_err := None; Form := ∅;
                  body_ := inl [obj1] |} x0
  = (Done, {| resp := {| status := Some 405;
                         body := "Only POST allowed" ++ nl |};
              log := []; stdout := []; calls := [] |}).
Proof.
  pose proof (post_handlers_reject_other_methods
                {| Method := "post"; form_err := None; Form := ∅;
                   body_ := inl [obj1] |} x0 ltac:(discriminate)) as Hall.
  apply Forall_cons in Hall as [_ Hall]. apply Forall_cons in Hall as [_ Hall].
  apply Forall_cons in Hall as [_ Hall]. apply Forall_cons in Hall as [Hset _].
  exact Hset.
Defined.

(** A posted request to the test route: nothing is pushed. *)
Lemma get_handlers_reject_other_methods_run :
  HandleTest (post ∅) x0
  = (Done, {| resp := {| status := Some 405;
                         body := "Only GET allowed" ++ nl |};
              log := []; stdout := []; calls := [] |}).
Proof.
  pose proof (get_handlers_reject_other_methods (post ∅) x0
                ltac:(discriminate)) as Hall.
  apply Forall_cons in Hall as [_ Hall]. apply Forall_cons in Hall as [_ Hall].
  apply Forall_cons in Hall as [_ Hall]. apply Forall_cons in Hall as [Htest _].
  exact Htest.
Defined.

(** A batch request with a filter of -1: the filter reaches [Batch] as
    2^64 - 1, the missing slice as 0. *)
Lemma HandleBatch_argument_ranges_run :
  calls (HandleBatch batch_request x0).2
  = [CBatch "3" EmptyString EmptyString 7 0 18446744073709551615]
  ∧ (0 ≤ 7 < 2 ^ 64)%Z
  ∧ (- 2 ^ 31 ≤ 0 < 2 ^ 31)%Z
  ∧ ((0 ≤ 18446744073709551615 < 2 ^ 31)%Z
     ∨ (2 ^ 64 - 2 ^ 31 ≤ 18446744073709551615 < 2 ^ 64)%Z).
Proof.
  split; [reflexivity|].
  apply (HandleBatch_argument_ranges batch_request x0
           "3" EmptyString EmptyString).
  reflexivity.
Defined.


(** An object without "profile_id": the handler panics and nothing is
    written. *)
Lemma HandleSetBit_missing_field_run :
  HandleSetBit (set_bits [obj_without_profile]) x0 = (Panic, x0).
Proof.
  destruct (HandleSetBit_missing_field (set_bits [obj_without_profile]) x0
              [obj_without_profile] eq_refl eq_refl) as [_ Hfirst].
  - apply Exists_cons_hd. reflexivity.
  - apply (Hfirst obj_without_profile []); reflexivity.
Defined.


(** A ping of a known process. *)
Lemma HandlePing_status_run :
  status (resp (HandlePing ping_p1 x0).2) = Some 200
  ∧ calls (HandlePing ping_p1 x0).2 = [CGetProcess "p1"; CPing "p1"]
  ∧ body (resp (HandlePing ping_p1 x0).2)
    = ("{" ++ Sample.q ++ "duration" ++ Sample.q ++ ":5}" ++ nl)%string.
Proof. exact (HandlePing_status ping_p1 x0 eq_refl). Defined.

(** Metadata and memory statistics that do not marshal. *)
Lemma unencodable_result_by_handler_run :
  (HandleStats (get ∅) x0).1 = Exit
  ∧ status (resp (HandleProcesses (get ∅) x0).2) = Some 400.
Proof.
  destruct (unencodable_result_by_handler (get ∅) x0 "unsupported type" eq_refl)
    as (Hstats & Hproc & _).
  split.
  - apply Hstats; reflexivity.
  - apply Hproc; reflexivity.
Defined.

End HandlerRuns.

(** ** Runs of the worker, the relay and the server *)

Section AccountRuns.
Local Existing Instance Sample.clock.
Local Existing Instance stored_gzip.
Local Existing Instance Sample.json.
Local Existing Instance Sample.config.

(** Two events with a flush between them, then the shutdown: two files,
    one record each. *)
Lemma Logger_writes_what_it_received_run :
  let ticks := [(Raw Sample.hi, Sample.e_ok); (Flusher, Sample.e_ok);
                (Raw Sample.hi, Sample.e_ok); (End_, Sample.e_ok)] in
  (Logger "a" ticks).1 = Returned
  ∧ written (Logger "a" ticks).2
    = lines_of [NewLogRecord (2013, 61) Sample.hi;
                NewLogRecord (2013, 61) Sample.hi]
  ∧ length (files (Logger "a" ticks).2) = 2.
Proof.
  intros ticks.
  assert ((Logger "a" ticks).1 = Returned) as Hret by (vm_compute; reflexivity).
  assert (length (files (Logger "a" ticks).2) = 2) as Hlen
    by (vm_compute; reflexivity).
  split; [exact Hret|]. split; [|exact Hlen].
  pose proof (@Logger_writes_what_it_received Sample.clock stored_gzip
                Sample.json Sample.config "a" ticks) as Hacc.
  destruct (Logger "a" ticks) as [o w]. cbn [fst] in Hret. subst o.
  apply Hacc. repeat constructor.
Defined.

(** Two flushes of the same worker a second apart. *)
Lemma genFileName_same_iff_run :
  genFileName (2013, 61) "a" = genFileName (2013, 62) "a"
  ↔ Format (2013, 61) = Format (2013, 62) ∧ "a"%string = "a"%string.
Proof.
  apply (@genFileName_same_iff Sample.clock Sample.config). reflexivity.
Defined.

End AccountRuns.

Section RelayRuns.
Import Hub Relay SampleWeb.

(** Two messages on "inbox" and one on "outbox", taken inbox, outbox,
    inbox. *)
Lemma streamer_relays_in_order_run :
  ∃ x',
    streamer_loop (λ _, "string"%string) (λ p, p) (λ h, h) recording false
      [FromInbox; FromOutbox; FromInbox] {| inbox := 0; outbox := 1 |} queued
    = (Looping, x')
    ∧ conn x'
      = [ {[ "type"%string := "string"%string; "dump"%string := "m0"%string;
             "host"%string := EmptyString ]};
          {[ "type"%string := "string"%string; "dump"%string := "o0"%string;
             "host"%string := "host1"%string ]};
          {[ "type"%string := "string"%string; "dump"%string := "m1"%string;
             "host"%string := EmptyString ]} ].
Proof.
  destruct (streamer_relays_in_order (λ _, "string"%string) (λ p, p) (λ h, h)
              false {| inbox := 0; outbox := 1 |} queued
              ["m0"; "m1"]%string [("o0", "host1")]%string
              [FromInbox; FromOutbox; FromInbox])
    as (x' & Hrun & Hconn & _).
  - split; [cbn; lia|]. split; eexists; split; reflexivity.
  - cbn. lia.
  - cbn. lia.
  - exists x'. split; [exact Hrun | exact Hconn].
Defined.

End RelayRuns.

Section ServerRuns.
Import Server SampleWeb.
Local Existing Instance Sample.clock.
Local Existing Instance stored_gzip.
Local Existing Instance Sample.json.
Local Existing Instance Sample.config.

(** Two requests, one receive and the shutdown: the first dump is in a
    file, the second still in the channel. *)
Lemma Server_archives_in_order_run :
  ∃ srv' evs,
    run dumping Sample.answering 1 "a" (session ++ [Stop Sample.e_ok]) Run
    = Some srv'
    ∧ sent dumping 1 (session ++ [Stop Sample.e_ok])
      = evs.*1 ++ queue (logger_chan srv')
    ∧ archived srv' = lines_of (records evs)
    ∧ worker srv' = Returned
    ∧ queue (logger_chan srv') = [[]].
Proof.
  assert (match run dumping Sample.answering 1 "a"
                  (session ++ [Stop Sample.e_ok]) Run with
          | Some srv' => worker srv' = Returned ∧ queue (logger_chan srv') = [[]]
          | None => False
          end) as Hfacts by (vm_compute; auto).
  destruct (run dumping Sample.answering 1 "a" _ Run) as [srv'|] eqn:Hrun;
    [|contradiction].
  destruct (Server_archives_in_order dumping Sample.answering 1 "a" _ srv'
              Hrun eq_refl) as (evs & Hsent & Harch & _).
  exists srv', evs. tauto.
Defined.

(** The same session, and one more request after the shutdown: its dump
    lines up behind the one that was left, and the file stays as it
    was. *)
Lemma Server_after_shutdown_run :
  ∃ srv1 srv',
    run dumping Sample.answering 1 "a" (session ++ [Stop Sample.e_ok]) Run
    = Some srv1
    ∧ run dumping Sample.answering 1 "a"
        (session ++ Stop Sample.e_ok :: late_request) Run
      = Some srv'
    ∧ worker srv' = Returned
    ∧ disk srv' = disk srv1
    ∧ queue (logger_chan srv')
      = queue (logger_chan srv1) ++ sent dumping 1 late_request
    ∧ queue (logger_chan srv') = [[]; Sample.hi].
Proof.
  assert (match run dumping Sample.answering 1 "a"
                  (session ++ Stop Sample.e_ok :: late_request) Run with
          | Some srv' => queue (logger_chan srv') = [[]; Sample.hi]
          | None => False
          end) as Hfacts by (vm_compute; auto).
  destruct (run dumping Sample.answering 1 "a"
              (session ++ Stop Sample.e_ok :: late_request) Run)
    as [srv'|] eqn:Hrun; [|contradiction].
  destruct (Server_after_shutdown dumping Sample.answering 1 "a"
              session late_request Sample.e_ok srv' Hrun)
    as (srv1 & Hrun1 & _ & Hw & Hd & Hq & _).
  exists srv1, srv'. tauto.
Defined.

End ServerRuns.

Section ListenRuns.
Import Hub Listen SampleWeb.

(** A message without data is published and the relay takes it: the
    relay panics, the handler ends, and its channel still observes
    "inbox". *)
Lemma listeners_leak_after_panic_run :
  ∃ rl h,
    streamer (λ _, "string"%string) (λ p, p) (λ h, h) false Relay.recording
      [Publish "inbox" nil_message; Relay FromInbox] (the_hub listening)
    = (rl, Some (Panicked, h))
    ∧ HandleListenWS (λ _, "string"%string) (λ p, p) (λ h, h) false
        Sdump_recovered (Upgraded Relay.recording)
        [Publish "inbox" nil_message; Relay FromInbox] listening
      = Some (Some rl, Ended,
              deferred Sdump_recovered true
                {| the_hub := h; resp := resp listening;
                   stdout := stdout listening |})
    ∧ observes (the_bus h) "inbox" (inbox rl)
    ∧ ∀ vs b', post_many "inbox" vs (the_bus h) = Some b' → length vs ≤ 10.
Proof.
  assert (match (streamer (λ _, "string"%string) (λ p, p) (λ h, h) false
                    Relay.recording
                    [Publish "inbox" nil_message; Relay FromInbox]
                    (the_hub listening)).2 with
          | Some (o, _) => o = Panicked
          | None => False
          end) as Hpanic by (vm_compute; reflexivity).
  destruct (streamer (λ _, "string"%string) (λ p, p) (λ h, h) false
              Relay.recording [Publish "inbox" nil_message; Relay FromInbox]
              (the_hub listening)) as [rl [[o h]|]] eqn:Hrun;
    [|contradiction].
  cbn [snd] in Hpanic. subst o.
  destruct (listeners_leak_after_panic (λ _, "string"%string) (λ p, p)
              (λ h, h) false Sdump_recovered Relay.recording
              [Publish "inbox" nil_message; Relay FromInbox] listening rl h
              Hrun) as (Hws & _ & Hin & _ & Hpost).
  exists rl, h. split; [reflexivity|]. split; [exact Hws|].
  split; [exact Hin|]. intros vs b'. apply Hpost. left. reflexivity.
Defined.

End ListenRuns.
